(* ===================================================================== *)
(* Verification of extraction/cubicasa.py: floor-plan reconstruction     *)
(* ===================================================================== *)
(* The Python module is embedded shallowly.  Geometry values are the
   shapely classes the module handles; the shapely operations the module
   calls (validity, area, distance, boolean operations, DE-9IM relation,
   polygonize, ...) are the fields of the interface [Shapely].
   Coordinates, areas and distances are rationals: the module only
   compares them.  The functions and methods of the module are translated
   under their own names; [close_ring], [boundary] and the matching of a
   relation matrix against a pattern restate what the library does with a
   ring, a line and a pattern.  Methods that assign to attributes take the
   state they change and return the new one; a method that can raise
   returns a [result].  The definitions end with the predicates the
   statements use and with the library's answers on a few concrete
   drawings; the properties follow. *)

From Stdlib Require Import QArith Qabs.
From stdpp Require Import gmap list fin_maps strings.

Local Open Scope nat_scope.

(* --------------------------------------------------------------------- *)
(* Geometry values                                                        *)
(* --------------------------------------------------------------------- *)

Definition Coord : Type := (Q * Q)%type.

(* A LineString is its coordinate sequence; an edge has two coordinates. *)
Definition LineString : Type := list Coord.

Record Polygon : Type := mkPolygon {
  exterior : list Coord;          (* polygon.exterior.coords *)
  interiors : list (list Coord)   (* rings of the holes *)
}.

#[warnings="-register-all"]
Inductive Geometry : Type :=
| GPoint (c : option Coord)            (* Point() is GPoint None *)
| GLineString (l : LineString)
| GMultiPoint (cs : list Coord)
| GMultiLineString (ls : list LineString)
| GPolygon (p : Polygon)
| GMultiPolygon (ps : list Polygon)
| GGeometryCollection (gs : list Geometry).

(* Polygon(): the empty polygon. *)
Definition empty_polygon : Polygon := mkPolygon [] [].

Definition coord_eqb (a b : Coord) : bool :=
  Qeq_bool (fst a) (fst b) && Qeq_bool (snd a) (snd b).

Fixpoint coords_eqb (l1 l2 : list Coord) : bool :=
  match l1, l2 with
  | [], [] => true
  | a :: l1', b :: l2' => coord_eqb a b && coords_eqb l1' l2'
  | _, _ => false
  end.

(* A ring is stored closed: the constructor repeats the first coordinate
   at the end unless the sequence already ends with it (and always for a
   sequence of three, which a ring of four coordinates needs). *)
Definition close_ring (pts : list Coord) : list Coord :=
  match pts with
  | [] => []
  | first :: _ =>
      if (length pts =? 3) || negb (coord_eqb first (List.last pts first))
      then pts ++ [first]
      else pts
  end.

(* Polygon(points) *)
Definition Polygon_ (points : list Coord) : Polygon :=
  mkPolygon (close_ring points) [].

(* DE-9IM: nine dimension entries, and the pattern characters. *)
Inductive Dim : Type := DF | D0 | D1 | D2.
Inductive PatChar : Type := PT | PF | PStar | P0 | P1 | P2.

Definition char_matches (d : Dim) (c : PatChar) : bool :=
  match c, d with
  | PStar, _ => true
  | PT, DF => false
  | PT, _ => true
  | PF, DF => true
  | P0, D0 => true
  | P1, D1 => true
  | P2, D2 => true
  | _, _ => false
  end.

Fixpoint matrix_matches (m : list Dim) (pat : list PatChar) : bool :=
  match m, pat with
  | [], [] => true
  | d :: m', c :: pat' => char_matches d c && matrix_matches m' pat'
  | _, _ => false
  end.

(* --------------------------------------------------------------------- *)
(* The geometry library, as the module uses it                            *)
(* --------------------------------------------------------------------- *)

Class Shapely : Type := {
  is_valid : Polygon -> bool;
  area : Polygon -> Q;
  line_length : LineString -> Q;
  (* shapely.ops.split(line, MultiLineString(others)); None when it raises *)
  split : LineString -> list LineString -> option (list LineString);
  intersection : Geometry -> Geometry -> Geometry;
  difference : Geometry -> Geometry -> Geometry;
  equals : Geometry -> Geometry -> bool;
  polygonize : list LineString -> list Polygon;
  distance : Geometry -> Geometry -> Q;
  relate : Geometry -> Geometry -> list Dim;
  minimum_rotated_rectangle : Polygon -> Polygon
}.

(* g1.relate_pattern(g2, pattern) *)
Definition relate_pattern `{Shapely} (g1 g2 : Geometry) (pat : list PatChar) : bool :=
  matrix_matches (relate g1 g2) pat.

Definition CLOSE_EDGE_TOLERANCE : Q := 1%Q.

(* x < y and x <= y on the numbers the module compares *)
Definition Qltb (x y : Q) : bool := negb (Qle_bool y x).
Definition Qleb (x y : Q) : bool := Qle_bool x y.

(* --------------------------------------------------------------------- *)
(* Shape reconstruction                                                   *)
(* --------------------------------------------------------------------- *)

Section ShapeReconstruction.
Context `{Shapely}.

(* zip(coords[:-1], coords[1:]) *)
Definition polygon_edges (polygon : Polygon) : list LineString :=
  let cs := exterior polygon in
  zip_with (fun a b => [a; b]) (removelast cs) (tail cs).

Fixpoint largest_from (largest : Polygon) (ps : list Polygon) : Polygon :=
  match ps with
  | [] => largest
  | p :: ps' =>
      if Qltb (area largest) (area p) then largest_from p ps'
      else largest_from largest ps'
  end.

(* polygons[0] raises IndexError on an empty list *)
Definition largest_polygon (polygons : list Polygon) : option Polygon :=
  match polygons with
  | [] => None
  | p :: ps => Some (largest_from p ps)
  end.

(* list.extend(x) for an iterable x, list.append(x) otherwise: of the
   geometry classes only the Multi* ones and collections iterate *)
Definition extend_or_append (l : list Geometry) (x : Geometry) : list Geometry :=
  match x with
  | GMultiPoint cs => l ++ map (fun c => GPoint (Some c)) cs
  | GMultiLineString ls => l ++ map GLineString ls
  | GMultiPolygon ps => l ++ map GPolygon ps
  | GGeometryCollection gs => l ++ gs
  | _ => l ++ [x]
  end.

(* [s for s in segments if isinstance(s, LineString) and not s.is_empty] *)
Definition nonempty_lines (segments : list Geometry) : list LineString :=
  omap (fun s => match s with
                 | GLineString (c :: cs) => Some (c :: cs)
                 | _ => None
                 end) segments.

Definition split_edge (edges : list LineString) (this_edge : LineString)
  : list LineString :=
  let other_edges := filter (fun e => negb (coords_eqb e this_edge) = true) edges in
  match split this_edge other_edges with
  | Some result => result
  | None =>
      let segments := extend_or_append []
        (intersection (GLineString this_edge) (GMultiLineString other_edges)) in
      let segments := extend_or_append segments
        (difference (GLineString this_edge) (GMultiLineString other_edges)) in
      nonempty_lines segments
  end.

Definition split_at_intersections (edges : list LineString) : list LineString :=
  concat (map (split_edge edges) edges).

Fixpoint remove_duplicates_into (deduplicated geometry_list : list LineString)
  : list LineString :=
  match geometry_list with
  | [] => deduplicated
  | this :: rest =>
      if existsb (fun that => equals (GLineString this) (GLineString that)) deduplicated
      then remove_duplicates_into deduplicated rest
      else remove_duplicates_into (deduplicated ++ [this]) rest
  end.

Definition remove_duplicates (geometry_list : list LineString) : list LineString :=
  remove_duplicates_into [] geometry_list.

(* The polygons the repair of an invalid ring produces. *)
Definition repaired_polygons (polygon : Polygon) : list Polygon :=
  let raw_edges := polygon_edges polygon in
  let split_edges := split_at_intersections raw_edges in
  let deduplicated_edges := remove_duplicates split_edges in
  polygonize deduplicated_edges.

Definition polygon_from_points (points : list Coord) : Geometry :=
  match points with
  | [] => GPoint None
  | [p] => GPoint (Some p)
  | [p; q] => GLineString [p; q]
  | _ =>
      let polygon := Polygon_ points in
      if is_valid polygon then GPolygon polygon
      else
        match largest_polygon (repaired_polygons polygon) with
        | Some p => GPolygon p
        | None => GPolygon empty_polygon
        end
  end.

End ShapeReconstruction.

(* --------------------------------------------------------------------- *)
(* Exceptions                                                             *)
(* --------------------------------------------------------------------- *)

Inductive Exc : Type := TypeError | AttributeError | IndexError.

Inductive result (A : Type) : Type :=
| Ok (a : A)
| Raise (e : Exc).
Arguments Ok {A} a.
Arguments Raise {A} e.

(* --------------------------------------------------------------------- *)
(* Edge closeness                                                         *)
(* --------------------------------------------------------------------- *)

Section Closeness.
Context `{Shapely}.

(* line.boundary: the two end points, none for a closed or empty line *)
Definition boundary (line : LineString) : list Coord :=
  match line with
  | [] => []
  | first :: _ =>
      let final := List.last line first in
      if coord_eqb first final then [] else [first; final]
  end.

Definition point_near (tolerance : Q) (pr : LineString * Coord) : bool :=
  Qltb (distance (GLineString (fst pr)) (GPoint (Some (snd pr)))) tolerance.

(* The for loop of lines_are_close, with its flag first_pair_found. *)
Fixpoint close_scan (tolerance : Q) (first_pair_found : bool)
    (pairs : list (LineString * Coord)) : bool :=
  match pairs with
  | [] => false
  | pr :: rest =>
      if point_near tolerance pr then
        if first_pair_found then true
        else close_scan tolerance true rest
      else close_scan tolerance first_pair_found rest
  end.

Definition lines_are_close (line1 line2 : LineString) (tolerance : Q)
  : result bool :=
  if Qltb 0 (line_length line1) && Qltb 0 (line_length line2) then
    match boundary line2, boundary line1 with
    | [b20; b21], [b10; b11] =>
        Ok (close_scan tolerance false
              [(line1, b20); (line1, b21); (line2, b10); (line2, b11)])
    | _, _ => Raise IndexError     (* boundary[0] or boundary[1] *)
    end
  else Ok false.

(* polygon.exterior exists on a Polygon only *)
Definition edges (polygon : Geometry) : result (list LineString) :=
  match polygon with
  | GPolygon p => Ok (polygon_edges p)
  | _ => Raise AttributeError
  end.

(* for other_edge in other_edges: if lines_are_close(...): return True *)
Fixpoint any_close_edge (self_edge : LineString) (other_edges : list LineString)
  : result bool :=
  match other_edges with
  | [] => Ok false
  | other_edge :: rest =>
      match lines_are_close self_edge other_edge CLOSE_EDGE_TOLERANCE with
      | Raise e => Raise e
      | Ok true => Ok true
      | Ok false => any_close_edge self_edge rest
      end
  end.

(* for self_edge in self.edges(): for other_edge in other.edges(): ... *)
Fixpoint is_close_loop (self_edges : list LineString) (other : Geometry)
  : result bool :=
  match self_edges with
  | [] => Ok false
  | self_edge :: rest =>
      match edges other with
      | Raise e => Raise e
      | Ok other_edges =>
          match any_close_edge self_edge other_edges with
          | Raise e => Raise e
          | Ok true => Ok true
          | Ok false => is_close_loop rest other
          end
      end
  end.

(* PlanObject._is_close on the two polygon properties *)
Definition _is_close (self_polygon other_polygon : Geometry) : result bool :=
  if Qleb (distance self_polygon other_polygon) CLOSE_EDGE_TOLERANCE then
    match edges self_polygon with
    | Raise e => Raise e
    | Ok self_edges => is_close_loop self_edges other_polygon
    end
  else Ok false.

End Closeness.

(* --------------------------------------------------------------------- *)
(* The polygon property and its cache                                     *)
(* --------------------------------------------------------------------- *)

(* A PlanObject, as far as its polygon goes: the points of its polygon
   element and the slot functools.cached_property fills.  [computations]
   is a ghost counter of the calls of polygon_from_points. *)
Record PlanObject : Type := mkPlanObject {
  element_points : list Coord;
  cached_polygon : option Geometry;
  computations : nat
}.

(* A Wall adds the attribute _polygon, None after __init__. *)
Record Wall : Type := mkWall {
  wall_object : PlanObject;
  _polygon : option Geometry
}.

Definition new_PlanObject (pts : list Coord) : PlanObject :=
  mkPlanObject pts None 0.

Definition new_Wall (pts : list Coord) : Wall :=
  mkWall (new_PlanObject pts) None.

#[global] Instance Wall_inhabited : Inhabited Wall := populate (new_Wall []).

Section PolygonProperty.
Context `{Shapely}.

(* PlanObject.polygon (a cached_property): the value read and the object
   after the read *)
Definition PlanObject_polygon (o : PlanObject) : Geometry * PlanObject :=
  match cached_polygon o with
  | Some g => (g, o)
  | None =>
      let g := polygon_from_points (element_points o) in
      (g, mkPlanObject (element_points o) (Some g) (S (computations o)))
  end.

(* Wall.polygon (a property over _polygon) *)
Definition Wall_polygon (w : Wall) : Geometry * Wall :=
  match _polygon w with
  | None =>
      let '(g, o) := PlanObject_polygon (wall_object w) in
      (g, mkWall o (Some g))
  | Some g => (g, w)
  end.

(* wall._polygon = value *)
Definition set_polygon (value : option Geometry) (w : Wall) : Wall :=
  mkWall (wall_object w) value.

(* n successive reads of the property: the values read, in order *)
Fixpoint read_times (n : nat) (o : PlanObject) : list Geometry * PlanObject :=
  match n with
  | 0 => ([], o)
  | S n' =>
      let '(g, o1) := PlanObject_polygon o in
      let '(gs, o2) := read_times n' o1 in
      (g :: gs, o2)
  end.

Fixpoint Wall_read_times (n : nat) (w : Wall) : list Geometry * Wall :=
  match n with
  | 0 => ([], w)
  | S n' =>
      let '(g, w1) := Wall_polygon w in
      let '(gs, w2) := Wall_read_times n' w1 in
      (g :: gs, w2)
  end.

End PolygonProperty.

(* --------------------------------------------------------------------- *)
(* Overlap resolution                                                     *)
(* --------------------------------------------------------------------- *)

(* What a Python function hands back: True, False, or None when it falls
   off its end. *)
Inductive PyRet : Type := RTrue | RFalse | RNone.

(* "2121T1212" *)
Definition overlap_pattern : list PatChar :=
  [P2; P1; P2; P1; PT; P1; P2; P1; P2].

Section OverlapResolution.
Context `{Shapely}.

(* min(d1, d2): the first of the smallest *)
Definition py_min (d1 d2 : Q) : Q := if Qltb d2 d1 then d2 else d1.

Definition minimum_rotated_rectangle_dimension (polygon : Polygon) : result Q :=
  let rect := minimum_rotated_rectangle polygon in
  match firstn 3 (exterior rect) with
  | [c0; c1; c2] =>
      let d1 := distance (GPoint (Some c0)) (GPoint (Some c1)) in
      let d2 := distance (GPoint (Some c1)) (GPoint (Some c2)) in
      Ok (py_min d1 d2)
  | _ => Raise IndexError      (* points[1] or points[2] *)
  end.

(* The polygon the function returns, None when it falls off its end. *)
Definition subtract_cleanly (this_polygon that_polygon : Geometry) (tolerance : Q)
  : result (option Geometry) :=
  let diff := difference this_polygon that_polygon in
  match diff with
  | GPolygon _ => Ok (Some diff)
  | GMultiPolygon [p0; p1] =>
      match minimum_rotated_rectangle_dimension p0 with
      | Raise e => Raise e
      | Ok s0 =>
          match minimum_rotated_rectangle_dimension p1 with
          | Raise e => Raise e
          | Ok s1 =>
              let min_size := py_min s0 s1 in
              if Qltb min_size tolerance then
                (* i = sizes.index(min_size); difference[1-i] *)
                if Qeq_bool s0 min_size then Ok (Some (GPolygon p1))
                else Ok (Some (GPolygon p0))
              else Ok None
          end
      end
  | _ => Ok None
  end.

(* Reading the property of the wall at an index of self.walls. *)
Definition read_polygon (i : nat) (walls : list Wall) : Geometry * list Wall :=
  let '(g, w) := Wall_polygon (walls !!! i) in
  (g, <[i := w]> walls).

Definition write_polygon (i : nat) (value : option Geometry) (walls : list Wall)
  : list Wall :=
  <[i := set_polygon value (walls !!! i)]> walls.

(* Wall.remove_overlaps, self and other_wall given by their indices.  The
   property is read once for each wall: nothing is assigned between the
   reads the method makes, so they all return the same polygon. *)
Definition remove_overlaps (self other_wall : nat) (clean_overlaps_only : bool)
    (walls : list Wall) : result PyRet * list Wall :=
  let '(self_polygon, walls) := read_polygon self walls in
  let '(other_polygon, walls) := read_polygon other_wall walls in
  if relate_pattern self_polygon other_polygon overlap_pattern then
    match subtract_cleanly self_polygon other_polygon CLOSE_EDGE_TOLERANCE with
    | Raise e => (Raise e, walls)
    | Ok (Some self_difference) =>
        (Ok RTrue, write_polygon self (Some self_difference) walls)
    | Ok None =>
        match subtract_cleanly other_polygon self_polygon CLOSE_EDGE_TOLERANCE with
        | Raise e => (Raise e, walls)
        | Ok (Some other_difference) =>
            (Ok RTrue, write_polygon other_wall (Some other_difference) walls)
        | Ok other_difference =>
            if clean_overlaps_only then (Ok RFalse, walls)
            else (Ok RTrue, write_polygon other_wall other_difference walls)
        end
    end
  else (Ok RNone, walls).

(* x == False *)
Definition is_False (r : PyRet) : bool :=
  match r with RFalse => true | _ => false end.

(* One pass of the for loop over pairs, appending to pairs_to_retry. *)
Fixpoint resolution_round (pairs pairs_to_retry : list (nat * nat))
    (walls : list Wall) : result (list (nat * nat)) * list Wall :=
  match pairs with
  | [] => (Ok pairs_to_retry, walls)
  | (this_wall, that_wall) :: rest =>
      match remove_overlaps this_wall that_wall true walls with
      | (Raise e, walls') => (Raise e, walls')
      | (Ok r, walls') =>
          resolution_round rest
            (if is_False r then pairs_to_retry ++ [(this_wall, that_wall)]
             else pairs_to_retry)
            walls'
      end
  end.

(* The loop after the while: clean_overlaps_only=False on every pair. *)
Fixpoint forced_resolution (pairs_to_retry : list (nat * nat))
    (walls : list Wall) : result unit * list Wall :=
  match pairs_to_retry with
  | [] => (Ok tt, walls)
  | (this_wall, that_wall) :: rest =>
      match remove_overlaps this_wall that_wall false walls with
      | (Raise e, walls') => (Raise e, walls')
      | (Ok _, walls') => forced_resolution rest walls'
      end
  end.

(* while True: one unit of fuel for each round; None when it runs out. *)
Fixpoint resolution_loop (fuel : nat) (pairs : list (nat * nat))
    (walls : list Wall) : option (result unit * list Wall) :=
  match fuel with
  | 0 => None
  | S fuel' =>
      match resolution_round pairs [] walls with
      | (Raise e, walls') => Some (Raise e, walls')
      | (Ok pairs_to_retry, walls') =>
          if length pairs_to_retry =? 0 then Some (Ok tt, walls')
          else if length pairs_to_retry =? length pairs
          then Some (forced_resolution pairs_to_retry walls')
          else resolution_loop fuel' pairs_to_retry walls'
      end
  end.

(* itertools.combinations(range(n), 2), from index [start] *)
Fixpoint combinations_from (start n : nat) : list (nat * nat) :=
  match n with
  | 0 => []
  | S n' => map (fun j => (start, j)) (seq (S start) n')
            ++ combinations_from (S start) n'
  end.

Definition wall_pairs (walls : list Wall) : list (nat * nat) :=
  combinations_from 0 (length walls).

(* Floor.remove_wall_overlaps *)
Definition remove_wall_overlaps (fuel : nat) (walls : list Wall)
  : option (result unit * list Wall) :=
  resolution_loop fuel (wall_pairs walls) walls.

End OverlapResolution.

(* --------------------------------------------------------------------- *)
(* Adjacency                                                              *)
(* --------------------------------------------------------------------- *)

(* The objects that own and key adjacency tables: an object of a Floor is
   its class and its index in the Floor's list of that class. *)
Inductive Entity : Type :=
| ERoom (index : nat)
| EWall (index : nat)
| ERailing (index : nat).

#[global] Instance Entity_eq_dec : EqDecision Entity.
Proof. solve_decision. Defined.

Definition Entity_encode (e : Entity) : nat + (nat + nat) :=
  match e with
  | ERoom i => inl i
  | EWall i => inr (inl i)
  | ERailing i => inr (inr i)
  end.

Definition Entity_decode (x : nat + (nat + nat)) : Entity :=
  match x with
  | inl i => ERoom i
  | inr (inl i) => EWall i
  | inr (inr i) => ERailing i
  end.

#[global] Instance Entity_countable : Countable Entity.
Proof.
  refine (inj_countable' Entity_encode Entity_decode _).
  intros []; reflexivity.
Defined.

(* An adjacency fact: the shared boundary, or None for "close". *)
Definition Fact : Type := option Geometry.

Inductive OpeningKind : Type := Door | Window.

(* A wall opening is named by its wall and its index in wall.openings. *)
Definition Opening : Type := (nat * nat)%type.

(* The floor as the adjacency pass finds it.  The polygons are the values
   of the polygon properties, which the pass reads and never assigns. *)
Record FloorPlan : Type := mkFloorPlan {
  n_rooms : nat;
  n_walls : nat;
  n_railings : nat;
  wall_openings : nat -> list OpeningKind;
  polygon_of : Entity -> Geometry;
  opening_polygon : Opening -> Geometry
}.

(* What the adjacency pass writes. *)
Record AdjState : Type := mkAdjState {
  adjacencies : gmap Entity (gmap Entity (list Fact));
  opening_rooms : gmap Opening (list nat);     (* opening.rooms *)
  room_doors : gmap nat (gset Opening);        (* room.doors *)
  room_windows : gmap nat (gset Opening)       (* room.windows *)
}.

Definition initial_AdjState : AdjState := mkAdjState ∅ ∅ ∅ ∅.

(* AdjacencyList.add *)
Definition AdjacencyList_add (al : gmap Entity (list Fact)) (object : Entity)
    (info : Fact) : gmap Entity (list Fact) :=
  <[object := (al !!! object) ++ [info]]> al.

(* self.adjacencies *)
Definition table (s : AdjState) (self : Entity) : gmap Entity (list Fact) :=
  adjacencies s !!! self.

Section Adjacency.
Context `{Shapely}.
Variable fp : FloorPlan.

(* PlanObject.add_adjacency *)
Definition PlanObject_add_adjacency (self object : Entity) (info : Fact)
    (s : AdjState) : AdjState :=
  mkAdjState
    (<[self := AdjacencyList_add (table s self) object info]> (adjacencies s))
    (opening_rooms s) (room_doors s) (room_windows s).

(* Door.add_adjacency and Window.add_adjacency *)
Definition Opening_add_adjacency (kind : OpeningKind) (o : Opening) (room : nat)
    (s : AdjState) : AdjState :=
  let rooms := <[o := (opening_rooms s !!! o) ++ [room]]> (opening_rooms s) in
  match kind with
  | Door =>
      mkAdjState (adjacencies s) rooms
        (<[room := (room_doors s !!! room) ∪ {[o]}]> (room_doors s))
        (room_windows s)
  | Window =>
      mkAdjState (adjacencies s) rooms (room_doors s)
        (<[room := (room_windows s !!! room) ∪ {[o]}]> (room_windows s))
  end.

(* WallOpening.check_adjacencies *)
Definition check_adjacencies (kind : OpeningKind) (o : Opening) (room : nat)
    (s : AdjState) : AdjState :=
  if Qltb (distance (opening_polygon fp o) (polygon_of fp (ERoom room)))
          CLOSE_EDGE_TOLERANCE
  then Opening_add_adjacency kind o room s
  else s.

(* for opening in self.openings: opening.check_adjacencies(object),
   from the opening of index k on *)
Fixpoint check_openings (wall k : nat) (kinds : list OpeningKind) (room : nat)
    (s : AdjState) : AdjState :=
  match kinds with
  | [] => s
  | kind :: rest =>
      check_openings wall (S k) rest room (check_adjacencies kind (wall, k) room s)
  end.

(* obj.add_adjacency(object, info), dispatched on the class of obj:
   Wall overrides the method of PlanObject *)
Definition add_adjacency (self object : Entity) (info : Fact) (s : AdjState)
  : AdjState :=
  let s := PlanObject_add_adjacency self object info s in
  match self, object with
  | EWall w, ERoom r => check_openings w 0 (wall_openings fp w) r s
  | _, _ => s
  end.

(* PlanObject.find_adjacencies: the state reached, and the exception if
   the loop was left by one *)
Fixpoint find_adjacencies (self : Entity) (other_objects : list Entity)
    (s : AdjState) : option Exc * AdjState :=
  match other_objects with
  | [] => (None, s)
  | other :: rest =>
      let both info := add_adjacency other self info (add_adjacency self other info s) in
      let inter := intersection (polygon_of fp self) (polygon_of fp other) in
      match inter with
      | GLineString _ | GMultiLineString _ =>
          find_adjacencies self rest (both (Some inter))
      | _ =>
          match _is_close (polygon_of fp self) (polygon_of fp other) with
          | Raise e => (Some e, s)
          | Ok true => find_adjacencies self rest (both None)
          | Ok false => find_adjacencies self rest s
          end
      end
  end.

Definition walls_of : list Entity := map EWall (seq 0 (n_walls fp)).
Definition railings_of : list Entity := map ERailing (seq 0 (n_railings fp)).
(* self.rooms[room_index+1:] *)
Definition rooms_after (room_index : nat) : list Entity :=
  map ERoom (seq (S room_index) (n_rooms fp - S room_index)).

(* The body of the for loop of Floor.find_adjacencies. *)
Definition room_adjacencies (room_index : nat) (s : AdjState)
  : option Exc * AdjState :=
  match find_adjacencies (ERoom room_index) walls_of s with
  | (Some e, s1) => (Some e, s1)
  | (None, s1) =>
      match find_adjacencies (ERoom room_index) railings_of s1 with
      | (Some e, s2) => (Some e, s2)
      | (None, s2) => find_adjacencies (ERoom room_index) (rooms_after room_index) s2
      end
  end.

Fixpoint rooms_loop (room_indexes : list nat) (s : AdjState)
  : option Exc * AdjState :=
  match room_indexes with
  | [] => (None, s)
  | room_index :: rest =>
      match room_adjacencies room_index s with
      | (Some e, s') => (Some e, s')
      | (None, s') => rooms_loop rest s'
      end
  end.

(* Floor.find_adjacencies, after remove_wall_overlaps *)
Definition Floor_find_adjacencies (s : AdjState) : option Exc * AdjState :=
  rooms_loop (seq 0 (n_rooms fp)) s.

End Adjacency.

(* --------------------------------------------------------------------- *)
(* Fixture containment                                                    *)
(* --------------------------------------------------------------------- *)

(* "2********" *)
Definition fixture_pattern : list PatChar :=
  [P2; PStar; PStar; PStar; PStar; PStar; PStar; PStar; PStar].

(* fixture.rooms and room.fixtures, for the fixtures and rooms of a floor *)
Record FixtureState : Type := mkFixtureState {
  fixture_rooms : gmap nat (gset nat);
  room_fixtures : gmap nat (gset nat)
}.

Section FixtureContainment.
Context `{Shapely}.
Variable fixture_polygon : nat -> Geometry.
Variable room_polygon : nat -> Geometry.

(* Fixture.add_room *)
Definition add_room (fixture room : nat) (s : FixtureState) : FixtureState :=
  mkFixtureState
    (<[fixture := (fixture_rooms s !!! fixture) ∪ {[room]}]> (fixture_rooms s))
    (<[room := (room_fixtures s !!! room) ∪ {[fixture]}]> (room_fixtures s)).

(* The test of Fixture.find_rooms. *)
Definition fixture_in_room (fixture room : nat) : bool :=
  relate_pattern (fixture_polygon fixture) (room_polygon room) fixture_pattern.

(* Fixture.find_rooms: the loop ends at the first room that passes. *)
Fixpoint find_rooms (fixture : nat) (rooms : list nat) (s : FixtureState)
  : FixtureState :=
  match rooms with
  | [] => s
  | room :: rest =>
      if fixture_in_room fixture room then add_room fixture room s
      else find_rooms fixture rest s
  end.

(* Floor.find_inside *)
Definition find_inside (fixtures rooms : list nat) (s : FixtureState)
  : FixtureState :=
  foldl (fun s fixture => find_rooms fixture rooms s) s fixtures.

End FixtureContainment.

(* The test the specification describes: the first two entries of the
   relation matrix, interior/interior and interior/boundary, both report an
   intersection. *)
Definition first_two_positions_intersect (m : list Dim) : bool :=
  match m with
  | ii :: ib :: _ => char_matches ii PT && char_matches ib PT
  | _ => false
  end.

(* --------------------------------------------------------------------- *)
(* Divider.eligible_edges                                                 *)
(* --------------------------------------------------------------------- *)

(* The value of an attribute expression: a list, or a bound method that
   would return one when called. *)
Inductive PyValue : Type :=
| PyList (l : list LineString)
| PyBoundMethod (call : result (list LineString)).

(* len(v) *)
Definition py_len (v : PyValue) : result nat :=
  match v with
  | PyList l => Ok (length l)
  | PyBoundMethod _ => Raise TypeError
  end.

(* v[i] *)
Definition py_getitem (v : PyValue) (i : nat) : result LineString :=
  match v with
  | PyList l =>
      match l !! i with
      | Some x => Ok x
      | None => Raise IndexError
      end
  | PyBoundMethod _ => Raise TypeError
  end.

Section Divider.
Context `{Shapely}.

(* self.edges: PlanObject.edges is declared with def and no @property,
   so the expression is the bound method *)
Definition self_edges (polygon : Geometry) : PyValue :=
  PyBoundMethod (edges polygon).

(* Divider.eligible_edges, for a divider whose polygon property is
   [polygon] *)
Definition eligible_edges (polygon : Geometry) : result (list LineString) :=
  match py_len (self_edges polygon) with
  | Raise e => Raise e
  | Ok n =>
      if n =? 4 then
        match py_getitem (self_edges polygon) 0 with
        | Raise e => Raise e
        | Ok e0 =>
            match py_getitem (self_edges polygon) 2 with
            | Raise e => Raise e
            | Ok e2 => Ok [e0; e2]
            end
        end
      else Ok []
  end.

(* What the docstring of eligible_edges describes: the edges at 0 and 2
   of a list of four edges, no edge otherwise. *)
Definition eligible_edges_documented (polygon : Geometry)
  : result (list LineString) :=
  match edges polygon with
  | Raise e => Raise e
  | Ok [e0; e1; e2; e3] => Ok [e0; e2]
  | Ok _ => Ok []
  end.

End Divider.

(* --------------------------------------------------------------------- *)
(* Predicates the statements use                                          *)
(* --------------------------------------------------------------------- *)


(* The four (edge, end point of the other edge) checks of two edges. *)
Definition endpoint_checks (line1 line2 : LineString) : list (LineString * Coord) :=
  map (fun p => (line1, p)) (boundary line2)
  ++ map (fun p => (line2, p)) (boundary line1).

(* How many of them fall below the tolerance. *)
Definition qualifying_checks `{Shapely} (tolerance : Q) (line1 line2 : LineString)
  : nat :=
  length (List.filter (point_near tolerance) (endpoint_checks line1 line2)).

(* --------------------------------------------------------------------- *)
(* Concrete library answers for the examples                              *)
(* --------------------------------------------------------------------- *)

(* A Shapely whose answers are given by the functions of an example; the
   operations an example does not reach answer with an empty geometry. *)
Definition example_shapely
    (valid : Polygon -> bool)
    (pieces : list LineString -> list Polygon)
    (dist : Geometry -> Geometry -> Q)
    (matrix : Geometry -> Geometry -> list Dim)
    (inter diff : Geometry -> Geometry -> Geometry) : Shapely :=
  {| is_valid := valid;
     area := fun _ => 0%Q;
     line_length := fun _ => 1%Q;
     split := fun _ _ => None;
     intersection := inter;
     difference := diff;
     equals := fun _ _ => false;
     polygonize := pieces;
     distance := dist;
     relate := matrix;
     minimum_rotated_rectangle := fun p => p |}.

Definition no_geometry (_ _ : Geometry) : Geometry := GGeometryCollection [].

(* Three points on one line, (0,0), (1,1), (2,2): the ring is not valid,
   and its edges, all on that line, enclose no polygon. *)
Definition collinear_points : list Coord :=
  [(0%Q, 0%Q); (1%Q, 1%Q); (2%Q, 2%Q)].

Definition collinear_shapely : Shapely :=
  example_shapely (fun _ => false) (fun _ => []) (fun _ _ => 0%Q)
    (fun _ _ => []) no_geometry no_geometry.

(* A triangle, (0,0), (4,0), (0,3), which is valid. *)
Definition triangle_points : list Coord :=
  [(0%Q, 0%Q); (4%Q, 0%Q); (0%Q, 3%Q)].

Definition triangle_shapely : Shapely :=
  example_shapely (fun _ => true) (fun _ => []) (fun _ _ => 0%Q)
    (fun _ _ => []) no_geometry no_geometry.


Definition parallel_shapely : Shapely :=
  example_shapely (fun _ => true) (fun _ => []) (fun _ _ => 1#2)
    (fun _ _ => []) no_geometry no_geometry.

(* Walls drawn as rectangles with sides along the axes. *)
Definition rect (x0 y0 x1 y1 : Q) : list Coord :=
  [(x0, y0); (x1, y0); (x1, y1); (x0, y1)].

Definition same_polygon (g : Geometry) (p : Polygon) : bool :=
  match g with
  | GPolygon q => coords_eqb (exterior q) (exterior p)
  | _ => false
  end.

(* The distance of two points on a common horizontal or vertical line. *)
Definition axis_distance (g1 g2 : Geometry) : Q :=
  match g1, g2 with
  | GPoint (Some a), GPoint (Some b) =>
      (Qabs (fst a - fst b) + Qabs (snd a - snd b))%Q
  | _, _ => 0%Q
  end.

(* Three walls, each 2 wide.  The post (wall 0) stands at x in [8,10]; the
   beam (wall 2) lies at y in [0,2] from x = 0 to x = 10, so that its end
   fills the post from face to face; the bar (wall 1) stands at x in [3,5]
   and crosses the beam.  Post and bar are apart. *)
Definition post_points : list Coord := rect 8 (-5) 10 5.
Definition bar_points : list Coord := rect 3 (-5) 5 5.
Definition beam_points : list Coord := rect 0 0 10 2.

Definition post : Polygon := Polygon_ post_points.
Definition bar : Polygon := Polygon_ bar_points.
Definition beam : Polygon := Polygon_ beam_points.
(* the beam less the post *)
Definition beam_trimmed : Polygon := Polygon_ (rect 0 0 8 2).

Definition disjoint_matrix : list Dim := [DF; DF; D2; DF; DF; D1; D2; D1; D2].
(* the end of the beam inside the post: the boundaries share a segment *)
Definition end_overlap_matrix : list Dim := [D2; D1; D2; D1; D1; D1; D2; D1; D2].
(* two bars crossing: the boundaries meet in four points *)
Definition crossing_matrix : list Dim := [D2; D1; D2; D1; D0; D1; D2; D1; D2].

Definition walls_relate (g1 g2 : Geometry) : list Dim :=
  if (same_polygon g1 post && same_polygon g2 beam)
     || (same_polygon g1 beam && same_polygon g2 post)
  then end_overlap_matrix
  else if (same_polygon g1 bar && (same_polygon g2 beam || same_polygon g2 beam_trimmed))
          || ((same_polygon g1 beam || same_polygon g1 beam_trimmed) && same_polygon g2 bar)
  then crossing_matrix
  else disjoint_matrix.

Definition walls_difference (g1 g2 : Geometry) : Geometry :=
  if same_polygon g1 post && same_polygon g2 beam
  then GMultiPolygon [Polygon_ (rect 8 (-5) 10 0); Polygon_ (rect 8 2 10 5)]
  else if same_polygon g1 beam && same_polygon g2 post
  then GPolygon beam_trimmed
  else if same_polygon g1 bar && (same_polygon g2 beam || same_polygon g2 beam_trimmed)
  then GMultiPolygon [Polygon_ (rect 3 (-5) 5 0); Polygon_ (rect 3 2 5 5)]
  else if same_polygon g1 beam_trimmed && same_polygon g2 bar
  then GMultiPolygon [Polygon_ (rect 0 0 3 2); Polygon_ (rect 5 0 8 2)]
  else if same_polygon g1 beam && same_polygon g2 bar
  then GMultiPolygon [Polygon_ (rect 0 0 3 2); Polygon_ (rect 5 0 10 2)]
  else g1.

Definition walls_shapely : Shapely :=
  example_shapely (fun _ => true) (fun _ => []) axis_distance
    walls_relate no_geometry walls_difference.

(* self.walls of the three, and of the beam and the post alone *)
Definition three_walls : list Wall :=
  [new_Wall post_points; new_Wall bar_points; new_Wall beam_points].
Definition beam_and_post : list Wall :=
  [new_Wall beam_points; new_Wall post_points].
Definition bar_and_beam : list Wall :=
  [new_Wall bar_points; new_Wall beam_points].

(* The polygon a read of walls[i].polygon returns. *)
Definition polygon_read `{Shapely} (walls : list Wall) (i : nat) : Geometry :=
  fst (Wall_polygon (walls !!! i)).

(* The cache, once filled, holds what polygon_from_points returned. *)
Definition cache_sound `{Shapely} (o : PlanObject) : Prop :=
  forall g, cached_polygon o = Some g -> g = polygon_from_points (element_points o).

(* The facts self's table holds for object: self.adjacencies.get(object). *)
Definition facts (s : AdjState) (self object : Entity) : option (list Fact) :=
  table s self !! object.

(* Every table entry has its mirror image, with the same list of facts. *)
Definition symmetric (s : AdjState) : Prop :=
  forall a b : Entity, facts s a b = facts s b a.

(* A fixture, the square (2,2)-(3,3), well inside a room, the square
   (0,0)-(10,10): the interiors meet in an area, the interior of the
   fixture does not reach the boundary of the room. *)
Definition within_matrix : list Dim := [D2; DF; DF; D1; DF; DF; D2; D1; D2].

Definition inside_shapely : Shapely :=
  example_shapely (fun _ => true) (fun _ => []) (fun _ _ => 0%Q)
    (fun _ _ => within_matrix) no_geometry no_geometry.

Definition small_fixture (_ : nat) : Geometry := GPolygon (Polygon_ (rect 2 2 3 3)).
Definition large_room (_ : nat) : Geometry := GPolygon (Polygon_ (rect 0 0 10 10)).

Definition no_assignment : FixtureState := mkFixtureState ∅ ∅.

(* The test of WallOpening.check_adjacencies. *)
Definition near `{Shapely} (fp : FloorPlan) (o : Opening) (room : nat) : bool :=
  Qltb (distance (opening_polygon fp o) (polygon_of fp (ERoom room)))
       CLOSE_EDGE_TOLERANCE.

(* Whether find_adjacencies records a fact for self and other: their
   intersection is a line or several, or else they are close. *)
Definition records_fact `{Shapely} (fp : FloorPlan) (self other : Entity) : bool :=
  match intersection (polygon_of fp self) (polygon_of fp other) with
  | GLineString _ | GMultiLineString _ => true
  | _ =>
      match _is_close (polygon_of fp self) (polygon_of fp other) with
      | Ok true => true
      | _ => false
      end
  end.

(* The rooms an opening of wall [fst o] is given when the pass visits
   [room]: [room] itself if the wall gains the room and the opening is
   near it. *)
Definition gained `{Shapely} (fp : FloorPlan) (o : Opening) (room : nat) : bool :=
  bool_decide (fst o < n_walls fp)
  && bool_decide (snd o < length (wall_openings fp (fst o)))
  && records_fact fp (ERoom room) (EWall (fst o))
  && near fp o room.

(* The opening lies within the tolerance of the rooms r1 and r2 of the
   floor and of no other. *)
Definition near_exactly_two `{Shapely} (fp : FloorPlan) (o : Opening) (r1 r2 : nat)
  : Prop :=
  r1 < r2 /\ r2 < n_rooms fp
  /\ forall r, r < n_rooms fp -> (near fp o r = true <-> r = r1 \/ r = r2).

(* door.rooms has length 2 and both rooms hold the door. *)
Definition door_linked (s : AdjState) (o : Opening) (r1 r2 : nat) : Prop :=
  length (opening_rooms s !!! o) = 2
  /\ o ∈ room_doors s !!! r1 /\ o ∈ room_doors s !!! r2.

(* Every room of a door's list holds the door in its set. *)
Definition doors_reciprocal (fp : FloorPlan) (s : AdjState) : Prop :=
  forall (o : Opening) (r : nat),
    wall_openings fp (fst o) !! snd o = Some Door ->
    r ∈ opening_rooms s !!! o -> o ∈ room_doors s !!! r.

(* What the visit of [other] by room [room] appends to the rooms of the
   opening [o]. *)
Definition visit_gain `{Shapely} (fp : FloorPlan) (o : Opening) (room : nat)
    (other : Entity) : list nat :=
  match other with
  | EWall w =>
      if bool_decide (fst o = w /\ snd o < length (wall_openings fp w))
         && records_fact fp (ERoom room) other && near fp o room
      then [room] else []
  | _ => []
  end.

(* Two rooms, the squares (0,0)-(10,10) and (11,0)-(21,10), and a door,
   the rectangle (10,4)-(11,6), that touches both. *)
Definition west_room : Polygon := Polygon_ (rect 0 0 10 10).
Definition east_room : Polygon := Polygon_ (rect 11 0 21 10).
Definition door_polygon : Polygon := Polygon_ (rect 10 4 11 6).

(* The wall that fills the gap between the two rooms, and a wall drawn
   far from both. *)
Definition middle_wall : Polygon := Polygon_ (rect 10 0 11 10).
Definition far_wall : Polygon := Polygon_ (rect 100 100 110 101).

Definition two_rooms_one_wall (wall : Polygon) : FloorPlan :=
  {| n_rooms := 2;
     n_walls := 1;
     n_railings := 0;
     wall_openings := fun w => if w =? 0 then [Door] else [];
     polygon_of := fun e =>
       match e with
       | ERoom 0 => GPolygon west_room
       | ERoom _ => GPolygon east_room
       | _ => GPolygon wall
       end;
     opening_polygon := fun _ => GPolygon door_polygon |}.

(* The door in the wall between the rooms *)
Definition hall_floor : FloorPlan := two_rooms_one_wall middle_wall.
(* The same door as the child of the far wall *)
Definition detached_floor : FloorPlan := two_rooms_one_wall far_wall.

(* Each room shares a face with the middle wall and nothing else meets in
   a line. *)
Definition rooms_intersection (g1 g2 : Geometry) : Geometry :=
  if same_polygon g1 west_room && same_polygon g2 middle_wall
  then GLineString [(10%Q, 0%Q); (10%Q, 10%Q)]
  else if same_polygon g1 east_room && same_polygon g2 middle_wall
  then GLineString [(11%Q, 0%Q); (11%Q, 10%Q)]
  else GGeometryCollection [].

(* The door touches both rooms; the far wall is more than 100 away from
   the rooms; the rooms are 1 apart, and so is any corner of one from any
   edge of the other, or more (1, the least, stands for all of these). *)
Definition rooms_distance (g1 g2 : Geometry) : Q :=
  if same_polygon g1 door_polygon then 0%Q
  else if same_polygon g1 far_wall || same_polygon g2 far_wall then 126%Q
  else 1%Q.

Definition rooms_shapely : Shapely :=
  example_shapely (fun _ => true) (fun _ => []) rooms_distance
    (fun _ _ => disjoint_matrix) rooms_intersection no_geometry.

(* A room, the square (0,0)-(10,10), and a wall drawn as the triangle
   (10,0), (12,5), (10,10), whose long side is the right side of the room. *)
Definition wedge_wall : Polygon := Polygon_ [(10%Q, 0%Q); (12%Q, 5%Q); (10%Q, 10%Q)].

Definition wedge_floor : FloorPlan :=
  {| n_rooms := 1;
     n_walls := 1;
     n_railings := 0;
     wall_openings := fun _ => [];
     polygon_of := fun e =>
       match e with
       | ERoom _ => GPolygon west_room
       | _ => GPolygon wedge_wall
       end;
     opening_polygon := fun _ => GPoint None |}.

Definition wedge_shapely : Shapely :=
  example_shapely (fun _ => true) (fun _ => []) (fun _ _ => 0%Q)
    (fun _ _ => disjoint_matrix)
    (fun _ _ => GLineString [(10%Q, 0%Q); (10%Q, 10%Q)]) no_geometry.

(* --------------------------------------------------------------------- *)
(* Further predicates                                                     *)
(* --------------------------------------------------------------------- *)

(* No geometry of the list equals() one that stands before it. *)
Definition distinct_from_earlier `{Shapely} (l : list LineString) : Prop :=
  forall (i j : nat) (x y : LineString),
    i < j -> l !! i = Some x -> l !! j = Some y ->
    equals (GLineString y) (GLineString x) = false.

(* --------------------------------------------------------------------- *)
(* PlanObject.num_edges                                                   *)
(* --------------------------------------------------------------------- *)

(* len(self.polygon.exterior.coords) - 1, a Python int *)
Definition num_edges (polygon : Geometry) : result Z :=
  match polygon with
  | GPolygon p => Ok (Z.of_nat (length (exterior p)) - 1)%Z
  | _ => Raise AttributeError
  end.

(* --------------------------------------------------------------------- *)
(* More library answers                                                   *)
(* --------------------------------------------------------------------- *)

(* A wall, the rectangle (0,0)-(10.5,2), less a wall that cuts it from
   x = 10 to x = 10.25: what is left is the piece (0,0)-(10,2) and the
   sliver (10.25,0)-(10.5,2), a quarter wide. *)
Definition long_piece : Polygon := Polygon_ (rect 0 0 10 2).
Definition sliver_piece : Polygon := Polygon_ (rect (41#4) 0 (21#2) 2).

Definition sliver_shapely : Shapely :=
  example_shapely (fun _ => true) (fun _ => []) axis_distance
    (fun _ _ => crossing_matrix) no_geometry
    (fun _ _ => GMultiPolygon [long_piece; sliver_piece]).

(* A wall made from [pts] whose base polygon was computed at most once:
   it still has its points, its cache holds what polygon_from_points
   returns on them, and the computation ran once if the cache is filled
   and never otherwise. *)
Definition wall_cached_once `{Shapely} (pts : list Coord) (w : Wall) : Prop :=
  element_points (wall_object w) = pts
  /\ cache_sound (wall_object w)
  /\ computations (wall_object w)
     = match cached_polygon (wall_object w) with Some _ => 1 | None => 0 end.

Definition walls_cached_once `{Shapely} (points : list (list Coord))
    (walls : list Wall) : Prop :=
  length walls = length points
  /\ forall k pts, points !! k = Some pts -> wall_cached_once pts (walls !!! k).

(* --------------------------------------------------------------------- *)
(* The pairs the adjacency pass visits                                    *)
(* --------------------------------------------------------------------- *)

(* The objects room [i] is compared with: every wall, every railing, and
   the rooms after it. *)
Definition compared_with (i : nat) (x : Entity) : Prop :=
  match x with
  | ERoom j => i < j
  | _ => True
  end.

(* The pair (a, b), in either order, is a room before room [r] and an
   object that room is compared with. *)
Definition visited_before (r : nat) (a b : Entity) : Prop :=
  exists i, i < r
    /\ ((a = ERoom i /\ compared_with i b) \/ (b = ERoom i /\ compared_with i a)).

(* Every table entry holds at most one fact, and only pairs of [visited]
   have entries. *)
Definition facts_within (visited : Entity -> Entity -> Prop) (s : AdjState) : Prop :=
  forall a b : Entity,
    length (default [] (facts s a b)) <= 1
    /\ (default [] (facts s a b) <> [] -> visited a b).

(* No table holds an entry with an empty list of facts. *)
Definition no_empty_entry (s : AdjState) : Prop :=
  forall a b : Entity, facts s a b <> Some [].

(* The pairs visited when room [r] has been compared with [compared]. *)
Definition visiting (r : nat) (compared : list Entity) (a b : Entity) : Prop :=
  visited_before r a b
  \/ (a = ERoom r /\ b ∈ compared) \/ (b = ERoom r /\ a ∈ compared).

(* --------------------------------------------------------------------- *)
(* Room.connected_rooms                                                   *)
(* --------------------------------------------------------------------- *)

(* for door in self.doors: if len(door.rooms) == 2: the other room.  A set
   is iterated in no fixed order; [elements] gives one. *)
Definition connected_rooms (s : AdjState) (self : nat) : list nat :=
  omap (fun door : Opening =>
          match opening_rooms s !!! door with
          | [r0; r1] => Some (if decide (r0 = self) then r1 else r0)
          | _ => None
          end)
       (elements (room_doors s !!! self)).

(* Every door of a room's set is a Door and lists the room. *)
Definition doors_listed (fp : FloorPlan) (s : AdjState) : Prop :=
  forall (o : Opening) (r : nat),
    o ∈ room_doors s !!! r ->
    wall_openings fp (fst o) !! snd o = Some Door /\ r ∈ opening_rooms s !!! o.

(* --------------------------------------------------------------------- *)
(* Floor.find_inside                                                      *)
(* --------------------------------------------------------------------- *)

(* The first room of the list that passes the test of find_rooms. *)
Definition first_room `{Shapely} (fixture_polygon room_polygon : nat -> Geometry)
    (fixture : nat) (rooms : list nat) : option nat :=
  List.find (fixture_in_room fixture_polygon room_polygon fixture) rooms.

(* The fixtures of [done] are linked, both ways, with their first room, and
   nothing else is. *)
Definition assigned `{Shapely} (fixture_polygon room_polygon : nat -> Geometry)
    (rooms done : list nat) (s : FixtureState) : Prop :=
  forall fixture room : nat,
    (room ∈ fixture_rooms s !!! fixture
     <-> fixture ∈ done
         /\ first_room fixture_polygon room_polygon fixture rooms = Some room)
    /\ (fixture ∈ room_fixtures s !!! room
        <-> fixture ∈ done
            /\ first_room fixture_polygon room_polygon fixture rooms = Some room).

(* --------------------------------------------------------------------- *)
(* Cubicasa.models                                                        *)
(* --------------------------------------------------------------------- *)

Section Models.
Context {Path Model : Type}.
Variable get_model : Path -> Model.

(* The for loop of the generator over what self.paths() yields, with its
   two counters; the list holds the models it yields, in order. *)
Fixpoint models_loop (paths : list Path) (limit : option Z) (offset : Z)
    (limit_count offset_count : Z) : list Model :=
  match paths with
  | [] => []
  | path :: rest =>
      if (offset_count <? offset)%Z
      then models_loop rest limit offset limit_count (offset_count + 1)%Z
      else if match limit with
              | None => true
              | Some l => (limit_count <? l)%Z
              end
      then get_model path
           :: models_loop rest limit offset (limit_count + 1)%Z offset_count
      else []
  end.

(* models(self, limit=None, offset=0) *)
Definition models (paths : list Path) (limit : option Z) (offset : Z) : list Model :=
  models_loop paths limit offset 0%Z 0%Z.

(* The first so many of a list, all of it for None. *)
Definition take_limit {A : Type} (limit : option Z) (l : list A) : list A :=
  match limit with
  | None => l
  | Some n => take (Z.to_nat n) l
  end.

End Models.

(* --------------------------------------------------------------------- *)
(* Class labels: room and fixture types                                   *)
(* --------------------------------------------------------------------- *)

Definition ROOM_TYPES : list string :=
  ["Alcove"; "Attic"; "Basement"; "Bath"; "Bedroom"; "CarPort"; "Closet";
   "Den"; "Dining"; "DraughtLobby"; "DressingRoom"; "Elevated"; "Entry";
   "Garage"; "Hall"; "Kitchen"; "Library"; "LivingRoom"; "Office"; "Other";
   "Outdoor"; "RecreationRoom"; "Room"; "Sauna"; "Storage"; "TechnicalRoom";
   "Undefined"; "UserDefined"; "Utility"]%string.

Definition FIXTURE_TYPES : list string :=
  ["BaseCabinet"; "Bathtub"; "Chimney"; "Closet"; "CoatCloset"; "CoatRack";
   "CounterTop"; "Dishwasher"; "ElectricalAppliance"; "Fan"; "Fireplace";
   "GEA"; "Heater"; "Housing"; "Jacuzzi"; "PlaceForFireplace";
   "Refrigerator"; "SaunaBench"; "SaunaStove"; "Shower"; "ShowerCab";
   "ShowerPlatform"; "ShowerScreen"; "Sink"; "SpaceForAppliance"; "Stove";
   "Toilet"; "TumbleDryer"; "Urinal"; "WallCabinet"; "WashingMachine";
   "WaterTap"]%string.

(* The alternatives of "^(Corner|Double|Integrated|Gas|Wood|High|Round|Side)" *)
Definition fixture_type_prefixes : list string :=
  ["Corner"; "Double"; "Integrated"; "Gas"; "Wood"; "High"; "Round"; "Side"]%string.

(* The strings "(Corner|High|Left|Low|Mid|Right|Round(Left|Right)?|Small|
   Triangle|2)$" matches up to the end: Round(Left|Right)? stands for
   three of them. *)
Definition fixture_type_suffixes : list string :=
  ["Corner"; "High"; "Left"; "Low"; "Mid"; "Right"; "RoundLeft"; "RoundRight";
   "Round"; "Small"; "Triangle"; "2"]%string.

(* x in list, for strings *)
Definition py_in (x : string) (l : list string) : bool :=
  existsb (String.eqb x) l.

(* [t] less the prefix [p], when it starts with it *)
Fixpoint strip_prefix (p t : string) : option string :=
  match p, t with
  | EmptyString, _ => Some t
  | String a p', String b t' =>
      if Ascii.eqb a b then strip_prefix p' t' else None
  | String _ _, EmptyString => None
  end.

(* re.sub of a pattern "^(a1|a2|...)" by "": the first alternative, in
   their order, that the string starts with is cut off *)
Fixpoint sub_prefix (alternatives : list string) (t : string) : string :=
  match alternatives with
  | [] => t
  | a :: rest =>
      match strip_prefix a t with
      | Some t' => t'
      | None => sub_prefix rest t
      end
  end.

(* re.sub of a pattern "(a1|a2|...)$" by "", on a string without a line
   break: the search takes the leftmost position from which one of the
   alternatives reaches the end, and the string is cut there *)
Fixpoint sub_suffix (alternatives : list string) (t : string) : string :=
  if py_in t alternatives then EmptyString
  else match t with
       | EmptyString => EmptyString
       | String c t' => String c (sub_suffix alternatives t')
       end.

Definition simplify_fixture_type (classes : list string) : result string :=
  match classes with
  | [] => Raise IndexError                    (* classes[0] *)
  | c0 :: rest =>
      let t := match rest with
               | c1 :: _ => if String.eqb c0 "ElectricalAppliance" then c1 else c0
               | [] => c0
               end in
      let t := sub_prefix fixture_type_prefixes t in
      let t := sub_suffix fixture_type_suffixes t in
      Ok (if py_in t FIXTURE_TYPES then t else "Other"%string)
  end.

(* Room.types and Fixture.types, from get_classes(self.container) *)
Definition types (classes : list string) : list string :=
  if 1 <? length classes then tail classes else [].

(* Room.full_type and Fixture.full_type: " ".join(self.types) *)
Fixpoint join_spaces (l : list string) : string :=
  match l with
  | [] => EmptyString
  | [t] => t
  | t :: rest => (t +:+ " " +:+ join_spaces rest)%string
  end.

Definition full_type (classes : list string) : string :=
  join_spaces (types classes).

(* Room.simple_type *)
Definition Room_simple_type (classes : list string) : result string :=
  match types classes with
  | [] => Raise IndexError                    (* self.types[0] *)
  | t :: _ => Ok (if py_in t ROOM_TYPES then t else "Other"%string)
  end.

(* Room.is_outdoor *)
Definition is_outdoor (classes : list string) : result bool :=
  match types classes with
  | [] => Raise IndexError
  | t :: _ => Ok (String.eqb t "Outdoor")
  end.

(* Fixture.simple_type *)
Definition Fixture_simple_type (classes : list string) : result string :=
  simplify_fixture_type (types classes).

(* --------------------------------------------------------------------- *)
(* get_classes                                                            *)
(* --------------------------------------------------------------------- *)

(* The characters "\s" matches and str.strip() removes, among the code
   points below 256: tab to carriage return, the four separators 28-31,
   the space, NEL and the no-break space. *)
Definition is_whitespace (c : Ascii.ascii) : bool :=
  existsb (Nat.eqb (Ascii.nat_of_ascii c)) [9; 10; 11; 12; 13; 28; 29; 30; 31; 32; 133; 160].

Fixpoint lstrip (s : string) : string :=
  match s with
  | EmptyString => EmptyString
  | String c s' => if is_whitespace c then lstrip s' else s
  end.

Fixpoint rstrip (s : string) : string :=
  match s with
  | EmptyString => EmptyString
  | String c s' =>
      match rstrip s' with
      | EmptyString => if is_whitespace c then EmptyString else String c EmptyString
      | r => String c r
      end
  end.

(* class_str.strip() *)
Definition strip (s : string) : string := rstrip (lstrip s).

(* re.split("\s+", s): [cur] is the piece being read, [after_ws] tells
   that the last character was whitespace; a run of whitespace ends a
   piece, so that whitespace at either end of s gives an empty piece *)
Fixpoint split_whitespace_from (s cur : string) (after_ws : bool) : list string :=
  match s with
  | EmptyString => [cur]
  | String c s' =>
      if is_whitespace c then
        if after_ws then split_whitespace_from s' cur true
        else cur :: split_whitespace_from s' EmptyString true
      else split_whitespace_from s' (cur +:+ String c EmptyString) false
  end.

Definition split_whitespace (s : string) : list string :=
  split_whitespace_from s EmptyString false.

(* get_classes, on element.values.get("class") *)
Definition get_classes (class_attr : option string) : list string :=
  match class_attr with
  | Some class_str => split_whitespace (strip class_str)
  | None => []
  end.

(* The space of " ".join *)
Definition space_char : Ascii.ascii := Ascii.ascii_of_nat 32.

(* No character of the string is whitespace. *)
Fixpoint whitespace_free (s : string) : bool :=
  match s with
  | EmptyString => true
  | String c s' => negb (is_whitespace c) && whitespace_free s'
  end.

(* A class label: not empty and free of whitespace. *)
Definition is_label (s : string) : Prop :=
  s <> EmptyString /\ whitespace_free s = true.

(* --------------------------------------------------------------------- *)
(* Floor.find_objects                                                     *)
(* --------------------------------------------------------------------- *)

(* An element of the parsed document, as far as the module looks at it:
   whether it is a Group, its class attribute if it has one, and the
   elements iterating over it yields, None when it cannot be iterated. *)
#[warnings="-register-all"]
Inductive Element : Type :=
| mkElement (group : bool) (class_attr : option string)
            (items : option (list Element)).

Definition is_Group (e : Element) : bool :=
  match e with mkElement group _ _ => group end.

Definition classes_of (e : Element) : list string :=
  match e with mkElement _ class_attr _ => get_classes class_attr end.

Definition items_of (e : Element) : option (list Element) :=
  match e with mkElement _ _ items => items end.

(* find_children_by_class: the except clause answers [] when the parent
   cannot be iterated *)
Definition find_children_by_class (parent : Element) (class_name : string)
  : list Element :=
  match items_of parent with
  | Some children =>
      List.filter (fun child => py_in class_name (classes_of child)) children
  | None => []
  end.

(* A Room, Railing, Fixture, Door or Window as its constructor leaves it:
   its container and its index. *)
Record Placed : Type := mkPlaced {
  container : Element;
  index : nat
}.

(* A Wall as its constructor leaves it. *)
Record PlacedWall : Type := mkPlacedWall {
  wall_container : Element;
  wall_index : nat;
  openings : list (OpeningKind * Placed)
}.

(* The for loop of Wall.__init__ over the children of the container. *)
Fixpoint Wall_openings (children : list Element) (openings : list (OpeningKind * Placed))
  : result (list (OpeningKind * Placed)) :=
  match children with
  | [] => Ok openings
  | child :: rest =>
      if is_Group child then
        match classes_of child with
        | [] => Raise IndexError            (* get_classes(child)[0] *)
        | object_type :: _ =>
            if String.eqb object_type "Door" then
              Wall_openings rest
                (openings ++ [(Door, mkPlaced child (length openings))])
            else if String.eqb object_type "Window" then
              Wall_openings rest
                (openings ++ [(Window, mkPlaced child (length openings))])
            else Wall_openings rest openings
        end
      else Wall_openings rest openings
  end.

(* Wall(container, index) *)
Definition new_PlacedWall (container : Element) (index : nat) : result PlacedWall :=
  match items_of container with
  | None => Raise TypeError                 (* for child in container *)
  | Some children =>
      match Wall_openings children [] with
      | Raise e => Raise e
      | Ok openings => Ok (mkPlacedWall container index openings)
      end
  end.

(* The four PlanObjectLists of a Floor. *)
Record Floor : Type := mkFloor {
  rooms : list Placed;
  walls : list PlacedWall;
  railings : list Placed;
  fixtures : list Placed
}.

Definition new_Floor : Floor := mkFloor [] [] [] [].

(* PlanObjectList.add: self.append(self.object_class(object, len(self))) *)
Definition PlanObjectList_add (l : list Placed) (object : Element) : list Placed :=
  l ++ [mkPlaced object (length l)].

(* The for loop of find_objects over the children of the plan: the floor
   reached, and the exception if the loop was left by one. *)
Fixpoint find_objects_loop (children : list Element) (floor : Floor)
  : option Exc * Floor :=
  match children with
  | [] => (None, floor)
  | child :: rest =>
      if is_Group child then
        match classes_of child with
        | [] => (Some IndexError, floor)    (* get_classes(child)[0] *)
        | object_type :: _ =>
            if String.eqb object_type "Space" then
              find_objects_loop rest
                (mkFloor (PlanObjectList_add (rooms floor) child) (walls floor)
                   (railings floor) (fixtures floor))
            else if String.eqb object_type "Wall" then
              match new_PlacedWall child (length (walls floor)) with
              | Raise e => (Some e, floor)
              | Ok wall =>
                  find_objects_loop rest
                    (mkFloor (rooms floor) (walls floor ++ [wall])
                       (railings floor) (fixtures floor))
              end
            else if String.eqb object_type "Railing" then
              find_objects_loop rest
                (mkFloor (rooms floor) (walls floor)
                   (PlanObjectList_add (railings floor) child) (fixtures floor))
            else if String.eqb object_type "FixedFurniture" then
              find_objects_loop rest
                (mkFloor (rooms floor) (walls floor) (railings floor)
                   (PlanObjectList_add (fixtures floor) child))
            else if String.eqb object_type "FixedFurnitureSet" then
              match items_of child with
              | None => (Some TypeError, floor)   (* for grandchild in child *)
              | Some grandchildren =>
                  find_objects_loop rest
                    (mkFloor (rooms floor) (walls floor) (railings floor)
                       (foldl PlanObjectList_add (fixtures floor) grandchildren))
              end
            else find_objects_loop rest floor
        end
      else find_objects_loop rest floor
  end.

(* Floor.find_objects on the floor's container *)
Definition find_objects (floor_container : Element) (floor : Floor)
  : option Exc * Floor :=
  match find_children_by_class floor_container "Floorplan" with
  | [] => (Some IndexError, floor)          (* [...][0] *)
  | plan :: _ =>
      match items_of plan with
      | None => (Some TypeError, floor)     (* for child in plan *)
      | Some children => find_objects_loop children floor
      end
  end.

(* Every object of the list has its position as its index. *)
Definition indexed (l : list Placed) : Prop :=
  forall i e, l !! i = Some e -> index e = i.

Definition well_indexed (floor : Floor) : Prop :=
  indexed (rooms floor) /\ indexed (railings floor) /\ indexed (fixtures floor)
  /\ forall i w, walls floor !! i = Some w ->
       wall_index w = i /\ indexed (map snd (openings w)).

(* The Group children of a plan whose first class is [object_type]. *)
Definition groups_of_type (object_type : string) (children : list Element)
  : list Element :=
  List.filter (fun child =>
                 is_Group child
                 && match classes_of child with
                    | c :: _ => String.eqb c object_type
                    | [] => false
                    end) children.

(* The first class of a Group child, None for another element or a Group
   without a class. *)
Definition object_type_of (child : Element) : option string :=
  if is_Group child then head (classes_of child) else None.

(* The elements a child of the plan contributes to the fixtures: itself
   for a FixedFurniture group, its children for a FixedFurnitureSet. *)
Definition fixture_elements (child : Element) : list Element :=
  match object_type_of child with
  | Some object_type =>
      if String.eqb object_type "FixedFurniture" then [child]
      else if String.eqb object_type "FixedFurnitureSet"
      then default [] (items_of child)
      else []
  | None => []
  end.

Definition children_of_type (object_type : string) (children : list Element)
  : list Element :=
  List.filter (fun child =>
                 bool_decide (object_type_of child = Some object_type)) children.

(* A small document: a Floor whose Floorplan holds a room, a wall with a
   door, and a set of two fixtures. *)
Definition shape_element : Element := mkElement false None None.
Definition group (class_str : string) (children : list Element) : Element :=
  mkElement true (Some class_str) (Some children).

Definition sample_floor : Element :=
  group "Floor"
    [group "Floorplan Floor-1"
       [group "Space Kitchen" [shape_element];
        group "Wall External" [shape_element; group "Door Swing" [shape_element]];
        group "FixedFurnitureSet"
          [group "FixedFurniture Sink" [group "BoundaryPolygon" [shape_element]];
           group "FixedFurniture Toilet" [group "BoundaryPolygon" [shape_element]]]]].

(* --------------------------------------------------------------------- *)
(* PlanObject.adjacencies_by_type                                         *)
(* --------------------------------------------------------------------- *)

Inductive EntityClass : Type := CRoom | CWall | CRailing | CDivider | CPlanObject.

(* isinstance(obj, cls): Wall and Railing are Dividers, all are PlanObjects *)
Definition isinstance (obj : Entity) (cls : EntityClass) : bool :=
  match cls, obj with
  | CPlanObject, _ => true
  | CRoom, ERoom _ => true
  | CWall, EWall _ => true
  | CRailing, ERailing _ => true
  | CDivider, EWall _ => true
  | CDivider, ERailing _ => true
  | _, _ => false
  end.

(* list(filter(lambda obj: isinstance(obj, cls), self.adjacencies.keys())).
   The keys come in the order the table enumerates them; a dict gives them
   in the order they were added, which the table does not record. *)
Definition adjacencies_by_type (s : AdjState) (self : Entity) (cls : EntityClass)
  : list Entity :=
  List.filter (fun obj => isinstance obj cls) (map fst (map_to_list (table s self))).

Definition adjacent_walls (s : AdjState) (room : nat) : list Entity :=
  adjacencies_by_type s (ERoom room) CWall.
Definition adjacent_railings (s : AdjState) (room : nat) : list Entity :=
  adjacencies_by_type s (ERoom room) CRailing.
Definition adjacent_rooms (s : AdjState) (room : nat) : list Entity :=
  adjacencies_by_type s (ERoom room) CRoom.

(* --------------------------------------------------------------------- *)
(* AdjacencyList.filter                                                   *)
(* --------------------------------------------------------------------- *)

(* for info_item in info_list: if fn(object, info_item): matches.add(...) *)
Definition filter_entry (fn : Entity -> Fact -> bool) (object : Entity)
    (info_list : list Fact) (matches : gmap Entity (list Fact))
  : gmap Entity (list Fact) :=
  foldl (fun m info_item =>
           if fn object info_item then AdjacencyList_add m object info_item else m)
        matches info_list.

(* for object, info_list in self.items(): ...; the entries are taken in
   the order map_fold walks the table, on which the result does not
   depend *)
Definition AdjacencyList_filter (fn : Entity -> Fact -> bool)
    (al : gmap Entity (list Fact)) : gmap Entity (list Fact) :=
  map_fold (filter_entry fn) ∅ al.

(* What filter leaves of a list of facts: None when nothing passes. *)
Definition kept_facts (fn : Entity -> Fact -> bool) (object : Entity)
    (entry : option (list Fact)) : option (list Fact) :=
  match entry with
  | Some info_list =>
      match List.filter (fn object) info_list with
      | [] => None
      | kept => Some kept
      end
  | None => None
  end.

(* --------------------------------------------------------------------- *)
(* Predicates for _is_close                                               *)
(* --------------------------------------------------------------------- *)

(* An edge whose two ends differ whenever the library gives it a positive
   length, as it does for every segment. *)
Definition regular_edge `{Shapely} (e : LineString) : Prop :=
  Qltb 0 (line_length e) = true -> length (boundary e) = 2.

(* Two edges of positive length with at least two of their four checks
   below the tolerance of _is_close. *)
Definition close_pair `{Shapely} (e1 e2 : LineString) : bool :=
  Qltb 0 (line_length e1) && Qltb 0 (line_length e2)
  && bool_decide (2 <= qualifying_checks CLOSE_EDGE_TOLERANCE e1 e2).

(* --------------------------------------------------------------------- *)
(* Doors, windows and rooms after the adjacency pass                      *)
(* --------------------------------------------------------------------- *)

(* room.doors holds exactly the Door openings, and room.windows exactly
   the Window openings, whose room list holds the room. *)
Definition openings_linked (fp : FloorPlan) (s : AdjState) : Prop :=
  forall (o : Opening) (r : nat),
    (o ∈ room_doors s !!! r
     <-> wall_openings fp (fst o) !! snd o = Some Door
         /\ r ∈ opening_rooms s !!! o)
    /\ (o ∈ room_windows s !!! r
        <-> wall_openings fp (fst o) !! snd o = Some Window
            /\ r ∈ opening_rooms s !!! o).

(* The floor of two rooms and the middle wall, the wall with a door and a
   window. *)
Definition window_floor : FloorPlan :=
  {| n_rooms := 2;
     n_walls := 1;
     n_railings := 0;
     wall_openings := fun w => if w =? 0 then [Door; Window] else [];
     polygon_of := polygon_of hall_floor;
     opening_polygon := opening_polygon hall_floor |}.

(* --------------------------------------------------------------------- *)
(* polygon_from_points, statement by statement                            *)
(* --------------------------------------------------------------------- *)

Section ReconstructionSteps.
Context `{Shapely}.





End ReconstructionSteps.

(* --------------------------------------------------------------------- *)
(* Drawings with computed lengths, distances and areas                    *)
(* --------------------------------------------------------------------- *)

(* The length of a segment along an axis. *)
Definition axis_length (l : LineString) : Q :=
  match l with
  | [a; b] => (Qabs (fst a - fst b) + Qabs (snd a - snd b))%Q
  | _ => 0%Q
  end.



(* The area of a ring by the surveyor's formula, and of a polygon with
   holes. *)
Fixpoint shoelace (cs : list Coord) : Q :=
  match cs with
  | a :: rest =>
      match rest with
      | b :: _ => (fst a * snd b - fst b * snd a + shoelace rest)%Q
      | [] => 0%Q
      end
  | [] => 0%Q
  end.

Definition ring_area (cs : list Coord) : Q := (Qabs (shoelace cs) / 2)%Q.

Definition polygon_area (p : Polygon) : Q :=
  (ring_area (exterior p) - fold_right Qplus 0 (map ring_area (interiors p)))%Q.

Definition lines_eqb (l1 l2 : list LineString) : bool :=
  (length l1 =? length l2)
  && forallb (fun pr => coords_eqb (fst pr) (snd pr)) (combine l1 l2).

(* Two lines with the same coordinates, in either direction; two polygons
   with the same rings. *)
Definition same_geometry (g1 g2 : Geometry) : bool :=
  match g1, g2 with
  | GLineString l1, GLineString l2 => coords_eqb l1 l2 || coords_eqb l1 (rev l2)
  | GPolygon p1, GPolygon p2 =>
      coords_eqb (exterior p1) (exterior p2)
      && lines_eqb (interiors p1) (interiors p2)
  | _, _ => false
  end.








(* A ring that touches itself in (0,0): round the square (0,0)-(10,10)
   and then round the kite (0,0), (3,1), (3,3), (1,3) inside it.  No two
   of its eight edges cross or overlap, they meet in end points only.  The
   edges enclose two polygons: the kite, of area 6, and the square with
   the kite as a hole, of area 94. *)
Definition keyhole_points : list Coord :=
  [(0%Q, 0%Q); (10%Q, 0%Q); (10%Q, 10%Q); (0%Q, 10%Q);
   (0%Q, 0%Q); (3%Q, 1%Q); (3%Q, 3%Q); (1%Q, 3%Q)].

Definition square_ring : list Coord :=
  [(0%Q, 0%Q); (10%Q, 0%Q); (10%Q, 10%Q); (0%Q, 10%Q); (0%Q, 0%Q)].
Definition kite_ring : list Coord :=
  [(0%Q, 0%Q); (3%Q, 1%Q); (3%Q, 3%Q); (1%Q, 3%Q); (0%Q, 0%Q)].

Definition kite : Polygon := mkPolygon kite_ring [].
Definition square_with_hole : Polygon := mkPolygon square_ring [kite_ring].

(* Every ring but the one that touches itself is valid; each edge, which
   no other edge crosses, is split into itself. *)
Definition keyhole_shapely : Shapely :=
  {| is_valid := fun p => negb (coords_eqb (exterior p) (close_ring keyhole_points));
     area := polygon_area;
     line_length := axis_length;
     split := fun this_edge _ => Some [this_edge];
     intersection := no_geometry;
     difference := no_geometry;
     equals := same_geometry;
     polygonize := fun lines =>
       if lines_eqb lines (polygon_edges (Polygon_ keyhole_points))
       then [kite; square_with_hole]
       else [];
     distance := fun _ _ => 0%Q;
     relate := fun _ _ => [];
     minimum_rotated_rectangle := fun p => p |}.

(* ===================================================================== *)
(* Properties                                                             *)
(* ===================================================================== *)

Lemma Qltb_lt (x y : Q) : Qltb x y = true <-> (x < y)%Q.
Proof.
  unfold Qltb. rewrite negb_true_iff. split.
  - intros Hb. apply Qnot_le_lt. intros Hle.
    apply Qle_bool_iff in Hle. congruence.
  - intros Hlt. destruct (Qle_bool y x) eqn:E; [|reflexivity].
    apply Qle_bool_iff in E. exfalso. exact (Qlt_not_le _ _ Hlt E).
Qed.

Lemma Qltb_ge (x y : Q) : Qltb x y = false <-> (y <= x)%Q.
Proof.
  unfold Qltb. rewrite negb_false_iff. apply Qle_bool_iff.
Qed.

Lemma coord_eqb_refl (a : Coord) : coord_eqb a a = true.
Proof.
  unfold coord_eqb. rewrite !Qeq_bool_refl. reflexivity.
Qed.

Section ShapeReconstructionFacts.
Context `{Shapely}.




End ShapeReconstructionFacts.

Section RingFacts.
Context `{Shapely}.

Lemma close_ring_length (pts : list Coord) :
  length pts <= length (close_ring pts).
Proof.
  destruct pts as [|first rest]; [done|]. unfold close_ring.
  destruct (_ || _); [rewrite length_app; lia | lia].
Qed.

(* A ring the constructor closed is left as it is by the constructor. *)
Lemma close_ring_closed (pts : list Coord) :
  3 <= length pts -> close_ring (close_ring pts) = close_ring pts.
Proof.
  intros Hlen. destruct pts as [|first rest]; [done|].
  unfold close_ring at 2.
  destruct ((length (first :: rest) =? 3)
            || negb (coord_eqb first (List.last (first :: rest) first))) eqn:E.
  - change ((first :: rest) ++ [first]) with (first :: (rest ++ [first])).
    unfold close_ring.
    change (first :: (rest ++ [first])) with ((first :: rest) ++ [first]).
    rewrite last_last, coord_eqb_refl.
    rewrite E.
    replace (length ((first :: rest) ++ [first]) =? 3) with false; [done|].
    symmetry. apply Nat.eqb_neq. rewrite length_app. simpl in *. lia.
  - unfold close_ring. by rewrite E.
Qed.

Lemma polygon_from_points_valid (pts : list Coord) :
  3 <= length pts -> is_valid (Polygon_ pts) = true ->
  polygon_from_points pts = GPolygon (Polygon_ pts).
Proof.
  intros Hlen Hvalid.
  destruct pts as [|p [|q [|r rest]]]; simpl in Hlen; try lia.
  unfold polygon_from_points. by rewrite Hvalid.
Qed.

End RingFacts.

Section ClosenessFacts.
Context `{Shapely}.

(* The scan answers True exactly when, counting a pair found before it
   started, it meets two checks below the tolerance. *)
Lemma close_scan_count (tolerance : Q) (pairs : list (LineString * Coord))
    (first_pair_found : bool) :
  close_scan tolerance first_pair_found pairs = true
  <-> 2 <= (if first_pair_found then 1 else 0)
           + length (List.filter (point_near tolerance) pairs).
Proof.
  revert first_pair_found.
  induction pairs as [|pr rest IH]; intros found; simpl.
  - destruct found; split; intros; (discriminate || lia).
  - destruct (point_near tolerance pr); simpl.
    + destruct found.
      * split; [lia | reflexivity].
      * rewrite IH. lia.
    + apply IH.
Qed.

Lemma endpoint_checks_two (line1 line2 : LineString) (b10 b11 b20 b21 : Coord) :
  boundary line1 = [b10; b11] -> boundary line2 = [b20; b21] ->
  endpoint_checks line1 line2
  = [(line1, b20); (line1, b21); (line2, b10); (line2, b11)].
Proof. intros H1 H2. unfold endpoint_checks. by rewrite H1, H2. Qed.

Lemma lines_are_close_count (line1 line2 : LineString) (tolerance : Q) :
  (0 < line_length line1)%Q -> (0 < line_length line2)%Q ->
  length (boundary line1) = 2 -> length (boundary line2) = 2 ->
  lines_are_close line1 line2 tolerance
  = Ok (bool_decide (2 <= qualifying_checks tolerance line1 line2)).
Proof.
  intros Hl1 Hl2 Hb1 Hb2. unfold lines_are_close, qualifying_checks.
  apply Qltb_lt in Hl1, Hl2. rewrite Hl1, Hl2.
  destruct (boundary line1) as [|b10 [|b11 [|? ?]]] eqn:E1; try discriminate.
  destruct (boundary line2) as [|b20 [|b21 [|? ?]]] eqn:E2; try discriminate.
  rewrite (endpoint_checks_two _ _ _ _ _ _ E1 E2). cbn [andb]. f_equal.
  apply eq_true_iff_eq. rewrite close_scan_count, bool_decide_eq_true. simpl. lia.
Qed.




End ClosenessFacts.

Section PolygonPropertyFacts.
Context `{Shapely}.

Lemma PlanObject_polygon_value (o : PlanObject) :
  cache_sound o ->
  fst (PlanObject_polygon o) = polygon_from_points (element_points o).
Proof.
  intros Hc. unfold PlanObject_polygon.
  destruct (cached_polygon o) as [g|] eqn:E; [by apply Hc | done].
Qed.

Lemma PlanObject_polygon_cached (o : PlanObject) :
  cached_polygon (snd (PlanObject_polygon o)) = Some (fst (PlanObject_polygon o))
  /\ element_points (snd (PlanObject_polygon o)) = element_points o.
Proof.
  unfold PlanObject_polygon. destruct (cached_polygon o) eqn:E; simpl; auto.
Qed.

(* However often the property is read, polygon_from_points runs at most
   once, and not at all once the cache is filled; every read returns the
   same polygon. *)
Lemma polygon_computed_once (n : nat) (o : PlanObject) :
  cache_sound o ->
  computations (snd (read_times n o))
    <= computations o + match cached_polygon o with Some _ => 0 | None => 1 end
  /\ Forall (fun g => g = polygon_from_points (element_points o))
            (fst (read_times n o)).
Proof.
  revert o. induction n as [|n IH]; intros o Hc; simpl.
  - split; [lia | constructor].
  - pose proof (PlanObject_polygon_value o Hc) as Hv.
    pose proof (PlanObject_polygon_cached o) as [Hcache Hpts].
    destruct (PlanObject_polygon o) as [g o1] eqn:E1. simpl in *.
    assert (Hc1 : cache_sound o1).
    { intros g' Hg'. rewrite Hcache in Hg'. rewrite Hpts. congruence. }
    destruct (IH o1 Hc1) as [Hn Hall].
    destruct (read_times n o1) as [gs o2] eqn:E2. simpl in *.
    rewrite Hcache in Hn. rewrite Hpts in Hall. split.
    + unfold PlanObject_polygon in E1.
      destruct (cached_polygon o); inversion E1; subst; simpl in *; lia.
    + constructor; done.
Qed.

Lemma Wall_polygon_stable (w : Wall) :
  fst (Wall_polygon (snd (Wall_polygon w))) = fst (Wall_polygon w).
Proof.
  unfold Wall_polygon. destruct (_polygon w) as [g|] eqn:E; simpl.
  - by rewrite E.
  - by destruct (PlanObject_polygon (wall_object w)).
Qed.

(* A read after wall._polygon = g returns g. *)
Lemma Wall_polygon_assigned (g : Geometry) (w : Wall) :
  fst (Wall_polygon (set_polygon (Some g) w)) = g.
Proof. reflexivity. Qed.

(* A read after wall._polygon = None returns the polygon of the
   PlanObject, the one computed from the points. *)
Lemma Wall_polygon_unassigned (w : Wall) :
  fst (Wall_polygon (set_polygon None w)) = fst (PlanObject_polygon (wall_object w)).
Proof.
  unfold Wall_polygon, set_polygon. simpl.
  by destruct (PlanObject_polygon (wall_object w)).
Qed.

End PolygonPropertyFacts.

Section OverlapResolutionFacts.
Context `{Shapely}.




End OverlapResolutionFacts.


Section CleanDifferenceFacts.
Context `{Shapely}.

Lemma subtract_cleanly_polygon (this_polygon that_polygon : Geometry)
    (tolerance : Q) (d : Polygon) :
  difference this_polygon that_polygon = GPolygon d ->
  subtract_cleanly this_polygon that_polygon tolerance = Ok (Some (GPolygon d)).
Proof. intros Hd. unfold subtract_cleanly. by rewrite Hd. Qed.

(* remove_overlaps on an overlapping pair whose first difference is one
   polygon: that polygon is assigned to self, and nothing else. *)
Lemma remove_overlaps_clean (walls : list Wall) (self other_wall : nat)
    (clean_overlaps_only : bool) (d : Polygon) :
  self <> other_wall -> self < length walls -> other_wall < length walls ->
  relate_pattern (polygon_read walls self) (polygon_read walls other_wall)
    overlap_pattern = true ->
  difference (polygon_read walls self) (polygon_read walls other_wall) = GPolygon d ->
  exists walls',
    remove_overlaps self other_wall clean_overlaps_only walls = (Ok RTrue, walls')
    /\ polygon_read walls' self = GPolygon d
    /\ (forall k, k <> self -> polygon_read walls' k = polygon_read walls k).
Proof.
  intros Hne Hs Ho Hrel Hdiff.
  unfold remove_overlaps, read_polygon, polygon_read in *.
  pose proof (Wall_polygon_stable (walls !!! other_wall)) as Hstable.
  destruct (Wall_polygon (walls !!! self)) as [A wA] eqn:EA.
  rewrite list_lookup_total_insert_ne by done.
  destruct (Wall_polygon (walls !!! other_wall)) as [B wB] eqn:EB.
  simpl in Hrel, Hdiff, Hstable. rewrite Hrel.
  rewrite (subtract_cleanly_polygon _ _ _ _ Hdiff).
  eexists. split; [reflexivity|]. unfold write_polygon. split.
  - rewrite list_lookup_total_insert_eq by (rewrite !length_insert; lia).
    reflexivity.
  - intros k Hk. rewrite list_lookup_total_insert_ne by done.
    destruct (decide (k = other_wall)) as [->|Hko].
    + rewrite list_lookup_total_insert_eq by (rewrite length_insert; lia).
      by rewrite EB.
    + by rewrite !list_lookup_total_insert_ne by done.
Qed.

(** C9: when the polygons of walls A and B match the overlap pattern and
    the difference of A's polygon and B's is a single polygon,
    remove_overlaps assigns that difference to A and returns True; B,
    like every other wall, reads the polygon it read before.  For a floor
    of these two walls remove_wall_overlaps does just that and returns
    after its first round. *)
Theorem clean_difference_changes_one_wall :
  (forall (walls : list Wall) (self other_wall : nat)
          (clean_overlaps_only : bool) (d : Polygon),
      self <> other_wall -> self < length walls -> other_wall < length walls ->
      relate_pattern (polygon_read walls self) (polygon_read walls other_wall)
        overlap_pattern = true ->
      difference (polygon_read walls self) (polygon_read walls other_wall)
        = GPolygon d ->
      exists walls',
        remove_overlaps self other_wall clean_overlaps_only walls = (Ok RTrue, walls')
        /\ polygon_read walls' self = GPolygon d
        /\ (forall k, k <> self -> polygon_read walls' k = polygon_read walls k))
  /\ (forall (wall_a wall_b : Wall) (fuel : nat) (d : Polygon),
      relate_pattern (polygon_read [wall_a; wall_b] 0) (polygon_read [wall_a; wall_b] 1)
        overlap_pattern = true ->
      difference (polygon_read [wall_a; wall_b] 0) (polygon_read [wall_a; wall_b] 1)
        = GPolygon d ->
      exists walls',
        remove_wall_overlaps (S fuel) [wall_a; wall_b] = Some (Ok tt, walls')
        /\ polygon_read walls' 0 = GPolygon d
        /\ polygon_read walls' 1 = polygon_read [wall_a; wall_b] 1).
Proof.
  split; [exact remove_overlaps_clean|].
  intros wall_a wall_b fuel d Hrel Hdiff.
  destruct (remove_overlaps_clean [wall_a; wall_b] 0 1 true d)
    as (walls' & Hrun & Ha & Hothers); simpl; try lia; try done.
  exists walls'. split; [|split; [exact Ha | by apply Hothers]].
  unfold remove_wall_overlaps, wall_pairs. simpl. rewrite Hrun. reflexivity.
Qed.

End CleanDifferenceFacts.

Lemma clean_difference_changes_one_wall_witness :
  exists walls',
    @remove_wall_overlaps walls_shapely 1 beam_and_post = Some (Ok tt, walls')
    /\ @polygon_read walls_shapely walls' 0 = GPolygon beam_trimmed
    /\ @polygon_read walls_shapely walls' 1 = GPolygon post.
Proof.
  apply (proj2 (@clean_difference_changes_one_wall walls_shapely)
           (new_Wall beam_points) (new_Wall post_points) 0 beam_trimmed).
  - vm_compute. reflexivity.
  - vm_compute. reflexivity.
Defined.

(** C7, the failing run: on the three walls the first round assigns the
    trimmed beam to wall 2 and leaves the pair of the bar and the beam
    pending; the second round leaves it pending again, and the forced call
    assigns None to wall 2.  The reads of wall 2 that follow return the
    polygon first computed from its points, not the trimmed one. *)
Theorem forced_resolution_restores_original_polygon :
  @polygon_read walls_shapely
    (snd (@resolution_round walls_shapely (wall_pairs three_walls) [] three_walls)) 2
  = GPolygon beam_trimmed
  /\ exists walls',
      @remove_wall_overlaps walls_shapely 3 three_walls = Some (Ok tt, walls')
      /\ _polygon (walls' !!! 2) = None
      /\ @polygon_read walls_shapely walls' 2 = GPolygon beam
      /\ @polygon_from_points walls_shapely beam_points = GPolygon beam.
Proof.
  split; [vm_compute; reflexivity|].
  eexists. split; [vm_compute; reflexivity|].
  repeat split; vm_compute; reflexivity.
Qed.

Section AdjacencyFacts.
Context `{Shapely}.
Variable fp : FloorPlan.

Lemma check_openings_adjacencies (wall k : nat) (kinds : list OpeningKind)
    (room : nat) (s : AdjState) :
  adjacencies (check_openings fp wall k kinds room s) = adjacencies s.
Proof.
  revert k s. induction kinds as [|kind rest IH]; intros k s; simpl; [done|].
  rewrite IH. unfold check_adjacencies.
  destruct (Qltb _ _); [|done]. by destruct kind.
Qed.

Lemma add_adjacency_adjacencies (self object : Entity) (info : Fact) (s : AdjState) :
  adjacencies (add_adjacency fp self object info s)
  = <[self := AdjacencyList_add (table s self) object info]> (adjacencies s).
Proof.
  unfold add_adjacency.
  destruct self, object; try reflexivity.
  by rewrite check_openings_adjacencies.
Qed.

(* What one call of add_adjacency does to the tables. *)
Lemma facts_add_adjacency (self object : Entity) (info : Fact) (s : AdjState)
    (a b : Entity) :
  facts (add_adjacency fp self object info s) a b
  = if decide (a = self /\ b = object)
    then Some (default [] (facts s self object) ++ [info])
    else facts s a b.
Proof.
  unfold facts, table. rewrite add_adjacency_adjacencies.
  rewrite lookup_total_insert. destruct (decide (self = a)) as [<-|Hna].
  - unfold AdjacencyList_add. rewrite lookup_insert.
    destruct (decide (object = b)) as [<-|Hnb].
    + rewrite decide_True by done. by rewrite lookup_total_alt.
    + rewrite decide_False by (intros [_ ->]; done). reflexivity.
  - rewrite decide_False by (intros [-> _]; done). reflexivity.
Qed.

(* The two calls find_adjacencies makes for a pair keep the tables
   symmetric. *)
Lemma add_both_symmetric (self other : Entity) (info : Fact) (s : AdjState) :
  symmetric s ->
  symmetric (add_adjacency fp other self info (add_adjacency fp self other info s)).
Proof.
  intros Hsym a b. rewrite !facts_add_adjacency.
  pose proof (Hsym self other) as Hso. pose proof (Hsym a b) as Hab.
  repeat case_decide; destruct_and?; subst; simplify_eq; try done;
    try (exfalso; naive_solver); rewrite ?Hso; try done.
Qed.

Lemma find_adjacencies_symmetric (self : Entity) (others : list Entity) (s : AdjState) :
  symmetric s -> symmetric (snd (find_adjacencies fp self others s)).
Proof.
  revert s. induction others as [|other rest IH]; intros s Hsym; simpl; [done|].
  destruct (intersection (polygon_of fp self) (polygon_of fp other));
    try (by apply IH, add_both_symmetric);
    (destruct (_is_close (polygon_of fp self) (polygon_of fp other)) as [[|]|];
     [by apply IH, add_both_symmetric | by apply IH | done]).
Qed.

Lemma room_adjacencies_symmetric (room_index : nat) (s : AdjState) :
  symmetric s -> symmetric (snd (room_adjacencies fp room_index s)).
Proof.
  intros Hsym. unfold room_adjacencies.
  pose proof (find_adjacencies_symmetric (ERoom room_index) (walls_of fp) s Hsym) as H1.
  destruct (find_adjacencies fp (ERoom room_index) (walls_of fp) s) as [[e|] s1];
    [exact H1|]. simpl in H1.
  pose proof (find_adjacencies_symmetric (ERoom room_index) (railings_of fp) s1 H1) as H2.
  destruct (find_adjacencies fp (ERoom room_index) (railings_of fp) s1) as [[e|] s2];
    [exact H2|]. simpl in H2.
  by apply find_adjacencies_symmetric.
Qed.

Lemma rooms_loop_symmetric (room_indexes : list nat) (s : AdjState) :
  symmetric s -> symmetric (snd (rooms_loop fp room_indexes s)).
Proof.
  revert s. induction room_indexes as [|r rest IH]; intros s Hsym; simpl; [done|].
  pose proof (room_adjacencies_symmetric r s Hsym) as H1.
  destruct (room_adjacencies fp r s) as [[e|] s1]; [exact H1|].
  by apply IH.
Qed.

Lemma initial_symmetric : symmetric initial_AdjState.
Proof. intros a b. unfold facts, table. simpl. by rewrite !lookup_total_empty. Qed.

End AdjacencyFacts.

(** C2: in the state the adjacency pass of a floor reaches from empty
    tables, whether it ran to its end or was left by an exception, A's
    table has an entry for B exactly when B's table has one for A, and the
    two entries hold the same facts in the same order: the same shared
    geometries and the same None for "close". *)
Theorem adjacency_symmetric `{Shapely} (fp : FloorPlan) (a b : Entity) :
  facts (snd (Floor_find_adjacencies fp initial_AdjState)) a b
  = facts (snd (Floor_find_adjacencies fp initial_AdjState)) b a.
Proof.
  apply rooms_loop_symmetric, initial_symmetric.
Qed.

Lemma union_singleton_again (X : gset nat) (x : nat) :
  X ∪ {[x]} ∪ {[x]} = X ∪ {[x]}.
Proof. apply set_eq. intros y. rewrite !elem_of_union. tauto. Qed.

Section FixtureFacts.
Context `{Shapely}.
Variable fixture_polygon : nat -> Geometry.
Variable room_polygon : nat -> Geometry.

Local Abbreviation find_rooms := (find_rooms fixture_polygon room_polygon).
Local Abbreviation fixture_in_room :=
  (fixture_in_room fixture_polygon room_polygon).

(* The pattern of find_rooms reads the first entry only. *)
Lemma fixture_pattern_first_entry (m : list Dim) :
  matrix_matches m fixture_pattern = true
  <-> exists rest, m = D2 :: rest /\ length rest = 8.
Proof.
  split.
  - destruct m as [|d0 [|d1 [|d2 [|d3 [|d4 [|d5 [|d6 [|d7 [|d8 [|d9 m]]]]]]]]]];
      simpl; try discriminate; destruct d0; simpl; try discriminate.
    intros _. eauto.
  - intros (rest & -> & Hlen).
    destruct rest as [|d1 [|d2 [|d3 [|d4 [|d5 [|d6 [|d7 [|d8 [|d9 m]]]]]]]]];
      simpl in Hlen; try lia. reflexivity.
Qed.

Lemma find_rooms_first_match (fixture room : nat) (before after : list nat)
    (s : FixtureState) :
  (forall r, r ∈ before -> fixture_in_room fixture r = false) ->
  fixture_in_room fixture room = true ->
  find_rooms fixture (before ++ room :: after) s = add_room fixture room s.
Proof.
  intros Hbefore Hroom. induction before as [|r before IH]; simpl.
  - by rewrite Hroom.
  - rewrite (Hbefore r) by left. apply IH. intros r' Hr'. apply Hbefore. by right.
Qed.

Lemma find_rooms_no_match (fixture : nat) (rooms : list nat) (s : FixtureState) :
  (forall r, r ∈ rooms -> fixture_in_room fixture r = false) ->
  find_rooms fixture rooms s = s.
Proof.
  intros Hnone. induction rooms as [|r rooms IH]; simpl; [done|].
  rewrite (Hnone r) by left. apply IH. intros r' Hr'. apply Hnone. by right.
Qed.

Lemma add_room_again (fixture room : nat) (s : FixtureState) :
  add_room fixture room (add_room fixture room s) = add_room fixture room s.
Proof.
  unfold add_room. simpl. rewrite !lookup_total_insert_eq, !insert_insert_eq.
  by rewrite !union_singleton_again.
Qed.

Lemma find_rooms_again (fixture : nat) (rooms : list nat) (s : FixtureState) :
  find_rooms fixture rooms (find_rooms fixture rooms s) = find_rooms fixture rooms s.
Proof.
  induction rooms as [|r rooms IH]; simpl; [done|].
  destruct (fixture_in_room fixture r) eqn:E.
  - apply add_room_again.
  - exact IH.
Qed.

(** C5, as amended: find_rooms scans the rooms in the order given and
    tests the relation pattern that fixes the first entry alone
    (interior/interior of dimension 2).  At the first room that passes it
    adds the room to the fixture's rooms and the fixture to that room's
    fixtures, and touches no other room, whatever rooms pass further on;
    when no room passes nothing changes; and running it again on its own
    result changes nothing. *)
Theorem find_rooms_first_match_wins :
  (forall fixture room : nat,
      fixture_in_room fixture room = true
      <-> exists rest, relate (fixture_polygon fixture) (room_polygon room) = D2 :: rest
                       /\ length rest = 8)
  /\ (forall (fixture room : nat) (before after : list nat) (s : FixtureState),
      (forall r, r ∈ before -> fixture_in_room fixture r = false) ->
      fixture_in_room fixture room = true ->
      let s' := find_rooms fixture (before ++ room :: after) s in
      fixture_rooms s' !!! fixture = fixture_rooms s !!! fixture ∪ {[room]}
      /\ room_fixtures s' !!! room = room_fixtures s !!! room ∪ {[fixture]}
      /\ (forall f, f <> fixture -> fixture_rooms s' !!! f = fixture_rooms s !!! f)
      /\ (forall r, r <> room -> room_fixtures s' !!! r = room_fixtures s !!! r))
  /\ (forall (fixture : nat) (rooms : list nat) (s : FixtureState),
      (forall r, r ∈ rooms -> fixture_in_room fixture r = false) ->
      find_rooms fixture rooms s = s)
  /\ (forall (fixture : nat) (rooms : list nat) (s : FixtureState),
      find_rooms fixture rooms (find_rooms fixture rooms s)
      = find_rooms fixture rooms s).
Proof.
  split; [|split; [|split]].
  - intros fixture room. apply fixture_pattern_first_entry.
  - intros fixture room before after s Hbefore Hroom. simpl.
    rewrite (find_rooms_first_match _ _ _ _ _ Hbefore Hroom).
    unfold add_room. simpl. repeat split.
    + by rewrite lookup_total_insert_eq.
    + by rewrite lookup_total_insert_eq.
    + intros f Hf. by rewrite lookup_total_insert_ne.
    + intros r Hr. by rewrite lookup_total_insert_ne.
  - exact find_rooms_no_match.
  - exact find_rooms_again.
Qed.

End FixtureFacts.

Lemma find_rooms_first_match_wins_witness :
  @find_rooms inside_shapely small_fixture large_room 0 [0; 1] no_assignment
  = @find_rooms inside_shapely small_fixture large_room 0 [0; 1]
      (@find_rooms inside_shapely small_fixture large_room 0 [0; 1] no_assignment)
  /\ room_fixtures
       (@find_rooms inside_shapely small_fixture large_room 0 ([] ++ 0 :: [1])
          no_assignment) !!! 1
     = room_fixtures no_assignment !!! 1.
Proof.
  pose proof (@find_rooms_first_match_wins inside_shapely small_fixture large_room)
    as (_ & Hfirst & _ & Hagain).
  split.
  - symmetry. apply Hagain.
  - apply (Hfirst 0 0 [] [1] no_assignment).
    + intros r Hr. inversion Hr.
    + reflexivity.
    + lia.
Defined.

(** C5, counterexample: for the fixture well inside the room the relation
    matrix is 2FF1FF212; find_rooms accepts the room, although the second
    entry, interior/boundary, reports no intersection. *)
Lemma find_rooms_reads_first_entry_only :
  ~ (forall (sh : Shapely) (fixture_polygon room_polygon : nat -> Geometry)
            (fixture room : nat),
        @fixture_in_room sh fixture_polygon room_polygon fixture room
        = first_two_positions_intersect
            (@relate sh (fixture_polygon fixture) (room_polygon room))).
Proof.
  intros Hclaim.
  specialize (Hclaim inside_shapely small_fixture large_room 0 0).
  vm_compute in Hclaim. discriminate Hclaim.
Qed.

Section OpeningFacts.
Context `{Shapely}.
Variable fp : FloorPlan.

Lemma check_adjacencies_rooms (kind : OpeningKind) (o' : Opening) (r : nat)
    (s : AdjState) (o : Opening) :
  opening_rooms (check_adjacencies fp kind o' r s) !!! o
  = opening_rooms s !!! o
    ++ (if bool_decide (o' = o) && near fp o r then [r] else []).
Proof.
  unfold check_adjacencies, near.
  destruct (decide (o' = o)) as [->|Hne].
  - rewrite bool_decide_eq_true_2 by done. simpl.
    destruct (Qltb _ _); [|by rewrite app_nil_r].
    destruct kind; simpl; by rewrite lookup_total_insert_eq.
  - rewrite bool_decide_eq_false_2 by done. simpl. rewrite app_nil_r.
    destruct (Qltb _ _); [|done].
    destruct kind; simpl; by rewrite lookup_total_insert_ne.
Qed.

Lemma check_openings_rooms (wall : nat) (kinds : list OpeningKind) (r : nat)
    (o : Opening) :
  forall (k : nat) (s : AdjState),
    opening_rooms (check_openings fp wall k kinds r s) !!! o
    = opening_rooms s !!! o
      ++ (if bool_decide (fst o = wall /\ k <= snd o < k + length kinds)
             && near fp o r
          then [r] else []).
Proof.
  induction kinds as [|kind rest IH]; intros k s; simpl.
  - rewrite bool_decide_eq_false_2 by lia. simpl. by rewrite app_nil_r.
  - rewrite IH, check_adjacencies_rooms, <- app_assoc. f_equal.
    destruct o as [w j]. simpl.
    destruct (decide ((wall, k) = (w, j))) as [Heq|Hne].
    + injection Heq as -> ->.
      rewrite bool_decide_eq_true_2 by done.
      rewrite (bool_decide_eq_false_2 (_ /\ S j <= _ < _)) by lia.
      rewrite (bool_decide_eq_true_2 (_ /\ j <= _ < _)) by lia.
      simpl. by rewrite app_nil_r.
    + rewrite bool_decide_eq_false_2 by done. simpl.
      destruct (near fp (w, j) r); [|by rewrite !andb_false_r].
      rewrite !andb_true_r.
      destruct (decide (w = wall /\ S k <= j < S k + length rest)) as [Hin|Hout].
      * rewrite !bool_decide_eq_true_2 by lia. done.
      * rewrite !bool_decide_eq_false_2; [done | | done].
        intros [-> Hr]. apply Hout. split; [done|].
        assert (j <> k) by (intros ->; done). lia.
Qed.

Lemma add_adjacency_rooms (self object : Entity) (info : Fact) (s : AdjState)
    (o : Opening) :
  opening_rooms (add_adjacency fp self object info s) !!! o
  = opening_rooms s !!! o
    ++ match self, object with
       | EWall w, ERoom r =>
           if bool_decide (fst o = w /\ snd o < length (wall_openings fp w))
              && near fp o r
           then [r] else []
       | _, _ => []
       end.
Proof.
  unfold add_adjacency.
  destruct self as [i|w|i], object as [r|j|j]; simpl; rewrite ?app_nil_r; try done.
  rewrite check_openings_rooms. simpl. f_equal.
  destruct (near fp o r); [|by rewrite !andb_false_r]. rewrite !andb_true_r.
  rewrite (bool_decide_ext (o.1 = w /\ 0 <= o.2 < length (wall_openings fp w))
             (o.1 = w /\ o.2 < length (wall_openings fp w))) by lia.
  done.
Qed.

End OpeningFacts.

Section OpeningRoomsFacts.
Context `{Shapely}.
Variable fp : FloorPlan.

Lemma both_rooms (r : nat) (other : Entity) (info : Fact) (s : AdjState)
    (o : Opening) :
  records_fact fp (ERoom r) other = true ->
  opening_rooms
    (add_adjacency fp other (ERoom r) info
       (add_adjacency fp (ERoom r) other info s)) !!! o
  = opening_rooms s !!! o ++ visit_gain fp o r other.
Proof.
  intros Hrec. rewrite !add_adjacency_rooms. simpl. rewrite app_nil_r.
  unfold visit_gain. destruct other as [i|w|i]; try done.
  rewrite Hrec. by rewrite andb_true_r.
Qed.

Lemma find_adjacencies_rooms (r : nat) (o : Opening) (others : list Entity) :
  forall s s' : AdjState,
    find_adjacencies fp (ERoom r) others s = (None, s') ->
    opening_rooms s' !!! o
    = opening_rooms s !!! o ++ flat_map (visit_gain fp o r) others.
Proof.
  induction others as [|other rest IH]; intros s s';
    cbn [find_adjacencies flat_map].
  - intros [= <-]. by rewrite app_nil_r.
  - pose proof (both_rooms r other) as Hboth. unfold records_fact in Hboth.
    assert (Hskip : records_fact fp (ERoom r) other = false ->
                    visit_gain fp o r other = []).
    { intros Hf. unfold visit_gain. destruct other; try done.
      rewrite Hf. by rewrite andb_false_r. }
    unfold records_fact in Hskip.
    destruct (intersection (polygon_of fp (ERoom r)) (polygon_of fp other));
      try (intros Hrest; apply IH in Hrest; rewrite Hrest, Hboth by done;
           by rewrite <- app_assoc);
      (destruct (_is_close (polygon_of fp (ERoom r)) (polygon_of fp other))
         as [[|]|];
       [ intros Hrest; apply IH in Hrest; rewrite Hrest, Hboth by done;
         by rewrite <- app_assoc
       | intros Hrest; apply IH in Hrest; rewrite Hrest, Hskip by done; done
       | discriminate ]).
Qed.

Lemma visit_gain_walls (o : Opening) (r : nat) :
  forall start n : nat,
    flat_map (visit_gain fp o r) (map EWall (seq start n))
    = if bool_decide (start <= fst o < start + n)
      then visit_gain fp o r (EWall (fst o)) else [].
Proof.
  intros start n. revert start.
  induction n as [|n IH]; intros start; cbn [seq map flat_map].
  - by rewrite bool_decide_eq_false_2 by lia.
  - rewrite IH. destruct (decide (fst o = start)) as [Heq|Hne].
    + rewrite (bool_decide_eq_false_2 (S start <= _ < _)) by lia.
      rewrite (bool_decide_eq_true_2 (start <= _ < _)) by lia.
      rewrite app_nil_r. by rewrite Heq.
    + assert (visit_gain fp o r (EWall start) = []) as ->.
      { unfold visit_gain. by rewrite bool_decide_eq_false_2 by tauto. }
      cbn [app].
      destruct (decide (S start <= fst o < S start + n)).
      * rewrite (bool_decide_eq_true_2 (S start <= _ < _)) by lia.
        by rewrite (bool_decide_eq_true_2 (start <= _ < _)) by lia.
      * rewrite (bool_decide_eq_false_2 (S start <= _ < _)) by lia.
        by rewrite (bool_decide_eq_false_2 (start <= _ < _)) by lia.
Qed.

Lemma visit_gain_others (o : Opening) (r : nat) (others : list Entity) :
  (forall w, EWall w ∉ others) ->
  flat_map (visit_gain fp o r) others = [].
Proof.
  induction others as [|other rest IH]; intros Hno; simpl; [done|].
  rewrite IH by (intros w Hw; apply (Hno w); by right).
  destruct other as [i|w|i]; try done.
  exfalso. apply (Hno w). left.
Qed.

Lemma room_adjacencies_rooms (r : nat) (o : Opening) (s s' : AdjState) :
  room_adjacencies fp r s = (None, s') ->
  opening_rooms s' !!! o
  = opening_rooms s !!! o ++ (if gained fp o r then [r] else []).
Proof.
  unfold room_adjacencies.
  destruct (find_adjacencies fp (ERoom r) (walls_of fp) s) as [[e|] s1] eqn:E1;
    [discriminate|].
  destruct (find_adjacencies fp (ERoom r) (railings_of fp) s1) as [[e|] s2] eqn:E2;
    [discriminate|].
  intros E3.
  rewrite (find_adjacencies_rooms _ _ _ _ _ E3),
          (find_adjacencies_rooms _ _ _ _ _ E2),
          (find_adjacencies_rooms _ _ _ _ _ E1).
  rewrite (visit_gain_others o r (rooms_after fp r)),
          (visit_gain_others o r (railings_of fp)).
  - rewrite !app_nil_r. f_equal. unfold walls_of. rewrite visit_gain_walls.
    unfold gained, visit_gain.
    rewrite (bool_decide_ext (0 <= fst o < 0 + n_walls fp) (fst o < n_walls fp))
      by lia.
    rewrite (bool_decide_ext
               (fst o = fst o /\ snd o < length (wall_openings fp (fst o)))
               (snd o < length (wall_openings fp (fst o)))) by tauto.
    by destruct (bool_decide (fst o < n_walls fp)).
  - intros w Hw. unfold railings_of in Hw.
    apply list_elem_of_fmap in Hw as (i & Hi & _). discriminate.
  - intros w Hw. unfold rooms_after in Hw.
    apply list_elem_of_fmap in Hw as (i & Hi & _). discriminate.
Qed.

Lemma rooms_loop_rooms (o : Opening) (room_indexes : list nat) :
  forall s s' : AdjState,
    rooms_loop fp room_indexes s = (None, s') ->
    opening_rooms s' !!! o
    = opening_rooms s !!! o ++ List.filter (gained fp o) room_indexes.
Proof.
  induction room_indexes as [|r rest IH]; intros s s'; simpl.
  - intros [= <-]. by rewrite app_nil_r.
  - destruct (room_adjacencies fp r s) as [[e|] s1] eqn:E1; [discriminate|].
    intros Hrest. rewrite (IH _ _ Hrest), (room_adjacencies_rooms _ _ _ _ E1).
    rewrite <- app_assoc. by destruct (gained fp o r).
Qed.

End OpeningRoomsFacts.

(* Filtering an interval of indices in which one, or two, pass. *)
Lemma filter_seq_none (P : nat -> bool) (n start : nat) :
  (forall r, start <= r < start + n -> P r = false) ->
  List.filter P (seq start n) = [].
Proof.
  revert start. induction n as [|n IH]; intros start HP; simpl; [done|].
  rewrite (HP start) by lia. apply IH. intros r Hr. apply HP. lia.
Qed.

Lemma filter_seq_one (P : nat -> bool) (r1 n start : nat) :
  start <= r1 < start + n ->
  (forall r, start <= r < start + n -> (P r = true <-> r = r1)) ->
  List.filter P (seq start n) = [r1].
Proof.
  revert start. induction n as [|n IH]; intros start Hr1 HP; simpl; [lia|].
  destruct (decide (start = r1)) as [->|Hne].
  - rewrite (proj2 (HP r1 ltac:(lia))) by done. f_equal.
    apply filter_seq_none. intros r Hr.
    destruct (P r) eqn:E; [|done]. apply HP in E; lia.
  - destruct (P start) eqn:E; [apply HP in E; lia|].
    apply IH; [lia|]. intros r Hr. apply HP. lia.
Qed.

Lemma filter_seq_two (P : nat -> bool) (r1 r2 n start : nat) :
  start <= r1 -> r1 < r2 -> r2 < start + n ->
  (forall r, start <= r < start + n -> (P r = true <-> r = r1 \/ r = r2)) ->
  List.filter P (seq start n) = [r1; r2].
Proof.
  revert start. induction n as [|n IH]; intros start H1 H12 H2 HP; simpl; [lia|].
  destruct (decide (start = r1)) as [->|Hne].
  - rewrite (proj2 (HP r1 ltac:(lia))) by tauto. f_equal.
    apply filter_seq_one; [lia|]. intros r Hr. rewrite HP by lia. lia.
  - destruct (P start) eqn:E; [apply HP in E; lia|].
    apply IH; [lia | lia | lia |]. intros r Hr. apply HP. lia.
Qed.

Section ReciprocalFacts.
Context `{Shapely}.
Variable fp : FloorPlan.

Lemma check_adjacencies_reciprocal (kind : OpeningKind) (o' : Opening) (r' : nat)
    (s : AdjState) :
  wall_openings fp (fst o') !! snd o' = Some kind ->
  doors_reciprocal fp s ->
  doors_reciprocal fp (check_adjacencies fp kind o' r' s).
Proof.
  intros Hkind Hrec. unfold check_adjacencies.
  destruct (Qltb _ _); [|done].
  intros o r Hdoor Hr. specialize (Hrec o r Hdoor).
  unfold Opening_add_adjacency in *. destruct kind; simpl in *.
  - destruct (decide (o' = o)) as [->|Hne].
    + rewrite lookup_total_insert_eq in Hr.
      apply elem_of_app in Hr as [Hr | Hr].
      * rewrite lookup_total_insert. case_decide; [subst|]; set_unfold; tauto.
      * apply list_elem_of_singleton in Hr. subst r.
        rewrite lookup_total_insert_eq. set_unfold. tauto.
    + rewrite lookup_total_insert_ne in Hr by done.
      rewrite lookup_total_insert. case_decide; [subst|]; set_unfold; tauto.
  - destruct (decide (o' = o)) as [->|Hne]; [congruence|].
    rewrite lookup_total_insert_ne in Hr by done. tauto.
Qed.

Lemma check_openings_reciprocal (wall : nat) (kinds : list OpeningKind) (r : nat) :
  forall (k : nat) (s : AdjState),
    (forall j kind, kinds !! j = Some kind ->
                    wall_openings fp wall !! (k + j) = Some kind) ->
    doors_reciprocal fp s ->
    doors_reciprocal fp (check_openings fp wall k kinds r s).
Proof.
  induction kinds as [|kind rest IH]; intros k s Hkinds Hrec; simpl; [done|].
  apply IH.
  - intros j kind' Hj. replace (S k + j) with (k + S j) by lia.
    by apply Hkinds.
  - apply check_adjacencies_reciprocal; [|done]. simpl.
    rewrite <- (Nat.add_0_r k). by apply Hkinds.
Qed.

Lemma add_adjacency_reciprocal (self object : Entity) (info : Fact) (s : AdjState) :
  doors_reciprocal fp s -> doors_reciprocal fp (add_adjacency fp self object info s).
Proof.
  intros Hrec. unfold add_adjacency.
  destruct self as [i|w|i], object as [r|j|j]; try exact Hrec.
  apply check_openings_reciprocal; [|exact Hrec].
  intros j kind Hj. exact Hj.
Qed.

Lemma find_adjacencies_reciprocal (self : Entity) (others : list Entity) :
  forall s : AdjState,
    doors_reciprocal fp s ->
    doors_reciprocal fp (snd (find_adjacencies fp self others s)).
Proof.
  induction others as [|other rest IH]; intros s Hrec;
    cbn [find_adjacencies]; [done|].
  destruct (intersection (polygon_of fp self) (polygon_of fp other));
    try (by apply IH; do 2 apply add_adjacency_reciprocal);
    (destruct (_is_close (polygon_of fp self) (polygon_of fp other)) as [[|]|];
     [by apply IH; do 2 apply add_adjacency_reciprocal | by apply IH | done]).
Qed.

Lemma rooms_loop_reciprocal (room_indexes : list nat) :
  forall s : AdjState,
    doors_reciprocal fp s ->
    doors_reciprocal fp (snd (rooms_loop fp room_indexes s)).
Proof.
  induction room_indexes as [|r rest IH]; intros s Hrec; simpl; [done|].
  assert (H1 : doors_reciprocal fp (snd (room_adjacencies fp r s))).
  { unfold room_adjacencies.
    pose proof (find_adjacencies_reciprocal (ERoom r) (walls_of fp) s Hrec) as Hw.
    destruct (find_adjacencies fp (ERoom r) (walls_of fp) s) as [[e|] s1];
      [exact Hw|]. simpl in Hw.
    pose proof (find_adjacencies_reciprocal (ERoom r) (railings_of fp) s1 Hw) as Hl.
    destruct (find_adjacencies fp (ERoom r) (railings_of fp) s1) as [[e|] s2];
      [exact Hl|]. simpl in Hl.
    by apply find_adjacencies_reciprocal. }
  destruct (room_adjacencies fp r s) as [[e|] s1]; [exact H1|].
  by apply IH.
Qed.

Lemma initial_reciprocal : doors_reciprocal fp initial_AdjState.
Proof.
  intros o r _ Hr. simpl in Hr. rewrite lookup_total_empty in Hr.
  by apply not_elem_of_nil in Hr.
Qed.

End ReciprocalFacts.

(** C8, as amended: for a door that lies within the tolerance of exactly
    two rooms, and whose wall gains an adjacency fact with each of the two
    (the openings of a wall are tested against a room only when the wall
    gains that room), after an adjacency pass that ran to its end from a
    fresh state the door's room list is the two rooms in floor order, of
    length 2, and the door set of each of them holds the door.  In every
    state the pass reaches, each room of a door's list holds the door. *)
Theorem door_links_two_rooms `{Shapely} (fp : FloorPlan) (o : Opening)
    (r1 r2 : nat) (s' : AdjState) :
  wall_openings fp (fst o) !! snd o = Some Door ->
  fst o < n_walls fp ->
  near_exactly_two fp o r1 r2 ->
  records_fact fp (ERoom r1) (EWall (fst o)) = true ->
  records_fact fp (ERoom r2) (EWall (fst o)) = true ->
  Floor_find_adjacencies fp initial_AdjState = (None, s') ->
  opening_rooms s' !!! o = [r1; r2]
  /\ door_linked s' o r1 r2
  /\ doors_reciprocal fp (snd (Floor_find_adjacencies fp initial_AdjState)).
Proof.
  intros Hdoor Hwall (H12 & H2n & Hnear) Hrec1 Hrec2 Hpass.
  pose proof (rooms_loop_reciprocal fp (seq 0 (n_rooms fp)) initial_AdjState
                (initial_reciprocal fp)) as Hrecip.
  fold (Floor_find_adjacencies fp initial_AdjState) in Hrecip.
  assert (Hrooms : opening_rooms s' !!! o = [r1; r2]).
  { rewrite (rooms_loop_rooms fp o _ _ _ Hpass). simpl.
    rewrite lookup_total_empty. simpl.
    apply filter_seq_two; [lia | lia | lia |].
    intros r Hr. rewrite <- Hnear by lia. unfold gained.
    apply lookup_lt_Some in Hdoor.
    rewrite !bool_decide_eq_true_2 by done. simpl.
    destruct (near fp o r) eqn:En; [|by rewrite andb_false_r].
    rewrite andb_true_r.
    apply Hnear in En as [-> | ->]; [| |lia]; tauto. }
  split; [exact Hrooms|]. split; [|exact Hrecip].
  rewrite Hpass in Hrecip. simpl in Hrecip.
  unfold door_linked. rewrite Hrooms. split; [done|].
  split; apply Hrecip; try done; rewrite Hrooms; set_unfold; tauto.
Qed.

Lemma door_links_two_rooms_witness :
  opening_rooms (snd (@Floor_find_adjacencies rooms_shapely hall_floor
                        initial_AdjState)) !!! (0, 0) = [0; 1].
Proof.
  apply (@door_links_two_rooms rooms_shapely hall_floor (0, 0) 0 1
           (snd (@Floor_find_adjacencies rooms_shapely hall_floor initial_AdjState))).
  - reflexivity.
  - simpl. lia.
  - split; [lia|]. split; [simpl; lia|].
    intros r Hr. simpl in Hr.
    destruct r as [|[|r]]; [| |lia]; vm_compute; split; auto.
  - vm_compute. reflexivity.
  - vm_compute. reflexivity.
  - vm_compute. reflexivity.
Defined.

(** C8, counterexample: the door touches both rooms of the floor, but its
    wall is drawn far from them and gains neither; the pass runs to its
    end and the door's room list is empty. *)
Lemma detached_door_not_linked :
  wall_openings detached_floor 0 !! 0 = Some Door
  /\ @near_exactly_two rooms_shapely detached_floor (0, 0) 0 1
  /\ fst (@Floor_find_adjacencies rooms_shapely detached_floor initial_AdjState) = None
  /\ ~ door_linked
         (snd (@Floor_find_adjacencies rooms_shapely detached_floor initial_AdjState))
         (0, 0) 0 1.
Proof.
  split; [reflexivity|]. split; [|split].
  - split; [lia|]. split; [simpl; lia|].
    intros r Hr. simpl in Hr.
    destruct r as [|[|r]]; [| |lia]; vm_compute; split; auto.
  - vm_compute. reflexivity.
  - intros (Hlen & _). vm_compute in Hlen. discriminate Hlen.
Qed.

(** C6, the failing call: eligible_edges raises TypeError for every
    divider, since it takes len() of the bound method self.edges; the
    docstring's function returns the edges 0 and 2 of a wall of four
    edges.  And a wall of three edges, never asked for its eligible edges,
    takes part in the adjacency pass: the wedge gains the room. *)
Theorem eligible_edges_raises_TypeError :
  (forall polygon : Geometry, eligible_edges polygon = Raise TypeError)
  /\ eligible_edges_documented (GPolygon (Polygon_ (rect 0 0 10 1)))
     = Ok [[(0%Q, 0%Q); (10%Q, 0%Q)]; [(10%Q, 1%Q); (0%Q, 1%Q)]]
  /\ length (polygon_edges wedge_wall) = 3
  /\ facts (snd (@Floor_find_adjacencies wedge_shapely wedge_floor initial_AdjState))
       (EWall 0) (ERoom 0)
     = Some [Some (GLineString [(10%Q, 0%Q); (10%Q, 10%Q)])].
Proof.
  split; [reflexivity|]. split; [reflexivity|]. split; [reflexivity|].
  vm_compute. reflexivity.
Qed.

(* ===================================================================== *)
(* Further properties of the module                                       *)
(* ===================================================================== *)

Section ClosenessSymmetry.
Context `{Shapely}.

Lemma qualifying_checks_swap (tolerance : Q) (line1 line2 : LineString) :
  qualifying_checks tolerance line1 line2 = qualifying_checks tolerance line2 line1.
Proof.
  unfold qualifying_checks, endpoint_checks.
  rewrite !List.filter_app, !length_app. lia.
Qed.

(** X1: lines_are_close does not depend on the order of its two edges: it
    returns the same answer, or raises the same exception, for
    (line1, line2) and for (line2, line1). *)
Theorem lines_are_close_symmetric (line1 line2 : LineString) (tolerance : Q) :
  lines_are_close line1 line2 tolerance = lines_are_close line2 line1 tolerance.
Proof.
  unfold lines_are_close.
  rewrite (andb_comm (Qltb 0 (line_length line2))).
  destruct (Qltb 0 (line_length line1) && Qltb 0 (line_length line2)); [|done].
  destruct (boundary line1) as [|b10 [|b11 [|? ?]]] eqn:E1;
    destruct (boundary line2) as [|b20 [|b21 [|? ?]]] eqn:E2; try done.
  f_equal. apply eq_true_iff_eq. rewrite !close_scan_count.
  pose proof (qualifying_checks_swap tolerance line1 line2) as Hswap.
  unfold qualifying_checks in Hswap.
  rewrite (endpoint_checks_two _ _ _ _ _ _ E1 E2) in Hswap.
  rewrite (endpoint_checks_two _ _ _ _ _ _ E2 E1) in Hswap.
  rewrite Hswap. done.
Qed.

End ClosenessSymmetry.

Section RemoveDuplicatesFacts.
Context `{Shapely}.

Lemma remove_duplicates_into_spec (geometry_list : list LineString) :
  forall deduplicated : list LineString,
    exists kept,
      remove_duplicates_into deduplicated geometry_list = deduplicated ++ kept
      /\ sublist kept geometry_list
      /\ (distinct_from_earlier deduplicated ->
          distinct_from_earlier (deduplicated ++ kept))
      /\ (forall x, x ∈ geometry_list ->
          exists y, y ∈ deduplicated ++ kept
                    /\ (x = y \/ equals (GLineString x) (GLineString y) = true)).
Proof.
  induction geometry_list as [|this rest IH]; intros acc; simpl.
  - exists []. rewrite app_nil_r. repeat split; [constructor | done |].
    intros x Hx. by apply not_elem_of_nil in Hx.
  - destruct (existsb (fun that => equals (GLineString this) (GLineString that)) acc)
      eqn:E.
    + destruct (IH acc) as (kept & Hrun & Hsub & Hdist & Hcover).
      exists kept. split; [exact Hrun|]. split; [by constructor|].
      split; [exact Hdist|].
      intros x Hx. apply elem_of_cons in Hx as [-> | Hx]; [|by apply Hcover].
      apply existsb_exists in E as (that & Hin & Heq).
      exists that. split; [|by right].
      apply elem_of_app. left. by apply list_elem_of_In.
    + destruct (IH (acc ++ [this])) as (kept & Hrun & Hsub & Hdist & Hcover).
      exists (this :: kept). rewrite Hrun, <- app_assoc. split; [done|].
      split; [by constructor|]. split.
      * intros Hacc.
        replace (acc ++ this :: kept) with ((acc ++ [this]) ++ kept)
          by (by rewrite <- app_assoc).
        apply Hdist. intros i j x y Hij Hx Hy.
        destruct (decide (j < length acc)) as [Hj|Hj].
        -- rewrite lookup_app_l in Hx, Hy by lia. by apply (Hacc i j).
        -- pose proof (lookup_lt_Some _ _ _ Hy) as Hlen.
           rewrite length_app in Hlen. simpl in Hlen.
           assert (j = length acc) as -> by lia.
           rewrite lookup_app_r in Hy by lia. rewrite Nat.sub_diag in Hy.
           injection Hy as <-. rewrite lookup_app_l in Hx by lia.
           destruct (equals (GLineString this) (GLineString x)) eqn:Ex; [|done].
           assert (existsb (fun that => equals (GLineString this) (GLineString that)) acc
                   = true); [|congruence].
           apply existsb_exists. exists x. split; [|done].
           apply list_elem_of_In, list_elem_of_lookup. eauto.
      * intros x Hx. apply elem_of_cons in Hx as [-> | Hx].
        -- exists this. split; [|by left].
           apply elem_of_app. right. left.
        -- destruct (Hcover x Hx) as (y & Hy & Hxy). exists y.
           split; [|done]. by rewrite <- app_assoc in Hy.
Qed.

(** X2: remove_duplicates keeps a subsequence of its input in which no
    geometry equals() one kept before it, and every geometry of the input
    is kept or equals() a kept one. *)
Theorem remove_duplicates_spec (geometry_list : list LineString) :
  sublist (remove_duplicates geometry_list) geometry_list
  /\ distinct_from_earlier (remove_duplicates geometry_list)
  /\ (forall x, x ∈ geometry_list ->
      exists y, y ∈ remove_duplicates geometry_list
                /\ (x = y \/ equals (GLineString x) (GLineString y) = true)).
Proof.
  unfold remove_duplicates.
  destruct (remove_duplicates_into_spec geometry_list [])
    as (kept & Hrun & Hsub & Hdist & Hcover).
  rewrite Hrun in *. simpl in *. split; [done|]. split; [|done].
  apply Hdist. intros i j x y _ Hx. by rewrite lookup_nil in Hx.
Qed.

End RemoveDuplicatesFacts.

Section EdgeFacts.
Context `{Shapely}.

Lemma removelast_lookup {A : Type} (l : list A) (i : nat) :
  S i < length l -> removelast l !! i = l !! i.
Proof.
  intros Hi. rewrite removelast_firstn_len. apply lookup_take_lt. lia.
Qed.

Lemma polygon_edges_length (p : Polygon) :
  length (polygon_edges p) = length (exterior p) - 1.
Proof.
  unfold polygon_edges. rewrite length_zip_with.
  rewrite removelast_firstn_len, length_take.
  destruct (exterior p); simpl; lia.
Qed.

Lemma polygon_edges_lookup (p : Polygon) (i : nat) (a b : Coord) :
  exterior p !! i = Some a -> exterior p !! S i = Some b ->
  polygon_edges p !! i = Some [a; b].
Proof.
  intros Ha Hb. unfold polygon_edges. rewrite lookup_zip_with.
  apply lookup_lt_Some in Hb as Hlen.
  rewrite removelast_lookup by lia. rewrite Ha. simpl.
  rewrite lookup_tail, Hb. reflexivity.
Qed.

(** X3: edges() of a polygon holds one edge for each pair of consecutive
    coordinates of the ring, edge i running from coordinate i to
    coordinate i+1.  num_edges() is the number of these edges whenever the
    ring has a coordinate; for the empty polygon, which has no edge, it is
    -1.  On a geometry that is not a polygon both raise AttributeError. *)
Theorem edges_follow_the_ring (polygon : Geometry) :
  match polygon with
  | GPolygon p =>
      exists es,
        edges polygon = Ok es
        /\ length es = length (exterior p) - 1
        /\ (forall i a b, exterior p !! i = Some a -> exterior p !! S i = Some b ->
                          es !! i = Some [a; b])
        /\ num_edges polygon
           = Ok (if decide (exterior p = []) then (-1)%Z else Z.of_nat (length es))
  | _ => edges polygon = Raise AttributeError
         /\ num_edges polygon = Raise AttributeError
  end.
Proof.
  destruct polygon as [c|l|cs|ls|p|ps|gs]; try done.
  exists (polygon_edges p). split; [done|].
  split; [apply polygon_edges_length|]. split; [apply polygon_edges_lookup|].
  simpl. f_equal. rewrite polygon_edges_length.
  case_decide as Hd; [by rewrite Hd|].
  destruct (exterior p) as [|c cs]; [done|]. simpl length. lia.
Qed.

(** X4: an element has edges exactly when it has at least three points:
    for fewer, polygon_from_points returns a point or a line, and edges()
    on it raises AttributeError. *)
Theorem edges_need_three_points (points : list Coord) :
  (length points < 3 -> edges (polygon_from_points points) = Raise AttributeError)
  /\ (3 <= length points ->
      exists es, edges (polygon_from_points points) = Ok es).
Proof.
  split.
  - intros Hlen. destruct points as [|p [|q [|r rest]]]; simpl in Hlen; try lia; done.
  - intros Hlen. destruct points as [|p [|q [|r rest]]]; simpl in Hlen; try lia.
    unfold polygon_from_points.
    destruct (is_valid _); [eauto|].
    destruct (largest_polygon _); eauto.
Qed.

End EdgeFacts.

Lemma edges_need_three_points_witness :
  edges (@polygon_from_points triangle_shapely [(0%Q, 0%Q); (4%Q, 0%Q)])
  = Raise AttributeError.
Proof.
  apply (@edges_need_three_points triangle_shapely). simpl. lia.
Defined.

Section SubtractCleanlyFacts.
Context `{Shapely}.

(** X5: whenever subtract_cleanly returns a geometry, it is the difference
    itself, a single polygon, or it is one of the two polygons of the
    difference, and then the polygon left out has a minimum rotated
    rectangle dimension below the tolerance and not above that of the
    polygon returned. *)
Theorem subtract_cleanly_returns (this_polygon that_polygon : Geometry)
    (tolerance : Q) (r : Geometry) :
  subtract_cleanly this_polygon that_polygon tolerance = Ok (Some r) ->
  (difference this_polygon that_polygon = r /\ exists p, r = GPolygon p)
  \/ (exists kept dropped s_kept s_dropped,
        r = GPolygon kept
        /\ (difference this_polygon that_polygon = GMultiPolygon [kept; dropped]
            \/ difference this_polygon that_polygon = GMultiPolygon [dropped; kept])
        /\ minimum_rotated_rectangle_dimension kept = Ok s_kept
        /\ minimum_rotated_rectangle_dimension dropped = Ok s_dropped
        /\ (s_dropped < tolerance)%Q /\ (s_dropped <= s_kept)%Q).
Proof.
  unfold subtract_cleanly.
  destruct (difference this_polygon that_polygon) as [c|l|cs|ls|p|ps|gs];
    try discriminate.
  - intros [= <-]. left. eauto.
  - destruct ps as [|p0 [|p1 [|p2 ps]]]; try discriminate.
    destruct (minimum_rotated_rectangle_dimension p0) as [s0|e0] eqn:E0;
      [|discriminate].
    destruct (minimum_rotated_rectangle_dimension p1) as [s1|e1] eqn:E1;
      [|discriminate].
    unfold py_min. destruct (Qltb s1 s0) eqn:Elt.
    + apply Qltb_lt in Elt.
      destruct (Qltb s1 tolerance) eqn:Etol; [|discriminate].
      apply Qltb_lt in Etol.
      destruct (Qeq_bool s0 s1) eqn:Eeq.
      * apply Qeq_bool_iff in Eeq. rewrite Eeq in Elt.
        exfalso. exact (Qlt_irrefl _ Elt).
      * intros [= <-]. right. exists p0, p1, s0, s1.
        repeat split; auto. by apply Qlt_le_weak.
    + apply Qltb_ge in Elt.
      destruct (Qltb s0 tolerance) eqn:Etol; [|discriminate].
      apply Qltb_lt in Etol. rewrite Qeq_bool_refl.
      intros [= <-]. right. exists p1, p0, s1, s0. repeat split; auto.
Qed.

End SubtractCleanlyFacts.

Lemma subtract_cleanly_returns_witness :
  (@difference sliver_shapely (GPolygon long_piece) (GPolygon sliver_piece)
   = GPolygon long_piece /\ exists p, GPolygon long_piece = GPolygon p)
  \/ (exists kept dropped s_kept s_dropped,
        GPolygon long_piece = GPolygon kept
        /\ (@difference sliver_shapely (GPolygon long_piece) (GPolygon sliver_piece)
            = GMultiPolygon [kept; dropped]
            \/ @difference sliver_shapely (GPolygon long_piece) (GPolygon sliver_piece)
               = GMultiPolygon [dropped; kept])
        /\ @minimum_rotated_rectangle_dimension sliver_shapely kept = Ok s_kept
        /\ @minimum_rotated_rectangle_dimension sliver_shapely dropped = Ok s_dropped
        /\ (s_dropped < 1)%Q /\ (s_dropped <= s_kept)%Q).
Proof.
  apply (@subtract_cleanly_returns sliver_shapely). vm_compute. reflexivity.
Defined.

Section RemoveOverlapsFacts.
Context `{Shapely}.

(* Reading a wall's polygon changes no polygon that is read later. *)
Lemma read_polygon_reads (i : nat) (walls : list Wall) (k : nat) :
  polygon_read (snd (read_polygon i walls)) k = polygon_read walls k.
Proof.
  unfold read_polygon, polygon_read.
  destruct (Wall_polygon (walls !!! i)) as [g w] eqn:E. simpl.
  destruct (decide (i < length walls)) as [Hi|Hi].
  - destruct (decide (k = i)) as [->|Hk].
    + rewrite list_lookup_total_insert_eq by done.
      pose proof (Wall_polygon_stable (walls !!! i)) as Hs.
      rewrite E in Hs. simpl in Hs. by rewrite E, Hs.
    + by rewrite list_lookup_total_insert_ne.
  - by rewrite list_insert_ge by lia.
Qed.

Lemma read_polygon_value (i : nat) (walls : list Wall) :
  fst (read_polygon i walls) = polygon_read walls i.
Proof.
  unfold read_polygon, polygon_read. by destruct (Wall_polygon (walls !!! i)).
Qed.

Lemma read_polygon_length (i : nat) (walls : list Wall) :
  length (snd (read_polygon i walls)) = length walls.
Proof.
  unfold read_polygon. destruct (Wall_polygon (walls !!! i)). simpl.
  apply length_insert.
Qed.

Lemma read_polygon_others (i : nat) (walls : list Wall) (k : nat) :
  k <> i -> snd (read_polygon i walls) !!! k = walls !!! k.
Proof.
  intros Hk. unfold read_polygon. destruct (Wall_polygon (walls !!! i)). simpl.
  by rewrite list_lookup_total_insert_ne.
Qed.

Lemma write_polygon_others (i : nat) (v : option Geometry) (walls : list Wall)
    (k : nat) :
  k <> i -> write_polygon i v walls !!! k = walls !!! k.
Proof. intros Hk. unfold write_polygon. by rewrite list_lookup_total_insert_ne. Qed.

(** X6: remove_overlaps touches no wall but the two it is given; it
    returns None exactly when the polygons of the two do not match the
    overlap pattern; when it returns None or False, or raises, every wall
    reads the polygon it read before; and it returns False only with
    clean_overlaps_only on. *)
Theorem remove_overlaps_frame (self other_wall : nat) (clean_overlaps_only : bool)
    (walls : list Wall) :
  let r := fst (remove_overlaps self other_wall clean_overlaps_only walls) in
  let walls' := snd (remove_overlaps self other_wall clean_overlaps_only walls) in
  length walls' = length walls
  /\ (forall k, k <> self -> k <> other_wall -> walls' !!! k = walls !!! k)
  /\ (r = Ok RNone
      <-> relate_pattern (polygon_read walls self) (polygon_read walls other_wall)
            overlap_pattern = false)
  /\ (r <> Ok RTrue -> forall k, polygon_read walls' k = polygon_read walls k)
  /\ (r = Ok RFalse -> clean_overlaps_only = true).
Proof.
  unfold remove_overlaps.
  pose proof (read_polygon_value self walls) as Hv1.
  pose proof (read_polygon_reads self walls) as Hr1.
  pose proof (read_polygon_length self walls) as Hl1.
  pose proof (read_polygon_others self walls) as Ho1.
  destruct (read_polygon self walls) as [A walls1]. simpl in Hv1, Hr1, Hl1, Ho1.
  pose proof (read_polygon_value other_wall walls1) as Hv2.
  pose proof (read_polygon_reads other_wall walls1) as Hr2.
  pose proof (read_polygon_length other_wall walls1) as Hl2.
  pose proof (read_polygon_others other_wall walls1) as Ho2.
  destruct (read_polygon other_wall walls1) as [B walls2].
  simpl in Hv2, Hr2, Hl2, Ho2.
  rewrite Hr1 in Hv2. subst A B.
  assert (Hreads : forall k, polygon_read walls2 k = polygon_read walls k)
    by (intros k; by rewrite Hr2, Hr1).
  assert (Hothers : forall k, k <> self -> k <> other_wall ->
                              walls2 !!! k = walls !!! k)
    by (intros k ? ?; by rewrite Ho2, Ho1).
  assert (Hlen : length walls2 = length walls) by lia.
  assert (Hw : forall i v k, k <> self -> k <> other_wall ->
                 i = self \/ i = other_wall ->
                 write_polygon i v walls2 !!! k = walls !!! k).
  { intros i v k ? ? Hi. rewrite write_polygon_others by (destruct Hi; congruence).
    by apply Hothers. }
  assert (Hwl : forall i v, length (write_polygon i v walls2) = length walls).
  { intros i v. unfold write_polygon. by rewrite length_insert. }
  destruct (relate_pattern (polygon_read walls self) (polygon_read walls other_wall)
              overlap_pattern) eqn:Erel.
  - destruct (subtract_cleanly (polygon_read walls self)
                (polygon_read walls other_wall) CLOSE_EDGE_TOLERANCE)
      as [[d|]|e]; simpl.
    + repeat split; auto; try done.
    + destruct (subtract_cleanly (polygon_read walls other_wall)
                  (polygon_read walls self) CLOSE_EDGE_TOLERANCE)
        as [[d|]|e]; simpl.
      * repeat split; auto; try done.
      * destruct clean_overlaps_only; simpl; repeat split; auto; try done.
      * repeat split; auto; try done.
    + repeat split; auto; try done.
  - simpl. repeat split; auto; try done.
Qed.

End RemoveOverlapsFacts.

Section NoOverlapFacts.
Context `{Shapely}.

Lemma combinations_from_bounds (n : nat) :
  forall start i j : nat,
    (i, j) ∈ combinations_from start n -> start <= i /\ i < j /\ j < start + n.
Proof.
  induction n as [|n IH]; intros start i j; simpl.
  - intros Hin. by apply not_elem_of_nil in Hin.
  - intros Hin. apply elem_of_app in Hin as [Hin | Hin].
    + apply list_elem_of_fmap in Hin as (j' & [= -> ->] & Hj).
      apply elem_of_seq in Hj. lia.
    + apply IH in Hin. lia.
Qed.

Lemma resolution_round_no_overlap (pairs : list (nat * nat)) :
  forall (acc : list (nat * nat)) (walls : list Wall),
    (forall i j, (i, j) ∈ pairs ->
                 relate_pattern (polygon_read walls i) (polygon_read walls j)
                   overlap_pattern = false) ->
    exists walls',
      resolution_round pairs acc walls = (Ok acc, walls')
      /\ forall k, polygon_read walls' k = polygon_read walls k.
Proof.
  induction pairs as [|[a b] rest IH]; intros acc walls Hno; simpl; [eauto|].
  pose proof (remove_overlaps_frame a b true walls) as (_ & _ & Hnone & Hsame & _).
  destruct (remove_overlaps a b true walls) as [r walls1]. simpl in Hnone, Hsame.
  apply Hnone in Hno as Hr; [|left]. subst r. simpl.
  assert (Hreads : forall k, polygon_read walls1 k = polygon_read walls k)
    by (by apply Hsame).
  destruct (IH acc walls1) as (walls' & Hrun & Hreads').
  - intros i j Hij. rewrite !Hreads. apply Hno. by right.
  - exists walls'. split; [exact Hrun|]. intros k. by rewrite Hreads', Hreads.
Qed.

(** X7: when no two walls of the floor match the overlap pattern,
    remove_wall_overlaps returns after its first round and every wall
    reads the polygon it read before. *)
Theorem remove_wall_overlaps_without_overlap (walls : list Wall) (fuel : nat) :
  (forall i j, i < j -> j < length walls ->
               relate_pattern (polygon_read walls i) (polygon_read walls j)
                 overlap_pattern = false) ->
  exists walls',
    remove_wall_overlaps (S fuel) walls = Some (Ok tt, walls')
    /\ forall k, polygon_read walls' k = polygon_read walls k.
Proof.
  intros Hno. unfold remove_wall_overlaps. simpl.
  destruct (resolution_round_no_overlap (wall_pairs walls) [] walls)
    as (walls' & Hrun & Hreads).
  - intros i j Hij. apply combinations_from_bounds in Hij. apply Hno; lia.
  - rewrite Hrun. simpl. eauto.
Qed.

End NoOverlapFacts.

Lemma remove_wall_overlaps_without_overlap_witness :
  exists walls',
    @remove_wall_overlaps walls_shapely 1
      [new_Wall post_points; new_Wall bar_points] = Some (Ok tt, walls')
    /\ forall k,
        @polygon_read walls_shapely walls' k
        = @polygon_read walls_shapely [new_Wall post_points; new_Wall bar_points] k.
Proof.
  apply (@remove_wall_overlaps_without_overlap walls_shapely).
  intros i j Hij Hj. simpl in Hj.
  destruct i as [|i]; [|lia]. destruct j as [|[|j]]; [lia| |lia].
  vm_compute. reflexivity.
Defined.

Section CachedOnceFacts.
Context `{Shapely}.

Lemma Wall_polygon_cached_once (pts : list Coord) (w : Wall) :
  wall_cached_once pts w -> wall_cached_once pts (snd (Wall_polygon w)).
Proof.
  intros (Hpts & Hsound & Hcount). unfold Wall_polygon.
  destruct (_polygon w); [done|].
  unfold PlanObject_polygon.
  destruct (cached_polygon (wall_object w)) as [g|] eqn:E; simpl.
  - unfold wall_cached_once. simpl. by rewrite E.
  - unfold wall_cached_once, cache_sound. simpl. repeat split; [done| |lia].
    intros g [= <-]. done.
Qed.

Lemma insert_cached_once (points : list (list Coord)) (walls : list Wall)
    (i : nat) (w : Wall) :
  walls_cached_once points walls ->
  (forall pts, wall_cached_once pts (walls !!! i) -> wall_cached_once pts w) ->
  walls_cached_once points (<[i := w]> walls).
Proof.
  intros [Hlen Hall] Hw. split; [by rewrite length_insert|].
  intros k pts Hk. destruct (decide (k = i)) as [->|Hne].
  - apply lookup_lt_Some in Hk as Hi. rewrite <- Hlen in Hi.
    rewrite list_lookup_total_insert_eq by done. by apply Hw, Hall.
  - rewrite list_lookup_total_insert_ne by done. by apply Hall.
Qed.

Lemma read_polygon_cached_once (points : list (list Coord)) (i : nat)
    (walls : list Wall) :
  walls_cached_once points walls ->
  walls_cached_once points (snd (read_polygon i walls)).
Proof.
  intros Hinv. unfold read_polygon.
  pose proof (fun pts => Wall_polygon_cached_once pts (walls !!! i)) as Hw.
  destruct (Wall_polygon (walls !!! i)) as [g w]. simpl in *.
  by apply insert_cached_once.
Qed.

Lemma write_polygon_cached_once (points : list (list Coord)) (i : nat)
    (v : option Geometry) (walls : list Wall) :
  walls_cached_once points walls ->
  walls_cached_once points (write_polygon i v walls).
Proof.
  intros Hinv. unfold write_polygon. by apply insert_cached_once.
Qed.

Lemma remove_overlaps_cached_once (points : list (list Coord))
    (self other_wall : nat) (clean_overlaps_only : bool) (walls : list Wall) :
  walls_cached_once points walls ->
  walls_cached_once points
    (snd (remove_overlaps self other_wall clean_overlaps_only walls)).
Proof.
  intros Hinv. unfold remove_overlaps.
  pose proof (read_polygon_cached_once points self walls Hinv) as H1.
  destruct (read_polygon self walls) as [A walls1]. simpl in H1.
  pose proof (read_polygon_cached_once points other_wall walls1 H1) as H2.
  destruct (read_polygon other_wall walls1) as [B walls2]. simpl in H2.
  destruct (relate_pattern A B overlap_pattern); [|done].
  destruct (subtract_cleanly A B CLOSE_EDGE_TOLERANCE) as [[d|]|e]; simpl;
    [by apply write_polygon_cached_once | | done].
  destruct (subtract_cleanly B A CLOSE_EDGE_TOLERANCE) as [[d|]|e]; simpl;
    [by apply write_polygon_cached_once | | done].
  destruct clean_overlaps_only; simpl; [done|].
  by apply write_polygon_cached_once.
Qed.

Lemma resolution_round_cached_once (points : list (list Coord))
    (pairs : list (nat * nat)) :
  forall (acc : list (nat * nat)) (walls : list Wall),
    walls_cached_once points walls ->
    walls_cached_once points (snd (resolution_round pairs acc walls)).
Proof.
  induction pairs as [|[a b] rest IH]; intros acc walls Hinv; simpl; [done|].
  pose proof (remove_overlaps_cached_once points a b true walls Hinv) as H1.
  destruct (remove_overlaps a b true walls) as [[r|e] walls1]; simpl in H1;
    [by apply IH | done].
Qed.

Lemma forced_resolution_cached_once (points : list (list Coord))
    (pairs : list (nat * nat)) :
  forall walls : list Wall,
    walls_cached_once points walls ->
    walls_cached_once points (snd (forced_resolution pairs walls)).
Proof.
  induction pairs as [|[a b] rest IH]; intros walls Hinv; simpl; [done|].
  pose proof (remove_overlaps_cached_once points a b false walls Hinv) as H1.
  destruct (remove_overlaps a b false walls) as [[r|e] walls1]; simpl in H1;
    [by apply IH | done].
Qed.

Lemma resolution_loop_cached_once (points : list (list Coord)) (fuel : nat) :
  forall (pairs : list (nat * nat)) (walls : list Wall),
    walls_cached_once points walls ->
    match resolution_loop fuel pairs walls with
    | Some (_, walls') => walls_cached_once points walls'
    | None => True
    end.
Proof.
  induction fuel as [|fuel IH]; intros pairs walls Hinv; simpl; [done|].
  pose proof (resolution_round_cached_once points pairs [] walls Hinv) as H1.
  destruct (resolution_round pairs [] walls) as [[retry|e] walls1]; simpl in H1;
    [|done].
  destruct (length retry =? 0); [done|].
  destruct (length retry =? length pairs).
  - pose proof (forced_resolution_cached_once points retry walls1 H1) as H2.
    by destruct (forced_resolution retry walls1).
  - by apply IH.
Qed.

Lemma new_walls_cached_once (points : list (list Coord)) :
  walls_cached_once points (map new_Wall points).
Proof.
  split; [by rewrite length_map|].
  intros k pts Hk.
  rewrite (list_lookup_total_correct (map new_Wall points) k (new_Wall pts))
    by (by rewrite list_lookup_fmap, Hk).
  repeat split. intros g Hg. discriminate Hg.
Qed.

(** X8: overlap resolution never recomputes a wall's polygon from its
    points.  For walls fresh from their constructor, in the state
    remove_wall_overlaps ends in, however it ends, every wall still has
    its own points, polygon_from_points has run at most once for it, and
    its cache holds what polygon_from_points returns on its points. *)
Theorem remove_wall_overlaps_computes_once (points : list (list Coord))
    (fuel : nat) :
  match remove_wall_overlaps fuel (map new_Wall points) with
  | Some (_, walls') =>
      length walls' = length points
      /\ forall k pts, points !! k = Some pts ->
           element_points (wall_object (walls' !!! k)) = pts
           /\ computations (wall_object (walls' !!! k)) <= 1
           /\ cache_sound (wall_object (walls' !!! k))
  | None => True
  end.
Proof.
  pose proof (resolution_loop_cached_once points fuel
                (wall_pairs (map new_Wall points)) (map new_Wall points)
                (new_walls_cached_once points)) as Hinv.
  unfold remove_wall_overlaps.
  destruct (resolution_loop fuel _ _) as [[r walls']|]; [|done].
  destruct Hinv as [Hlen Hall]. split; [done|].
  intros k pts Hk. destruct (Hall k pts Hk) as (Hpts & Hsound & Hcount).
  repeat split; [done| |done].
  rewrite Hcount. destruct (cached_polygon _); lia.
Qed.

End CachedOnceFacts.

Section OneFactFacts.
Context `{Shapely}.
Variable fp : FloorPlan.

Lemma add_adjacency_no_empty (self object : Entity) (info : Fact) (s : AdjState) :
  no_empty_entry s -> no_empty_entry (add_adjacency fp self object info s).
Proof.
  intros Hne a b. rewrite facts_add_adjacency. case_decide; [|apply Hne].
  intros [= Heq]. by destruct (default [] (facts s self object)).
Qed.

Lemma find_adjacencies_no_empty (self : Entity) (others : list Entity) :
  forall s : AdjState,
    no_empty_entry s -> no_empty_entry (snd (find_adjacencies fp self others s)).
Proof.
  induction others as [|other rest IH]; intros s Hne;
    cbn [find_adjacencies]; [done|].
  destruct (intersection (polygon_of fp self) (polygon_of fp other));
    try (by apply IH; do 2 apply add_adjacency_no_empty);
    (destruct (_is_close (polygon_of fp self) (polygon_of fp other)) as [[|]|];
     [by apply IH; do 2 apply add_adjacency_no_empty | by apply IH | done]).
Qed.

(* The two calls for a pair not visited before give it its one fact. *)
Lemma add_both_within (visited : Entity -> Entity -> Prop) (self other : Entity)
    (info : Fact) (s : AdjState) :
  self <> other -> ~ visited self other -> ~ visited other self ->
  facts_within visited s ->
  facts_within
    (fun a b => visited a b \/ (a = self /\ b = other) \/ (b = self /\ a = other))
    (add_adjacency fp other self info (add_adjacency fp self other info s)).
Proof.
  intros Hne Hso Hos Hin a b. rewrite !facts_add_adjacency.
  destruct (Hin a b) as [Hlen Hvis].
  destruct (Hin self other) as [_ Hvso]. destruct (Hin other self) as [_ Hvos].
  assert (Eso : default [] (facts s self other) = []).
  { destruct (default [] (facts s self other)); [done|]. exfalso. by apply Hso, Hvso. }
  assert (Eos : default [] (facts s other self) = []).
  { destruct (default [] (facts s other self)); [done|]. exfalso. by apply Hos, Hvos. }
  repeat case_decide; destruct_and?; subst; simpl; rewrite ?Eso, ?Eos; simpl;
    try (split; [lia | tauto]); try congruence.
Qed.

Lemma find_adjacencies_within (self : Entity) (others : list Entity) :
  forall (visited : Entity -> Entity -> Prop) (s : AdjState),
    NoDup others -> self ∉ others ->
    (forall o, o ∈ others -> ~ visited self o /\ ~ visited o self) ->
    facts_within visited s ->
    facts_within
      (fun a b => visited a b \/ (a = self /\ b ∈ others) \/ (b = self /\ a ∈ others))
      (snd (find_adjacencies fp self others s)).
Proof.
  induction others as [|other rest IH]; intros visited s Hnd Hself Hnew Hin.
  - simpl. intros a b. destruct (Hin a b). split; [done|]. tauto.
  - apply NoDup_cons in Hnd as [Hother Hnd].
    apply not_elem_of_cons in Hself as [Hne Hself].
    assert (Hweak : forall s1,
      facts_within
        (fun a b => visited a b \/ (a = self /\ b = other) \/ (b = self /\ a = other)) s1 ->
      facts_within
        (fun a b => visited a b \/ (a = self /\ b ∈ other :: rest)
                    \/ (b = self /\ a ∈ other :: rest))
        (snd (find_adjacencies fp self rest s1))).
    { intros s1 H1.
      assert (Hfresh : forall o, o ∈ rest ->
                ~ (visited self o \/ (self = self /\ o = other) \/ (o = self /\ self = other))
                /\ ~ (visited o self \/ (o = self /\ self = other) \/ (self = self /\ o = other))).
      { intros o Ho. destruct (Hnew o) as [Hn1 Hn2]; [by right|].
        split; intros [?|[[? ?]|[? ?]]]; subst; tauto. }
      pose proof (IH (fun a b => visited a b \/ (a = self /\ b = other)
                                 \/ (b = self /\ a = other)) s1 Hnd Hself Hfresh H1)
        as Hrest.
      intros a b. destruct (Hrest a b) as [Hl Hv].
      split; [done|]. intros Hne0. apply Hv in Hne0.
      destruct Hne0 as [[?|[[? ?]|[? ?]]]|[[? ?]|[? ?]]]; subst;
        rewrite ?elem_of_cons; tauto. }
    assert (Hskip : facts_within
        (fun a b => visited a b \/ (a = self /\ b = other) \/ (b = self /\ a = other)) s).
    { intros a b. destruct (Hin a b). split; [done|]. tauto. }
    destruct (Hnew other) as [Hn1 Hn2]; [left|].
    pose proof (fun info => add_both_within visited self other info s Hne Hn1 Hn2 Hin)
      as Hboth.
    cbn [find_adjacencies].
    destruct (intersection (polygon_of fp self) (polygon_of fp other));
      try (by apply Hweak, Hboth);
      (destruct (_is_close (polygon_of fp self) (polygon_of fp other)) as [[|]|];
       [ by apply Hweak, Hboth | by apply Hweak | ]).
    all: simpl; intros a b; destruct (Hin a b); split; [done | tauto].
Qed.

End OneFactFacts.

Lemma facts_within_weaken (V W : Entity -> Entity -> Prop) (s : AdjState) :
  (forall a b, V a b -> W a b) -> facts_within V s -> facts_within W s.
Proof.
  intros HVW HV a b. destruct (HV a b) as [Hl Hv]. split; [done|]. auto.
Qed.

Lemma visited_before_fresh (r : nat) (o : Entity) :
  compared_with r o ->
  ~ visited_before r (ERoom r) o /\ ~ visited_before r o (ERoom r).
Proof.
  intros Hc.
  split; intros (i & Hi & [[Ha Hb] | [Ha Hb]]); simplify_eq; simpl in *; lia.
Qed.

Lemma visiting_done (r : nat) (compared : list Entity) (a b : Entity) :
  (forall o, o ∈ compared -> compared_with r o) ->
  visiting r compared a b -> visited_before (S r) a b.
Proof.
  intros Hall [(i & Hi & Hv) | [[-> Hb] | [-> Ha]]].
  - exists i. split; [lia | done].
  - exists r. split; [lia|]. left. auto.
  - exists r. split; [lia|]. right. auto.
Qed.

Lemma facts_initial (a b : Entity) : facts initial_AdjState a b = None.
Proof.
  unfold facts, table. simpl. rewrite lookup_total_empty. apply lookup_empty.
Qed.

Section OneFactPass.
Context `{Shapely}.
Variable fp : FloorPlan.

Lemma find_adjacencies_room_step (r : nat) (compared others : list Entity)
    (s : AdjState) :
  NoDup others ->
  (forall o, o ∈ others -> compared_with r o /\ o ∉ compared) ->
  facts_within (visiting r compared) s ->
  facts_within (visiting r (compared ++ others))
    (snd (find_adjacencies fp (ERoom r) others s)).
Proof.
  intros Hnd Hothers Hin.
  eapply facts_within_weaken;
    [|apply (find_adjacencies_within fp (ERoom r) others (visiting r compared) s)];
    try done.
  - intros a b [[Hv | Hv] | [[-> Hb] | [-> Ha]]]; unfold visiting;
      rewrite ?elem_of_app; tauto.
  - intros Hself. apply Hothers in Hself as [Hc _]. simpl in Hc. lia.
  - intros o Ho. destruct (Hothers o Ho) as [Hc Hnot].
    destruct (visited_before_fresh r o Hc) as [Hf1 Hf2].
    split; intros [Hv | [[Hv1 Hv2] | [Hv1 Hv2]]]; try tauto;
      subst; simpl in Hc; lia.
Qed.

Lemma room_adjacencies_within (r : nat) (s : AdjState) :
  facts_within (visited_before r) s ->
  facts_within (visited_before (S r)) (snd (room_adjacencies fp r s)).
Proof.
  intros Hin.
  assert (H0 : facts_within (visiting r []) s).
  { eapply facts_within_weaken; [|exact Hin]. intros a b Hv. by left. }
  assert (Hw : NoDup (walls_of fp)).
  { apply NoDup_fmap_2; [intros ? ? [=]; done | apply NoDup_seq]. }
  assert (Hl : NoDup (railings_of fp)).
  { apply NoDup_fmap_2; [intros ? ? [=]; done | apply NoDup_seq]. }
  assert (Hr : NoDup (rooms_after fp r)).
  { apply NoDup_fmap_2; [intros ? ? [=]; done | apply NoDup_seq]. }
  assert (Cw : forall o, o ∈ walls_of fp -> exists w, o = EWall w).
  { intros o Ho. apply list_elem_of_fmap in Ho as (w & -> & _). eauto. }
  assert (Cl : forall o, o ∈ railings_of fp -> exists w, o = ERailing w).
  { intros o Ho. apply list_elem_of_fmap in Ho as (w & -> & _). eauto. }
  assert (Cr : forall o, o ∈ rooms_after fp r -> exists j, o = ERoom j /\ r < j).
  { intros o Ho. apply list_elem_of_fmap in Ho as (j & -> & Hj).
    apply elem_of_seq in Hj. exists j. split; [done | lia]. }
  assert (Hall : forall D, (forall o, o ∈ D -> compared_with r o) ->
            forall s1, facts_within (visiting r D) s1 ->
                       facts_within (visited_before (S r)) s1).
  { intros D HD s1 H1. eapply facts_within_weaken; [|exact H1].
    intros a b. by apply visiting_done. }
  unfold room_adjacencies.
  pose proof (find_adjacencies_room_step r [] (walls_of fp) s Hw) as H1.
  simpl in H1.
  assert (H1' : facts_within (visiting r (walls_of fp))
                  (snd (find_adjacencies fp (ERoom r) (walls_of fp) s))).
  { apply H1; [|done]. intros o Ho. destruct (Cw o Ho) as [w ->].
    split; [done | apply not_elem_of_nil]. }
  assert (Dw : forall o, o ∈ walls_of fp -> compared_with r o).
  { intros o Ho. by destruct (Cw o Ho) as [w ->]. }
  destruct (find_adjacencies fp (ERoom r) (walls_of fp) s) as [[e|] s1];
    simpl in H1'; [by apply (Hall (walls_of fp))|].
  assert (H2 : facts_within (visiting r (walls_of fp ++ railings_of fp))
                 (snd (find_adjacencies fp (ERoom r) (railings_of fp) s1))).
  { apply find_adjacencies_room_step; [done | | done].
    intros o Ho. destruct (Cl o Ho) as [w ->]. split; [done|].
    intros Hin'. destruct (Cw _ Hin') as [w' [=]]. }
  assert (Dl : forall o, o ∈ walls_of fp ++ railings_of fp -> compared_with r o).
  { intros o Ho. apply elem_of_app in Ho as [Ho | Ho]; [by apply Dw|].
    by destruct (Cl o Ho) as [w ->]. }
  destruct (find_adjacencies fp (ERoom r) (railings_of fp) s1) as [[e|] s2];
    simpl in H2; [by apply (Hall (walls_of fp ++ railings_of fp))|].
  apply (Hall ((walls_of fp ++ railings_of fp) ++ rooms_after fp r)).
  - intros o Ho. apply elem_of_app in Ho as [Ho | Ho]; [by apply Dl|].
    destruct (Cr o Ho) as (j & -> & Hj). done.
  - apply find_adjacencies_room_step; [done | | done].
    intros o Ho. destruct (Cr o Ho) as (j & -> & Hj). split; [done|].
    intros Hin'. apply elem_of_app in Hin' as [Hin' | Hin'].
    + destruct (Cw _ Hin') as [w' [=]].
    + destruct (Cl _ Hin') as [w' [=]].
Qed.

Lemma rooms_loop_within (n : nat) :
  forall (start : nat) (s : AdjState),
    facts_within (visited_before start) s ->
    facts_within (visited_before (start + n))
      (snd (rooms_loop fp (seq start n) s)).
Proof.
  induction n as [|n IH]; intros start s Hin; simpl.
  - by rewrite Nat.add_0_r.
  - pose proof (room_adjacencies_within start s Hin) as H1.
    destruct (room_adjacencies fp start s) as [[e|] s1]; simpl in H1.
    + eapply facts_within_weaken; [|exact H1].
      intros a b (i & Hi & Hv). exists i. split; [lia | done].
    + replace (start + S n) with (S start + n) by lia. by apply IH.
Qed.

Lemma rooms_loop_no_empty (room_indexes : list nat) :
  forall s : AdjState,
    no_empty_entry s -> no_empty_entry (snd (rooms_loop fp room_indexes s)).
Proof.
  induction room_indexes as [|r rest IH]; intros s Hne; simpl; [done|].
  assert (H1 : no_empty_entry (snd (room_adjacencies fp r s))).
  { unfold room_adjacencies.
    pose proof (find_adjacencies_no_empty fp (ERoom r) (walls_of fp) s Hne) as Hw.
    destruct (find_adjacencies fp (ERoom r) (walls_of fp) s) as [[e|] s1];
      [exact Hw|]. simpl in Hw.
    pose proof (find_adjacencies_no_empty fp (ERoom r) (railings_of fp) s1 Hw) as Hl.
    destruct (find_adjacencies fp (ERoom r) (railings_of fp) s1) as [[e|] s2];
      [exact Hl|]. simpl in Hl.
    by apply find_adjacencies_no_empty. }
  destruct (room_adjacencies fp r s) as [[e|] s1]; [exact H1|].
  by apply IH.
Qed.

(** X9: in the state one adjacency pass of a floor reaches from empty
    tables, every table entry holds exactly one fact, no object has an
    entry for itself, and every entry has a room of the floor on one side,
    the other side being a wall, a railing or a room of greater index. *)
Theorem one_fact_per_pair (a b : Entity) (l : list Fact) :
  facts (snd (Floor_find_adjacencies fp initial_AdjState)) a b = Some l ->
  length l = 1 /\ a <> b
  /\ exists i, i < n_rooms fp
       /\ ((a = ERoom i /\ compared_with i b) \/ (b = ERoom i /\ compared_with i a)).
Proof.
  intros Hl.
  pose proof (rooms_loop_within (n_rooms fp) 0 initial_AdjState) as Hin.
  pose proof (rooms_loop_no_empty (seq 0 (n_rooms fp)) initial_AdjState) as Hne.
  fold (Floor_find_adjacencies fp initial_AdjState) in Hin, Hne.
  destruct (Hin) with (a := a) (b := b) as [Hlen Hvis].
  { intros x y. rewrite facts_initial. simpl. split; [lia | done]. }
  specialize (Hne ltac:(intros x y; by rewrite facts_initial) a b).
  rewrite Hl in Hlen, Hvis, Hne. simpl in *.
  destruct l as [|f l]; [done|]. simpl in Hlen.
  split; [destruct l; simpl in *; [done | lia]|].
  destruct Hvis as (i & Hi & Hv); [done|].
  split; [|exists i; split; [lia | done]].
  intros ->. destruct Hv as [[-> Hc] | [-> Hc]]; simpl in Hc; lia.
Qed.

End OneFactPass.

Lemma one_fact_per_pair_witness :
  length [Some (GLineString [(10%Q, 0%Q); (10%Q, 10%Q)])] = 1
  /\ EWall 0 <> ERoom 0
  /\ exists i, i < n_rooms wedge_floor
       /\ ((EWall 0 = ERoom i /\ compared_with i (ERoom 0))
           \/ (ERoom 0 = ERoom i /\ compared_with i (EWall 0))).
Proof.
  apply (@one_fact_per_pair wedge_shapely wedge_floor).
  vm_compute. reflexivity.
Defined.

Section ConnectedRoomsFacts.
Context `{Shapely}.
Variable fp : FloorPlan.

Lemma check_adjacencies_listed (kind : OpeningKind) (o' : Opening) (r' : nat)
    (s : AdjState) :
  wall_openings fp (fst o') !! snd o' = Some kind ->
  doors_listed fp s -> doors_listed fp (check_adjacencies fp kind o' r' s).
Proof.
  intros Hkind Hl. unfold check_adjacencies.
  destruct (Qltb _ _); [|done].
  intros o r Ho.
  unfold Opening_add_adjacency in *. destruct kind; simpl in *.
  - rewrite lookup_total_insert in Ho. case_decide as Hr.
    + subst r'. apply elem_of_union in Ho as [Ho | Ho].
      * destruct (Hl o r Ho) as [Hd Hin]. split; [done|].
        rewrite lookup_total_insert. case_decide; [subst|done].
        apply elem_of_app. by left.
      * apply elem_of_singleton in Ho. subst o'. split; [done|].
        rewrite lookup_total_insert_eq. apply elem_of_app. right. left.
    + destruct (Hl o r Ho) as [Hd Hin]. split; [done|].
      rewrite lookup_total_insert. case_decide; [subst|done].
      apply elem_of_app. by left.
  - destruct (Hl o r Ho) as [Hd Hin]. split; [done|].
    rewrite lookup_total_insert. case_decide; [subst|done].
    apply elem_of_app. by left.
Qed.

Lemma check_openings_listed (wall : nat) (kinds : list OpeningKind) (r : nat) :
  forall (k : nat) (s : AdjState),
    (forall j kind, kinds !! j = Some kind ->
                    wall_openings fp wall !! (k + j) = Some kind) ->
    doors_listed fp s ->
    doors_listed fp (check_openings fp wall k kinds r s).
Proof.
  induction kinds as [|kind rest IH]; intros k s Hkinds Hl; simpl; [done|].
  apply IH.
  - intros j kind' Hj. replace (S k + j) with (k + S j) by lia.
    by apply Hkinds.
  - apply check_adjacencies_listed; [|done]. simpl.
    rewrite <- (Nat.add_0_r k). by apply Hkinds.
Qed.

Lemma add_adjacency_listed (self object : Entity) (info : Fact) (s : AdjState) :
  doors_listed fp s -> doors_listed fp (add_adjacency fp self object info s).
Proof.
  intros Hl. unfold add_adjacency.
  destruct self as [i|w|i], object as [r|j|j]; try exact Hl.
  apply check_openings_listed; [|exact Hl].
  intros j kind Hj. exact Hj.
Qed.

Lemma find_adjacencies_listed (self : Entity) (others : list Entity) :
  forall s : AdjState,
    doors_listed fp s -> doors_listed fp (snd (find_adjacencies fp self others s)).
Proof.
  induction others as [|other rest IH]; intros s Hl;
    cbn [find_adjacencies]; [done|].
  destruct (intersection (polygon_of fp self) (polygon_of fp other));
    try (by apply IH; do 2 apply add_adjacency_listed);
    (destruct (_is_close (polygon_of fp self) (polygon_of fp other)) as [[|]|];
     [by apply IH; do 2 apply add_adjacency_listed | by apply IH | done]).
Qed.

Lemma rooms_loop_listed (room_indexes : list nat) :
  forall s : AdjState,
    doors_listed fp s -> doors_listed fp (snd (rooms_loop fp room_indexes s)).
Proof.
  induction room_indexes as [|r rest IH]; intros s Hl; simpl; [done|].
  assert (H1 : doors_listed fp (snd (room_adjacencies fp r s))).
  { unfold room_adjacencies.
    pose proof (find_adjacencies_listed (ERoom r) (walls_of fp) s Hl) as Hw.
    destruct (find_adjacencies fp (ERoom r) (walls_of fp) s) as [[e|] s1];
      [exact Hw|]. simpl in Hw.
    pose proof (find_adjacencies_listed (ERoom r) (railings_of fp) s1 Hw) as Hr.
    destruct (find_adjacencies fp (ERoom r) (railings_of fp) s1) as [[e|] s2];
      [exact Hr|]. simpl in Hr.
    by apply find_adjacencies_listed. }
  destruct (room_adjacencies fp r s) as [[e|] s1]; [exact H1|].
  by apply IH.
Qed.

(* One direction of the symmetry, in any state with both invariants. *)
Lemma connected_rooms_back (s : AdjState) (r1 r2 : nat) :
  doors_listed fp s -> doors_reciprocal fp s ->
  r2 ∈ connected_rooms s r1 -> r1 ∈ connected_rooms s r2.
Proof.
  intros Hl Hrec Hin. unfold connected_rooms in *.
  apply list_elem_of_omap in Hin as (d & Hd & Hother).
  apply elem_of_elements in Hd. destruct (Hl d r1 Hd) as [Hdoor Hr1].
  destruct (opening_rooms s !!! d) as [|a [|b [|c rest]]] eqn:Erooms;
    try discriminate.
  assert (Hd2 : d ∈ room_doors s !!! r2).
  { apply Hrec; [done|]. rewrite Erooms.
    injection Hother as <-. case_decide; set_unfold; tauto. }
  apply list_elem_of_omap. exists d. split; [by apply elem_of_elements|].
  rewrite Erooms. f_equal. injection Hother as <-.
  set_unfold. repeat case_decide; subst; try done; destruct Hr1 as [?|[?|?]]; try done;
    congruence.
Qed.

(** X10: in the state the adjacency pass of a floor reaches from a fresh
    one, being connected by a door is symmetric: room r2 is among
    connected_rooms() of room r1 exactly when r1 is among those of r2.
    Every door of a room's door set is a Door whose room list holds that
    room. *)
Theorem connected_rooms_symmetric (r1 r2 : nat) :
  let s' := snd (Floor_find_adjacencies fp initial_AdjState) in
  (r2 ∈ connected_rooms s' r1 <-> r1 ∈ connected_rooms s' r2)
  /\ doors_listed fp s'.
Proof.
  simpl.
  assert (Hl : doors_listed fp (snd (Floor_find_adjacencies fp initial_AdjState))).
  { apply rooms_loop_listed. intros o r Ho. simpl in Ho.
    rewrite lookup_total_empty in Ho. by apply not_elem_of_empty in Ho. }
  assert (Hrec : doors_reciprocal fp (snd (Floor_find_adjacencies fp initial_AdjState)))
    by apply rooms_loop_reciprocal, initial_reciprocal.
  split; [|exact Hl].
  split; by apply connected_rooms_back.
Qed.

End ConnectedRoomsFacts.

Section FindInsideFacts.
Context `{Shapely}.
Variable fixture_polygon : nat -> Geometry.
Variable room_polygon : nat -> Geometry.

Local Abbreviation find_rooms := (find_rooms fixture_polygon room_polygon).
Local Abbreviation first_room := (first_room fixture_polygon room_polygon).
Local Abbreviation assigned := (assigned fixture_polygon room_polygon).

Lemma find_rooms_first_room (fixture : nat) (rooms : list nat) (s : FixtureState) :
  find_rooms fixture rooms s
  = match first_room fixture rooms with
    | Some room => add_room fixture room s
    | None => s
    end.
Proof.
  unfold first_room. induction rooms as [|r rooms IH]; simpl; [done|].
  by destruct (fixture_in_room fixture_polygon room_polygon fixture r).
Qed.

Lemma add_room_fixture_rooms (fixture room : nat) (s : FixtureState) (f r : nat) :
  r ∈ fixture_rooms (add_room fixture room s) !!! f
  <-> r ∈ fixture_rooms s !!! f \/ (f = fixture /\ r = room).
Proof.
  unfold add_room. simpl. rewrite lookup_total_insert.
  case_decide; [subst; rewrite elem_of_union, elem_of_singleton|]; intuition congruence.
Qed.

Lemma add_room_room_fixtures (fixture room : nat) (s : FixtureState) (f r : nat) :
  f ∈ room_fixtures (add_room fixture room s) !!! r
  <-> f ∈ room_fixtures s !!! r \/ (f = fixture /\ r = room).
Proof.
  unfold add_room. simpl. rewrite lookup_total_insert.
  case_decide; [subst; rewrite elem_of_union, elem_of_singleton|]; intuition congruence.
Qed.

Lemma find_rooms_assigned (rooms done : list nat) (fixture : nat) (s : FixtureState) :
  assigned rooms done s ->
  assigned rooms (done ++ [fixture]) (find_rooms fixture rooms s).
Proof.
  intros Ha f r. destruct (Ha f r) as [H1 H2].
  rewrite find_rooms_first_room.
  destruct (first_room fixture rooms) as [room|] eqn:E.
  - rewrite add_room_fixture_rooms, add_room_room_fixtures, H1, H2.
    rewrite elem_of_app, list_elem_of_singleton.
    assert (Hiff : (f ∈ done /\ first_room f rooms = Some r) \/ (f = fixture /\ r = room)
                   <-> (f ∈ done \/ f = fixture) /\ first_room f rooms = Some r).
    { split.
      - intros [[Hd Hf] | [-> ->]]; [split; [by left | done] | split; [by right | done]].
      - intros [[Hd | ->] Hf]; [by left | right; split; [done | congruence]]. }
    split; exact Hiff.
  - rewrite H1, H2, elem_of_app, list_elem_of_singleton.
    assert (Hiff : f ∈ done /\ first_room f rooms = Some r
                   <-> (f ∈ done \/ f = fixture) /\ first_room f rooms = Some r).
    { split.
      - intros [Hd Hf]. split; [by left | done].
      - intros [[Hd | ->] Hf]; [done | congruence]. }
    split; exact Hiff.
Qed.

Lemma find_inside_assigned (rooms fixtures : list nat) :
  forall (done : list nat) (s : FixtureState),
    assigned rooms done s ->
    assigned rooms (done ++ fixtures)
      (find_inside fixture_polygon room_polygon fixtures rooms s).
Proof.
  unfold find_inside.
  induction fixtures as [|f fixtures IH]; intros done s Ha; simpl.
  - by rewrite app_nil_r.
  - replace (done ++ f :: fixtures) with ((done ++ [f]) ++ fixtures)
      by (by rewrite <- app_assoc).
    apply IH. by apply find_rooms_assigned.
Qed.

(** X11: after find_inside on a floor whose fixtures and rooms have no
    links yet, a fixture's room set holds exactly the first room, in floor
    order, that passes the relation test, and is empty when none does or
    when the fixture is not among those processed; so it never holds two
    rooms; and a room's fixture set holds a fixture exactly when the
    fixture's room set holds the room. *)
Theorem find_inside_assigns_first_room (fixtures rooms : list nat)
    (fixture room : nat) :
  let s' := find_inside fixture_polygon room_polygon fixtures rooms no_assignment in
  (room ∈ fixture_rooms s' !!! fixture
   <-> fixture ∈ fixtures /\ first_room fixture rooms = Some room)
  /\ (fixture ∈ room_fixtures s' !!! room <-> room ∈ fixture_rooms s' !!! fixture)
  /\ (forall room', room ∈ fixture_rooms s' !!! fixture ->
                    room' ∈ fixture_rooms s' !!! fixture -> room = room').
Proof.
  simpl.
  assert (Ha : assigned rooms ([] ++ fixtures)
                 (find_inside fixture_polygon room_polygon fixtures rooms no_assignment)).
  { apply find_inside_assigned. intros f r. simpl.
    rewrite !lookup_total_empty.
    split; split; intros Hx; try (by apply not_elem_of_empty in Hx);
      destruct Hx as [Hx _]; by apply not_elem_of_nil in Hx. }
  simpl in Ha. destruct (Ha fixture room) as [H1 H2].
  split; [exact H1|]. split; [by rewrite H1, H2|].
  intros room' Hr Hr'. apply H1 in Hr. apply (Ha fixture room') in Hr'.
  destruct Hr as [_ Hr], Hr' as [_ Hr']. congruence.
Qed.

End FindInsideFacts.

Section ModelsFacts.
Context {Path Model : Type}.
Variable get_model : Path -> Model.

Lemma models_loop_page (paths : list Path) (limit : option Z) (offset : Z) :
  forall limit_count offset_count : Z,
    models_loop get_model paths limit offset limit_count offset_count
    = map get_model
        (take_limit (option_map (fun l => (l - limit_count)%Z) limit)
           (drop (Z.to_nat (offset - offset_count)) paths)).
Proof.
  induction paths as [|path rest IH]; intros lc oc; simpl.
  - rewrite drop_nil. destruct limit; simpl; by rewrite ?take_nil.
  - destruct (Z.ltb_spec oc offset) as [Hlt|Hge].
    + rewrite IH.
      replace (Z.to_nat (offset - oc)) with (S (Z.to_nat (offset - (oc + 1)))) by lia.
      reflexivity.
    + replace (Z.to_nat (offset - oc)) with 0 by lia. simpl.
      destruct limit as [l|]; simpl.
      * destruct (Z.ltb_spec lc l) as [Hl|Hl].
        -- rewrite IH. simpl.
           replace (Z.to_nat (offset - oc)) with 0 by lia. simpl.
           replace (Z.to_nat (l - lc)) with (S (Z.to_nat (l - (lc + 1)))) by lia.
           reflexivity.
        -- by replace (Z.to_nat (l - lc)) with 0 by lia.
      * rewrite IH. simpl.
        replace (Z.to_nat (offset - oc)) with 0 by lia. reflexivity.
Qed.

(** X12: models(limit, offset) yields the models of the paths from
    position offset on, limit of them at most, in the order of paths():
    get_model of paths[offset : offset + limit], or of paths[offset:]
    without a limit; a negative offset skips nothing and a limit of zero
    or less yields nothing. *)
Theorem models_page (paths : list Path) (limit : option Z) (offset : Z) :
  models get_model paths limit offset
  = map get_model (take_limit limit (drop (Z.to_nat offset) paths)).
Proof.
  unfold models. rewrite models_loop_page. rewrite Z.sub_0_r.
  destruct limit as [l|]; simpl; [|done]. by rewrite Z.sub_0_r.
Qed.

End ModelsFacts.

Lemma py_in_elem_of (x : string) (l : list string) :
  py_in x l = true <-> x ∈ l.
Proof.
  unfold py_in. rewrite existsb_exists, list_elem_of_In. split.
  - intros (y & Hy & Heq). apply String.eqb_eq in Heq. by subst.
  - intros Hx. exists x. split; [done | apply String.eqb_refl].
Qed.

Lemma string_eqb_decide (a b : string) :
  String.eqb a b = bool_decide (a = b).
Proof.
  destruct (String.eqb_spec a b); symmetry;
    [by apply bool_decide_eq_true_2 | by apply bool_decide_eq_false_2].
Qed.

Lemma fixture_types_fixed (t : string) :
  t ∈ FIXTURE_TYPES -> simplify_fixture_type [t] = Ok t.
Proof.
  assert (Hall : Forall (fun t => simplify_fixture_type [t] = Ok t) FIXTURE_TYPES)
    by (repeat constructor).
  rewrite Forall_forall in Hall. apply Hall.
Qed.

(** X13: simplify_fixture_type raises IndexError on an empty list of
    classes; on any other it returns a member of FIXTURE_TYPES or "Other";
    every member of FIXTURE_TYPES, and "Other", comes back unchanged when
    it is the only class, so simplifying a simplified type changes
    nothing. *)
Theorem simplify_fixture_type_spec :
  simplify_fixture_type [] = Raise IndexError
  /\ (forall (c : string) (cs : list string),
        exists t, simplify_fixture_type (c :: cs) = Ok t
                  /\ (t ∈ FIXTURE_TYPES \/ t = "Other"%string)
                  /\ simplify_fixture_type [t] = Ok t)
  /\ (forall t, t ∈ FIXTURE_TYPES -> simplify_fixture_type [t] = Ok t).
Proof.
  split; [reflexivity|]. split; [|exact fixture_types_fixed].
  intros c cs. unfold simplify_fixture_type at 1.
  set (t := sub_suffix fixture_type_suffixes _).
  destruct (py_in t FIXTURE_TYPES) eqn:E.
  - apply py_in_elem_of in E. exists t.
    split; [done|]. split; [by left | by apply fixture_types_fixed].
  - exists "Other"%string. split; [done|]. split; [by right | reflexivity].
Qed.

(** X14: for an element with at most one class, Room.simple_type,
    Room.is_outdoor and Fixture.simple_type raise IndexError, types being
    empty; with two or more, Room.simple_type returns a member of
    ROOM_TYPES, the second class or "Other", Room.is_outdoor is True
    exactly when that simple type is "Outdoor", and Fixture.simple_type
    returns a member of FIXTURE_TYPES or "Other". *)
Theorem simple_types_spec (classes : list string) :
  (length classes <= 1 ->
   Room_simple_type classes = Raise IndexError
   /\ is_outdoor classes = Raise IndexError
   /\ Fixture_simple_type classes = Raise IndexError)
  /\ (2 <= length classes ->
      exists t f,
        Room_simple_type classes = Ok t /\ t ∈ ROOM_TYPES
        /\ is_outdoor classes = Ok (bool_decide (t = "Outdoor"%string))
        /\ Fixture_simple_type classes = Ok f
        /\ (f ∈ FIXTURE_TYPES \/ f = "Other"%string)).
Proof.
  split.
  - intros Hlen. destruct classes as [|c0 [|c1 rest]]; simpl in Hlen; try lia; done.
  - intros Hlen. destruct classes as [|c0 [|c1 rest]]; simpl in Hlen; try lia.
    destruct (proj1 (proj2 simplify_fixture_type_spec) c1 rest) as (f & Hf & Hin & _).
    unfold Room_simple_type, is_outdoor, Fixture_simple_type.
    change (types (c0 :: c1 :: rest)) with (c1 :: rest). cbv beta iota.
    destruct (py_in c1 ROOM_TYPES) eqn:E.
    + exists c1, f. apply py_in_elem_of in E. repeat split; try done.
      f_equal. apply string_eqb_decide.
    + exists "Other"%string, f. repeat split; try done.
      * apply py_in_elem_of. reflexivity.
      * f_equal. rewrite string_eqb_decide.
        destruct (decide (c1 = "Outdoor"%string)) as [->|Hne]; [discriminate E|].
        by rewrite bool_decide_eq_false_2.
Qed.

Lemma simple_types_spec_witness :
  exists t f,
    Room_simple_type ["Space"; "Kitchen"]%string = Ok t /\ t ∈ ROOM_TYPES
    /\ is_outdoor ["Space"; "Kitchen"]%string = Ok (bool_decide (t = "Outdoor"%string))
    /\ Fixture_simple_type ["Space"; "Kitchen"]%string = Ok f
    /\ (f ∈ FIXTURE_TYPES \/ f = "Other"%string).
Proof.
  apply (proj2 (simple_types_spec ["Space"; "Kitchen"]%string)). simpl. lia.
Defined.

Lemma append_cons (c : Ascii.ascii) (s t : string) :
  (String c s +:+ t)%string = String c (s +:+ t).
Proof. reflexivity. Qed.

Lemma append_nil_r (s : string) : (s +:+ "")%string = s.
Proof. induction s as [|c s IH]; [done|]. rewrite append_cons. by f_equal. Qed.

Lemma append_assoc (s1 s2 s3 : string) :
  ((s1 +:+ s2) +:+ s3)%string = (s1 +:+ (s2 +:+ s3))%string.
Proof.
  induction s1 as [|c s1 IH]; [done|]. rewrite !append_cons. by f_equal.
Qed.

(* Reading a label moves it into the piece being read. *)
Lemma split_whitespace_label (t : string) :
  whitespace_free t = true -> t <> EmptyString ->
  forall (s cur : string) (after_ws : bool),
    split_whitespace_from (t +:+ s) cur after_ws
    = split_whitespace_from s (cur +:+ t) false.
Proof.
  induction t as [|c t IH]; intros Hfree Hne s cur b; [done|].
  simpl in Hfree. apply andb_true_iff in Hfree as [Hc Hfree].
  apply negb_true_iff in Hc. rewrite append_cons.
  cbn [split_whitespace_from]. rewrite Hc.
  destruct t as [|c' t'].
  - reflexivity.
  - rewrite IH by done. rewrite append_assoc. reflexivity.
Qed.

Lemma split_whitespace_join (labels : list string) :
  labels <> [] -> Forall is_label labels ->
  forall after_ws : bool,
    split_whitespace_from (join_spaces labels) EmptyString after_ws = labels.
Proof.
  induction labels as [|t rest IH]; intros Hne Hall b; [done|].
  apply Forall_cons in Hall as [[Ht Hfree] Hall].
  destruct rest as [|t2 rest].
  - cbn [join_spaces].
    replace (split_whitespace_from t "" b)
      with (split_whitespace_from (t +:+ "") "" b) by (by rewrite append_nil_r).
    rewrite split_whitespace_label by done. reflexivity.
  - change (join_spaces (t :: t2 :: rest))
      with (t +:+ (String space_char (join_spaces (t2 :: rest))))%string.
    rewrite split_whitespace_label by done.
    cbn [split_whitespace_from]. change (is_whitespace space_char) with true.
    cbv iota. f_equal. by apply IH.
Qed.

Lemma lstrip_label_start (c : Ascii.ascii) (s : string) :
  is_whitespace c = false -> lstrip (String c s) = String c s.
Proof. intros Hc. simpl. by rewrite Hc. Qed.

Lemma rstrip_append_label (t : string) :
  whitespace_free t = true -> t <> EmptyString ->
  forall s : string, rstrip (s +:+ t) = (s +:+ t)%string.
Proof.
  intros Hfree Hne.
  assert (Ht : rstrip t = t).
  { clear Hne. induction t as [|c t IH]; [done|].
    simpl in Hfree. apply andb_true_iff in Hfree as [Hc Hfree].
    apply negb_true_iff in Hc. simpl. rewrite IH by done.
    rewrite Hc. by destruct t. }
  induction s as [|c s IH]; [exact Ht|].
  rewrite append_cons. cbn [rstrip]. rewrite IH.
  destruct (s +:+ t)%string eqn:E; [|done].
  destruct s; [change ("" +:+ t)%string with t in E; by subst|].
  rewrite append_cons in E. discriminate.
Qed.

Lemma join_spaces_rstrip (labels : list string) :
  Forall is_label labels -> rstrip (join_spaces labels) = join_spaces labels.
Proof.
  induction labels as [|t rest IH]; intros Hall; [done|].
  apply Forall_cons in Hall as [[Ht Hfree] Hall].
  destruct rest as [|t2 rest].
  - cbn [join_spaces]. exact (rstrip_append_label t Hfree Ht EmptyString).
  - change (join_spaces (t :: t2 :: rest))
      with (t +:+ (" " +:+ join_spaces (t2 :: rest)))%string.
    apply Forall_cons in Hall as Hall'. destruct Hall' as [[Ht2 Hfree2] Hrest].
    assert (Hend : exists pre last, join_spaces (t2 :: rest) = (pre +:+ last)%string
                                    /\ whitespace_free last = true
                                    /\ last <> EmptyString).
    { clear IH Ht Hfree Hall. revert t2 Ht2 Hfree2 Hrest.
      induction rest as [|t3 rest IHr]; intros t2 Ht2 Hfree2 Hrest.
      - exists EmptyString, t2. done.
      - apply Forall_cons in Hrest as [[Ht3 Hfree3] Hrest].
        destruct (IHr t3 Ht3 Hfree3 Hrest) as (pre & last & Heq & Hl1 & Hl2).
        exists (t2 +:+ " " +:+ pre)%string, last.
        change (join_spaces (t2 :: t3 :: rest))
          with (t2 +:+ (" " +:+ join_spaces (t3 :: rest)))%string.
        rewrite Heq, !append_assoc. done. }
    destruct Hend as (pre & last & Heq & Hl1 & Hl2).
    rewrite Heq, <- !append_assoc. by apply rstrip_append_label.
Qed.

Lemma split_whitespace_free (s : string) :
  forall (cur : string) (after_ws : bool),
    whitespace_free cur = true ->
    Forall (fun t => whitespace_free t = true) (split_whitespace_from s cur after_ws).
Proof.
  induction s as [|c s IH]; intros cur b Hcur; simpl.
  - by constructor.
  - destruct (is_whitespace c) eqn:Hc.
    + destruct b; [by apply IH|]. constructor; [done | by apply IH].
    + apply IH. clear IH. induction cur as [|c' cur IHc]; simpl.
      * by rewrite Hc.
      * simpl in Hcur. apply andb_true_iff in Hcur as [Hc' Hcur].
        rewrite Hc'. by apply IHc.
Qed.

Lemma lstrip_length (s : string) : String.length (lstrip s) <= String.length s.
Proof.
  induction s as [|c s IH]; simpl; [done|].
  destruct (is_whitespace c); simpl; lia.
Qed.

(* A string lstrip leaves alone does not start with whitespace. *)
Lemma lstrip_fixed_start (c : Ascii.ascii) (s : string) :
  lstrip (String c s) = String c s -> is_whitespace c = false.
Proof.
  simpl. destruct (is_whitespace c); [|done].
  intros Heq. pose proof (lstrip_length s) as Hlen.
  rewrite Heq in Hlen. simpl in Hlen. lia.
Qed.

(* What rstrip leaves alone: its tail is left alone too. *)
Lemma rstrip_fixed_tail (c : Ascii.ascii) (s : string) :
  rstrip (String c s) = String c s ->
  rstrip s = s /\ (s = EmptyString -> is_whitespace c = false).
Proof.
  simpl. destruct (rstrip s) as [|c' r] eqn:E.
  - destruct (is_whitespace c); [discriminate|]. intros [= <-]. done.
  - intros [= <-]. done.
Qed.

Lemma rstrip_rstrip (s : string) : rstrip (rstrip s) = rstrip s.
Proof.
  induction s as [|c s IH]; [done|]. simpl.
  destruct (rstrip s) as [|c' r] eqn:E.
  - destruct (is_whitespace c) eqn:Hc; [done|]. simpl. by rewrite Hc.
  - simpl. simpl in IH. rewrite IH. done.
Qed.

Lemma append_nonempty (cur : string) (c : Ascii.ascii) :
  (cur +:+ String c EmptyString)%string <> EmptyString.
Proof. destruct cur; [done|]. by rewrite append_cons. Qed.

Lemma split_whitespace_nonempty (s : string) :
  forall (cur : string) (after_ws : bool),
    rstrip s = s ->
    (s = EmptyString -> cur <> EmptyString) ->
    (after_ws = false -> cur = EmptyString -> lstrip s = s /\ s <> EmptyString) ->
    Forall (fun t => t <> EmptyString) (split_whitespace_from s cur after_ws).
Proof.
  induction s as [|c s IH]; intros cur b Hr Hcur Hstart; cbn [split_whitespace_from].
  - constructor; [by apply Hcur | constructor].
  - apply rstrip_fixed_tail in Hr as [Hr Hlast].
    destruct (is_whitespace c) eqn:Hc.
    + assert (Hs : s <> EmptyString).
      { intros ->. specialize (Hlast eq_refl). congruence. }
      destruct b.
      * apply IH; [done | done | discriminate].
      * constructor.
        -- intros ->. destruct (Hstart eq_refl eq_refl) as [Hl _].
           apply lstrip_fixed_start in Hl. congruence.
        -- apply IH; [done | done | discriminate].
    + apply IH; [done | |].
      * intros _. apply append_nonempty.
      * intros _ Habs. by apply append_nonempty in Habs.
Qed.

Lemma strip_nonempty_classes (class_str : string) :
  strip class_str <> EmptyString ->
  Forall (fun t => t <> EmptyString) (get_classes (Some class_str)).
Proof.
  intros Hne. unfold get_classes, split_whitespace.
  apply split_whitespace_nonempty; [apply rstrip_rstrip | done |].
  intros _ _. split; [|done]. unfold strip in *.
  assert (Hl : lstrip (lstrip class_str) = lstrip class_str).
  { clear Hne. induction class_str as [|c s IH]; [done|]. simpl.
    destruct (is_whitespace c) eqn:Hc; [exact IH|]. simpl. by rewrite Hc. }
  destruct (lstrip class_str) as [|c l]; [done|].
  apply lstrip_fixed_start in Hl. cbn [rstrip] in *.
  destruct (rstrip l); [|simpl; by rewrite Hl].
  rewrite Hl in *. simpl. by rewrite Hl.
Qed.

(** X15: get_classes returns no class for an element without a class
    attribute and the single empty string for an empty attribute; no
    class it returns holds whitespace, and none is empty when the
    attribute holds a character that is not whitespace; and it reads back
    a list of labels joined by single spaces: for a non-empty list of
    non-empty, whitespace-free labels, get_classes of their join is that
    list. *)
Theorem get_classes_spec :
  get_classes None = []
  /\ get_classes (Some EmptyString) = [EmptyString]
  /\ (forall class_attr : option string,
        Forall (fun t => whitespace_free t = true) (get_classes class_attr))
  /\ (forall class_str : string,
        strip class_str <> EmptyString ->
        Forall (fun t => t <> EmptyString) (get_classes (Some class_str)))
  /\ (forall labels : list string,
        labels <> [] -> Forall is_label labels ->
        get_classes (Some (join_spaces labels)) = labels).
Proof.
  split; [reflexivity|]. split; [reflexivity|]. split; [|split].
  - intros [class_str|]; simpl; [|constructor].
    by apply split_whitespace_free.
  - exact strip_nonempty_classes.
  - intros labels Hne Hall. unfold get_classes, strip, split_whitespace.
    assert (Hl : lstrip (join_spaces labels) = join_spaces labels).
    { destruct labels as [|t rest]; [done|].
      apply Forall_cons in Hall as Hall'. destruct Hall' as [[Ht Hfree] _].
      destruct t as [|c t]; [done|].
      simpl in Hfree. apply andb_true_iff in Hfree as [Hc _].
      apply negb_true_iff in Hc.
      destruct rest; simpl; by rewrite Hc. }
    rewrite Hl, join_spaces_rstrip by done.
    by apply split_whitespace_join.
Qed.

Lemma get_classes_spec_witness :
  get_classes (Some (join_spaces ["Space"; "Kitchen"]%string))
  = ["Space"; "Kitchen"]%string.
Proof.
  apply (proj2 (proj2 (proj2 (proj2 get_classes_spec)))).
  - discriminate.
  - repeat constructor; discriminate.
Defined.

Lemma lookup_snoc_ind {A : Type} (P : nat -> A -> Prop) (l : list A) (x : A) :
  (forall i a, l !! i = Some a -> P i a) -> P (length l) x ->
  forall i a, (l ++ [x]) !! i = Some a -> P i a.
Proof.
  intros Hl Hx i a Hi. destruct (decide (i < length l)) as [Hlt|Hge].
  - rewrite lookup_app_l in Hi by done. by apply Hl.
  - apply lookup_lt_Some in Hi as Hlen. rewrite length_app in Hlen. simpl in Hlen.
    assert (i = length l) as -> by lia.
    rewrite lookup_app_r, Nat.sub_diag in Hi by lia. by injection Hi as <-.
Qed.

Lemma indexed_add (l : list Placed) (object : Element) :
  indexed l -> indexed (PlanObjectList_add l object).
Proof.
  intros Hl i e Hi. unfold PlanObjectList_add in Hi.
  destruct (decide (i < length l)) as [Hlt|Hge].
  - rewrite lookup_app_l in Hi by done. by apply Hl.
  - apply lookup_lt_Some in Hi as Hlen. rewrite length_app in Hlen. simpl in Hlen.
    assert (i = length l) as -> by lia.
    rewrite lookup_app_r, Nat.sub_diag in Hi by lia. by injection Hi as <-.
Qed.

Lemma indexed_add_all (objects : list Element) :
  forall l, indexed l -> indexed (foldl PlanObjectList_add l objects).
Proof.
  induction objects as [|o objects IH]; intros l Hl; simpl; [done|].
  by apply IH, indexed_add.
Qed.

Lemma Wall_openings_indexed (children : list Element) :
  forall acc openings,
    indexed (map snd acc) ->
    Wall_openings children acc = Ok openings ->
    indexed (map snd openings).
Proof.
  induction children as [|child rest IH]; intros acc openings Hacc; simpl.
  - by intros [= <-].
  - assert (Hstep : forall kind,
              indexed (map snd (acc ++ [(kind, mkPlaced child (length acc))]))).
    { intros kind. rewrite map_app. simpl.
      pose proof (indexed_add (map snd acc) child Hacc) as Hadd.
      unfold PlanObjectList_add in Hadd. by rewrite length_map in Hadd. }
    destruct (is_Group child); [|by apply IH].
    destruct (classes_of child) as [|object_type cs]; [discriminate|].
    destruct (String.eqb object_type "Door"); [by apply IH|].
    destruct (String.eqb object_type "Window"); [by apply IH|].
    by apply IH.
Qed.

Lemma find_objects_loop_indexed (children : list Element) :
  forall floor : Floor,
    well_indexed floor -> well_indexed (snd (find_objects_loop children floor)).
Proof.
  induction children as [|child rest IH]; intros floor Hw; simpl; [done|].
  destruct Hw as (Hr & Hl & Hf & Hwalls).
  assert (Hw : well_indexed floor) by exact (conj Hr (conj Hl (conj Hf Hwalls))).
  destruct (is_Group child); [|by apply IH].
  destruct (classes_of child) as [|object_type cs]; [exact Hw|].
  destruct (String.eqb object_type "Space").
  { apply IH. exact (conj (indexed_add _ _ Hr) (conj Hl (conj Hf Hwalls))). }
  destruct (String.eqb object_type "Wall").
  { destruct (new_PlacedWall child (length (walls floor))) as [wall|e] eqn:E;
      [|exact Hw].
    assert (Hwall : wall_index wall = length (walls floor)
                    /\ indexed (map snd (openings wall))).
    { unfold new_PlacedWall in E.
      destruct (items_of child) as [kids|]; [|discriminate].
      destruct (Wall_openings kids []) as [ops|] eqn:Eo; [|discriminate].
      injection E as <-. simpl. split; [done|].
      apply (Wall_openings_indexed kids [] ops); [|done].
      intros j e Hj. simpl in Hj. by rewrite lookup_nil in Hj. }
    apply IH. split; [exact Hr|]. split; [exact Hl|]. split; [exact Hf|].
    simpl. by apply lookup_snoc_ind. }
  destruct (String.eqb object_type "Railing").
  { apply IH. exact (conj Hr (conj (indexed_add _ _ Hl) (conj Hf Hwalls))). }
  destruct (String.eqb object_type "FixedFurniture").
  { apply IH. exact (conj Hr (conj Hl (conj (indexed_add _ _ Hf) Hwalls))). }
  destruct (String.eqb object_type "FixedFurnitureSet");
    [|apply IH; exact (conj Hr (conj Hl (conj Hf Hwalls)))].
  destruct (items_of child) as [grandchildren|];
    [|exact (conj Hr (conj Hl (conj Hf Hwalls)))].
  apply IH. exact (conj Hr (conj Hl (conj (indexed_add_all _ _ Hf) Hwalls))).
Qed.

(** X16: find_objects keeps every object's index equal to its position in
    its list: starting from a floor where that holds, a new Floor for one,
    it holds in the floor find_objects reaches, whether it returns or is
    left by an exception, for the rooms, the walls, the railings and the
    fixtures, and for the openings of every wall. *)
Theorem find_objects_well_indexed (floor_container : Element) (floor : Floor) :
  well_indexed new_Floor
  /\ (well_indexed floor -> well_indexed (snd (find_objects floor_container floor))).
Proof.
  split.
  - split; [|split; [|split]]; intros i e Hi; simpl in Hi;
      by rewrite lookup_nil in Hi.
  - intros Hw. unfold find_objects.
    destruct (find_children_by_class floor_container "Floorplan") as [|plan ?];
      [done|].
    destruct (items_of plan) as [children|]; [|done].
    by apply find_objects_loop_indexed.
Qed.

Lemma add_all_containers (objects : list Element) :
  forall l, map container (foldl PlanObjectList_add l objects)
            = map container l ++ objects.
Proof.
  induction objects as [|o objects IH]; intros l; simpl.
  - by rewrite app_nil_r.
  - rewrite IH. unfold PlanObjectList_add. rewrite map_app. simpl.
    by rewrite <- app_assoc.
Qed.

Lemma new_PlacedWall_container (c : Element) (i : nat) (w : PlacedWall) :
  new_PlacedWall c i = Ok w -> wall_container w = c.
Proof.
  unfold new_PlacedWall. destruct (items_of c); [|discriminate].
  destruct (Wall_openings _ _); [|discriminate]. by intros [= <-].
Qed.

Lemma find_objects_loop_containers (children : list Element) :
  forall floor floor' : Floor,
    find_objects_loop children floor = (None, floor') ->
    map container (rooms floor')
      = map container (rooms floor) ++ children_of_type "Space" children
    /\ map wall_container (walls floor')
       = map wall_container (walls floor) ++ children_of_type "Wall" children
    /\ map container (railings floor')
       = map container (railings floor) ++ children_of_type "Railing" children
    /\ map container (fixtures floor')
       = map container (fixtures floor) ++ flat_map fixture_elements children.
Proof.
  induction children as [|child rest IH]; intros floor floor'.
  - simpl. intros [= <-]. by rewrite !app_nil_r.
  - cbn [find_objects_loop flat_map].
    assert (Hfilter : forall ty,
      children_of_type ty (child :: rest)
      = (if bool_decide (object_type_of child = Some ty) then [child] else [])
        ++ children_of_type ty rest).
    { intros ty. unfold children_of_type. simpl. by destruct (bool_decide _). }
    rewrite !Hfilter. clear Hfilter.
    destruct (is_Group child) eqn:Hg.
    2:{ assert (Hn : object_type_of child = None)
          by (unfold object_type_of; by rewrite Hg).
        unfold fixture_elements. rewrite Hn.
        rewrite !bool_decide_eq_false_2 by done. apply IH. }
    destruct (classes_of child) as [|object_type cs] eqn:Hc; [discriminate|].
    assert (Hot : object_type_of child = Some object_type)
      by (unfold object_type_of; by rewrite Hg, Hc).
    unfold fixture_elements. rewrite Hot. clear Hot Hg Hc.
    destruct (String.eqb_spec object_type "Space") as [->|H1].
    { intros Hrun. apply IH in Hrun. simpl in Hrun.
      destruct Hrun as (Hr & Hw & Hl & Hf).
      rewrite (bool_decide_eq_true_2 (Some "Space" = Some "Space")%string) by done.
      rewrite !bool_decide_eq_false_2 by discriminate. simpl.
      unfold PlanObjectList_add in Hr. rewrite map_app, <- app_assoc in Hr.
      done. }
    destruct (String.eqb_spec object_type "Wall") as [->|H2].
    { destruct (new_PlacedWall child (length (walls floor))) as [wall|e] eqn:E;
        [|discriminate].
      apply new_PlacedWall_container in E.
      intros Hrun. apply IH in Hrun. simpl in Hrun.
      destruct Hrun as (Hr & Hw & Hl & Hf).
      rewrite (bool_decide_eq_true_2 (Some "Wall" = Some "Wall")%string) by done.
      rewrite !bool_decide_eq_false_2 by discriminate. simpl.
      rewrite map_app, <- app_assoc in Hw. simpl in Hw. rewrite E in Hw.
      done. }
    destruct (String.eqb_spec object_type "Railing") as [->|H3].
    { intros Hrun. apply IH in Hrun. simpl in Hrun.
      destruct Hrun as (Hr & Hw & Hl & Hf).
      rewrite (bool_decide_eq_true_2 (Some "Railing" = Some "Railing")%string) by done.
      rewrite !bool_decide_eq_false_2 by discriminate. simpl.
      unfold PlanObjectList_add in Hl. rewrite map_app, <- app_assoc in Hl.
      done. }
    rewrite !bool_decide_eq_false_2 by (intros [= ?]; done).
    cbn [app].
    destruct (String.eqb_spec object_type "FixedFurniture") as [->|H4].
    { intros Hrun. apply IH in Hrun. simpl in Hrun.
      destruct Hrun as (Hr & Hw & Hl & Hf).
      unfold PlanObjectList_add in Hf. rewrite map_app, <- app_assoc in Hf.
      done. }
    destruct (String.eqb_spec object_type "FixedFurnitureSet") as [->|H5].
    { destruct (items_of child) as [grandchildren|]; [|discriminate].
      intros Hrun. apply IH in Hrun. simpl in Hrun.
      destruct Hrun as (Hr & Hw & Hl & Hf).
      rewrite add_all_containers, <- app_assoc in Hf. done. }
    intros Hrun. by apply IH in Hrun.
Qed.

(** X17: when find_objects returns on a new Floor, the containers of its
    rooms are, in document order, the Group children of the first
    Floorplan element whose first class is "Space"; those of its walls
    and railings the ones whose first class is "Wall" and "Railing"; and
    those of its fixtures the "FixedFurniture" groups themselves and all
    the children, groups or not, of the "FixedFurnitureSet" groups.  It
    raises IndexError without a Floorplan child. *)
Theorem find_objects_containers (floor_container : Element) (floor' : Floor) :
  (find_children_by_class floor_container "Floorplan" = [] ->
   find_objects floor_container new_Floor = (Some IndexError, new_Floor))
  /\ (find_objects floor_container new_Floor = (None, floor') ->
      exists plan others children,
        find_children_by_class floor_container "Floorplan" = plan :: others
        /\ items_of plan = Some children
        /\ map container (rooms floor') = children_of_type "Space" children
        /\ map wall_container (walls floor') = children_of_type "Wall" children
        /\ map container (railings floor') = children_of_type "Railing" children
        /\ map container (fixtures floor') = flat_map fixture_elements children).
Proof.
  unfold find_objects. split; [by intros ->|].
  destruct (find_children_by_class floor_container "Floorplan") as [|plan others];
    [discriminate|].
  destruct (items_of plan) as [children|] eqn:Hitems; [|discriminate].
  intros Hrun. exists plan, others, children.
  apply find_objects_loop_containers in Hrun.
  destruct Hrun as (Hr & Hw & Hl & Hf).
  split; [done|]. split; [done|]. split; [exact Hr|]. split; [exact Hw|].
  split; [exact Hl | exact Hf].
Qed.

Lemma find_objects_containers_witness :
  exists plan others children,
    find_children_by_class sample_floor "Floorplan" = plan :: others
    /\ items_of plan = Some children
    /\ map container (rooms (snd (find_objects sample_floor new_Floor)))
       = children_of_type "Space" children
    /\ map wall_container (walls (snd (find_objects sample_floor new_Floor)))
       = children_of_type "Wall" children
    /\ map container (railings (snd (find_objects sample_floor new_Floor)))
       = children_of_type "Railing" children
    /\ map container (fixtures (snd (find_objects sample_floor new_Floor)))
       = flat_map fixture_elements children.
Proof.
  apply (proj2 (find_objects_containers sample_floor
                  (snd (find_objects sample_floor new_Floor)))).
  vm_compute. reflexivity.
Defined.

Lemma elem_of_adjacencies_by_type (s : AdjState) (self obj : Entity)
    (cls : EntityClass) :
  obj ∈ adjacencies_by_type s self cls
  <-> isinstance obj cls = true /\ is_Some (facts s self obj).
Proof.
  unfold adjacencies_by_type, facts.
  rewrite list_elem_of_In, filter_In, <- list_elem_of_In, list_elem_of_fmap.
  split.
  - intros [Hex Hcls]. destruct Hex as ([k l] & -> & Hin).
    apply elem_of_map_to_list in Hin.
    split; [done | eauto].
  - intros [Hcls [l Hl]]. split; [|done].
    exists (obj, l). split; [done | by apply elem_of_map_to_list].
Qed.

Section AdjacentFacts.
Context `{Shapely}.
Variable fp : FloorPlan.

(** X18: after the adjacency pass of a floor from empty tables, the lists
    adjacencies_by_type returns are symmetric: room r2 is among
    adjacent_rooms() of r1 exactly when r1 is among those of r2, and a
    wall is among adjacent_walls() of a room exactly when the room is
    among the wall's adjacent rooms; no room is adjacent to itself; and no
    list names an object twice. *)
Theorem adjacent_lists_symmetric (r1 r2 w : nat) (self : Entity) (cls : EntityClass) :
  let s' := snd (Floor_find_adjacencies fp initial_AdjState) in
  (ERoom r2 ∈ adjacent_rooms s' r1 <-> ERoom r1 ∈ adjacent_rooms s' r2)
  /\ (EWall w ∈ adjacent_walls s' r1
      <-> ERoom r1 ∈ adjacencies_by_type s' (EWall w) CRoom)
  /\ (ERoom r1 ∉ adjacent_rooms s' r1)
  /\ NoDup (adjacencies_by_type s' self cls).
Proof.
  simpl.
  pose proof (rooms_loop_symmetric fp (seq 0 (n_rooms fp)) initial_AdjState
                initial_symmetric) as Hsym.
  pose proof (rooms_loop_within fp (n_rooms fp) 0 initial_AdjState) as Hin.
  fold (Floor_find_adjacencies fp initial_AdjState) in Hsym, Hin.
  unfold adjacent_rooms, adjacent_walls.
  rewrite !elem_of_adjacencies_by_type. simpl.
  split; [by rewrite (Hsym (ERoom r1) (ERoom r2))|].
  split; [by rewrite (Hsym (ERoom r1) (EWall w))|].
  split.
  - intros [_ [l Hl]].
    destruct Hin with (a := ERoom r1) (b := ERoom r1) as [Hlen Hvis].
    { intros x y. rewrite facts_initial. simpl. split; [lia | done]. }
    pose proof (rooms_loop_no_empty fp (seq 0 (n_rooms fp)) initial_AdjState) as Hne.
    fold (Floor_find_adjacencies fp initial_AdjState) in Hne.
    specialize (Hne ltac:(intros x y; by rewrite facts_initial) (ERoom r1) (ERoom r1)).
    rewrite Hl in Hvis, Hne. simpl in Hvis.
    destruct l as [|f l]; [done|].
    destruct Hvis as (i & Hi & [[[= <-] Hc] | [[= <-] Hc]]); [done | | ];
      simpl in Hc; lia.
  - unfold adjacencies_by_type.
    apply NoDup_ListNoDup, List.NoDup_filter, NoDup_ListNoDup.
    apply NoDup_fst_map_to_list.
Qed.

End AdjacentFacts.

Section OtherBranchesFacts.
Context `{Shapely}.

Lemma base_polygon_stable (w : Wall) :
  fst (PlanObject_polygon (wall_object (snd (Wall_polygon w))))
  = fst (PlanObject_polygon (wall_object w)).
Proof.
  unfold Wall_polygon. destruct (_polygon w); [done|].
  pose proof (PlanObject_polygon_cached (wall_object w)) as [Hc _].
  destruct (PlanObject_polygon (wall_object w)) as [g o]. simpl in *.
  unfold PlanObject_polygon. by rewrite Hc.
Qed.

(* The state after the two reads remove_overlaps starts with. *)
Lemma remove_overlaps_reads (self other_wall : nat) (walls : list Wall) :
  self <> other_wall -> self < length walls -> other_wall < length walls ->
  exists walls2,
    read_polygon self walls
    = (polygon_read walls self, snd (read_polygon self walls))
    /\ read_polygon other_wall (snd (read_polygon self walls))
       = (polygon_read walls other_wall, walls2)
    /\ length walls2 = length walls
    /\ walls2 !!! other_wall = snd (Wall_polygon (walls !!! other_wall))
    /\ forall k, polygon_read walls2 k = polygon_read walls k.
Proof.
  intros Hne Hs Ho.
  exists (snd (read_polygon other_wall (snd (read_polygon self walls)))).
  split; [|split; [|split; [|split]]].
  - rewrite <- read_polygon_value. by destruct (read_polygon self walls).
  - rewrite <- (read_polygon_reads self walls other_wall), <- read_polygon_value.
    by destruct (read_polygon other_wall _).
  - by rewrite !read_polygon_length.
  - unfold read_polygon at 1.
    rewrite (read_polygon_others self walls other_wall) by done.
    destruct (Wall_polygon (walls !!! other_wall)) as [g w]. simpl.
    apply list_lookup_total_insert_eq. by rewrite read_polygon_length.
  - intros k. by rewrite !read_polygon_reads.
Qed.

(** X19: for two walls that match the overlap pattern and whose first
    difference is not clean: when the second difference is clean,
    remove_overlaps assigns it to other_wall, returns True and leaves
    every other wall's polygon as it was; when the second is not clean
    either and clean_overlaps_only is off, it assigns None to other_wall
    and returns True, after which other_wall reads the polygon computed
    from its points and every other wall the polygon it read before. *)
Theorem remove_overlaps_second_difference (walls : list Wall)
    (self other_wall : nat) :
  self <> other_wall -> self < length walls -> other_wall < length walls ->
  relate_pattern (polygon_read walls self) (polygon_read walls other_wall)
    overlap_pattern = true ->
  subtract_cleanly (polygon_read walls self) (polygon_read walls other_wall)
    CLOSE_EDGE_TOLERANCE = Ok None ->
  (forall (d : Geometry) (clean_overlaps_only : bool),
      subtract_cleanly (polygon_read walls other_wall) (polygon_read walls self)
        CLOSE_EDGE_TOLERANCE = Ok (Some d) ->
      exists walls',
        remove_overlaps self other_wall clean_overlaps_only walls = (Ok RTrue, walls')
        /\ polygon_read walls' other_wall = d
        /\ forall k, k <> other_wall -> polygon_read walls' k = polygon_read walls k)
  /\ (subtract_cleanly (polygon_read walls other_wall) (polygon_read walls self)
        CLOSE_EDGE_TOLERANCE = Ok None ->
      exists walls',
        remove_overlaps self other_wall false walls = (Ok RTrue, walls')
        /\ _polygon (walls' !!! other_wall) = None
        /\ polygon_read walls' other_wall
           = fst (PlanObject_polygon (wall_object (walls !!! other_wall)))
        /\ forall k, k <> other_wall -> polygon_read walls' k = polygon_read walls k).
Proof.
  intros Hne Hs Ho Hrel Hfirst.
  destruct (remove_overlaps_reads self other_wall walls Hne Hs Ho)
    as (walls2 & Hr1 & Hr2 & Hlen & Hother & Hreads).
  split.
  - intros d clean Hsecond. unfold remove_overlaps.
    rewrite Hr1. rewrite Hr2. rewrite Hrel, Hfirst, Hsecond.
    eexists. split; [reflexivity|]. unfold write_polygon, polygon_read. split.
    + rewrite list_lookup_total_insert_eq by lia. reflexivity.
    + intros k Hk. rewrite list_lookup_total_insert_ne by done. apply Hreads.
  - intros Hsecond. unfold remove_overlaps.
    rewrite Hr1. rewrite Hr2. rewrite Hrel, Hfirst, Hsecond.
    eexists. split; [reflexivity|]. unfold write_polygon, polygon_read.
    split; [|split].
    + rewrite list_lookup_total_insert_eq by lia. reflexivity.
    + rewrite list_lookup_total_insert_eq by lia.
      rewrite Wall_polygon_unassigned, Hother. apply base_polygon_stable.
    + intros k Hk. rewrite list_lookup_total_insert_ne by done. apply Hreads.
Qed.

End OtherBranchesFacts.

Lemma remove_overlaps_second_difference_witness :
  exists walls',
    @remove_overlaps walls_shapely 0 1 false bar_and_beam = (Ok RTrue, walls')
    /\ _polygon (walls' !!! 1) = None
    /\ @polygon_read walls_shapely walls' 1
       = fst (@PlanObject_polygon walls_shapely (wall_object (bar_and_beam !!! 1)))
    /\ forall k, k <> 1 ->
         @polygon_read walls_shapely walls' k
         = @polygon_read walls_shapely bar_and_beam k.
Proof.
  apply (proj2 (@remove_overlaps_second_difference walls_shapely bar_and_beam 0 1
                  ltac:(lia) ltac:(simpl; lia) ltac:(simpl; lia)
                  ltac:(vm_compute; reflexivity) ltac:(vm_compute; reflexivity))).
  vm_compute. reflexivity.
Defined.

Section PendingPairsFacts.
Context `{Shapely}.

Lemma resolution_round_sublist (pairs : list (nat * nat)) :
  forall (acc retry : list (nat * nat)) (walls walls' : list Wall),
    resolution_round pairs acc walls = (Ok retry, walls') ->
    exists kept, retry = acc ++ kept /\ sublist kept pairs.
Proof.
  induction pairs as [|[a b] rest IH]; intros acc retry walls walls'; simpl.
  - intros [= <- _]. exists []. by rewrite app_nil_r.
  - destruct (remove_overlaps a b true walls) as [[r|e] walls1]; [|discriminate].
    intros Hrest. apply IH in Hrest as (kept & -> & Hsub).
    destruct (is_False r).
    + exists ((a, b) :: kept). rewrite <- app_assoc. split; [done|].
      by constructor.
    + exists kept. split; [done|]. by constructor.
Qed.

Lemma combinations_from_complete (n : nat) :
  forall start i j : nat,
    start <= i -> i < j -> j < start + n -> (i, j) ∈ combinations_from start n.
Proof.
  induction n as [|n IH]; intros start i j Hs Hij Hj; simpl; [lia|].
  apply elem_of_app. destruct (decide (i = start)) as [->|Hne].
  - left. apply list_elem_of_fmap. exists j. split; [done|].
    apply elem_of_seq. lia.
  - right. apply IH; lia.
Qed.

Lemma combinations_from_NoDup (n : nat) :
  forall start : nat, NoDup (combinations_from start n).
Proof.
  induction n as [|n IH]; intros start; simpl; [constructor|].
  apply NoDup_app. split; [|split].
  - apply NoDup_fmap_2; [intros ? ? [=]; done | apply NoDup_seq].
  - intros [i j] Hin Hin'. apply list_elem_of_fmap in Hin as (j' & [= -> ->] & _).
    apply combinations_from_bounds in Hin'. lia.
  - apply IH.
Qed.

Lemma combinations_from_length (n : nat) :
  forall start : nat, 2 * length (combinations_from start n) = n * (n - 1).
Proof.
  induction n as [|n IH]; intros start; simpl; [done|].
  rewrite length_app, length_map, length_seq.
  specialize (IH (S start)). rewrite Nat.sub_0_r. destruct n; simpl in *; nia.
Qed.

(** X20: remove_wall_overlaps starts from every pair of two different
    walls of the floor, each once, the earlier wall first: n(n-1)/2 pairs
    for n walls; and the pairs a round leaves pending are a subsequence of
    the pairs it was given, so nothing is retried that was not pending and
    the order of the pairs never changes. *)
Theorem pending_pairs_spec (walls : list Wall) :
  (forall i j, (i, j) ∈ wall_pairs walls <-> i < j /\ j < length walls)
  /\ NoDup (wall_pairs walls)
  /\ 2 * length (wall_pairs walls) = length walls * (length walls - 1)
  /\ (forall (pairs retry : list (nat * nat)) (ws ws' : list Wall),
        resolution_round pairs [] ws = (Ok retry, ws') -> sublist retry pairs).
Proof.
  unfold wall_pairs. split; [|split; [|split]].
  - intros i j. split.
    + intros Hin. apply combinations_from_bounds in Hin. lia.
    + intros [Hij Hj]. apply combinations_from_complete; lia.
  - apply combinations_from_NoDup.
  - apply combinations_from_length.
  - intros pairs retry ws ws' Hrun.
    apply resolution_round_sublist in Hrun as (kept & -> & Hsub). done.
Qed.

End PendingPairsFacts.

Lemma pending_pairs_spec_witness :
  sublist [(1, 2)] (@wall_pairs three_walls).
Proof.
  apply (proj2 (proj2 (proj2 (@pending_pairs_spec walls_shapely three_walls)))
           (wall_pairs three_walls) [(1, 2)] three_walls
           (snd (@resolution_round walls_shapely (wall_pairs three_walls) []
                   three_walls))).
  vm_compute. reflexivity.
Defined.

Lemma filter_entry_lookup (fn : Entity -> Fact -> bool) (object : Entity)
    (info_list : list Fact) :
  forall (matches : gmap Entity (list Fact)) (o : Entity),
    filter_entry fn object info_list matches !! o
    = if decide (o = object)
      then match List.filter (fn object) info_list with
           | [] => matches !! object
           | kept => Some (default [] (matches !! object) ++ kept)
           end
      else matches !! o.
Proof.
  unfold filter_entry.
  induction info_list as [|info rest IH]; intros matches o; simpl.
  - by case_decide; subst.
  - rewrite IH. case_decide as Ho; [subst o|].
    + destruct (fn object info) eqn:Hfn.
      * unfold AdjacencyList_add. rewrite lookup_insert_eq. simpl.
        rewrite lookup_total_alt.
        destruct (List.filter (fn object) rest); [done|].
        by rewrite <- app_assoc.
      * done.
    + destruct (fn object info); [|done].
      unfold AdjacencyList_add. by rewrite lookup_insert_ne.
Qed.

(** X21: AdjacencyList.filter returns, for every object, the facts of its
    entry that pass fn, in their order, and no entry at all for an object
    none of whose facts passes: so no entry of the result is an empty
    list, and an always-true fn gives back every non-empty entry. *)
Theorem AdjacencyList_filter_lookup (fn : Entity -> Fact -> bool)
    (al : gmap Entity (list Fact)) (o : Entity) :
  AdjacencyList_filter fn al !! o = kept_facts fn o (al !! o)
  /\ AdjacencyList_filter fn al !! o <> Some [].
Proof.
  assert (Hall : forall o', AdjacencyList_filter fn al !! o' = kept_facts fn o' (al !! o')).
  { unfold AdjacencyList_filter.
    apply (map_fold_weak_ind
             (fun r m => forall o', r !! o' = kept_facts fn o' (m !! o'))).
    - intros o'. by rewrite !lookup_empty.
    - intros i x m r Hi IH o'. rewrite filter_entry_lookup.
      case_decide as Ho; [subst o'|].
      + rewrite lookup_insert_eq, IH, Hi. simpl.
        by destruct (List.filter (fn i) x).
      + rewrite lookup_insert_ne by done. apply IH. }
  split; [apply Hall|]. rewrite Hall. unfold kept_facts.
  destruct (al !! o) as [l|]; [|done]. by destruct (List.filter (fn o) l).
Qed.

Section IsCloseFacts.
Context `{Shapely}.

Lemma lines_are_close_regular (e1 e2 : LineString) :
  regular_edge e1 -> regular_edge e2 ->
  lines_are_close e1 e2 CLOSE_EDGE_TOLERANCE = Ok (close_pair e1 e2).
Proof.
  intros H1 H2. unfold close_pair.
  destruct (Qltb 0 (line_length e1)) eqn:E1;
    [|unfold lines_are_close; by rewrite E1].
  destruct (Qltb 0 (line_length e2)) eqn:E2;
    [|unfold lines_are_close; by rewrite E1, E2].
  simpl. apply lines_are_close_count; try (by apply Qltb_lt); auto.
Qed.

Lemma any_close_edge_regular (e1 : LineString) (es2 : list LineString) :
  regular_edge e1 -> Forall regular_edge es2 ->
  any_close_edge e1 es2 = Ok (existsb (close_pair e1) es2).
Proof.
  intros H1. induction es2 as [|e2 es2 IH]; intros Hall; simpl; [done|].
  apply Forall_cons in Hall as [H2 Hall].
  rewrite lines_are_close_regular by done.
  destruct (close_pair e1 e2); [done|]. by apply IH.
Qed.

Lemma is_close_loop_regular (es1 es2 : list LineString) (other : Geometry) :
  edges other = Ok es2 -> Forall regular_edge es1 -> Forall regular_edge es2 ->
  is_close_loop es1 other
  = Ok (existsb (fun e1 => existsb (close_pair e1) es2) es1).
Proof.
  intros Ho Hall1 Hall2. induction es1 as [|e1 es1 IH]; simpl; [done|].
  apply Forall_cons in Hall1 as [H1 Hall1].
  rewrite Ho, any_close_edge_regular by done.
  destruct (existsb (close_pair e1) es2); [done|]. by apply IH.
Qed.

(** X22: _is_close returns False, looking at no edge, when the two
    polygons are more than the tolerance apart, whatever geometries they
    are; and for two polygons with regular edges it returns True exactly
    when they are at most the tolerance apart and some edge of the one and
    some edge of the other, both of positive length, have at least two of
    their four end point checks below the tolerance. *)
Theorem is_close_spec :
  (forall g1 g2 : Geometry,
      Qleb (distance g1 g2) CLOSE_EDGE_TOLERANCE = false ->
      _is_close g1 g2 = Ok false)
  /\ (forall p1 p2 : Polygon,
      Forall regular_edge (polygon_edges p1) ->
      Forall regular_edge (polygon_edges p2) ->
      _is_close (GPolygon p1) (GPolygon p2)
      = Ok (Qleb (distance (GPolygon p1) (GPolygon p2)) CLOSE_EDGE_TOLERANCE
            && existsb (fun e1 => existsb (close_pair e1) (polygon_edges p2))
                       (polygon_edges p1))).
Proof.
  split.
  - intros g1 g2 Hfar. unfold _is_close. by rewrite Hfar.
  - intros p1 p2 H1 H2. unfold _is_close.
    destruct (Qleb _ _); [|done]. simpl.
    by apply is_close_loop_regular.
Qed.

End IsCloseFacts.

Lemma is_close_spec_witness :
  @_is_close parallel_shapely (GPolygon west_room) (GPolygon middle_wall) = Ok true.
Proof.
  rewrite (proj2 (@is_close_spec parallel_shapely) west_room middle_wall).
  - vm_compute. reflexivity.
  - repeat constructor; intros _; reflexivity.
  - repeat constructor; intros _; reflexivity.
Defined.

Section OpeningsLinkedFacts.
Context `{Shapely}.
Variable fp : FloorPlan.

Lemma check_adjacencies_linked (kind : OpeningKind) (o' : Opening) (r' : nat)
    (s : AdjState) :
  wall_openings fp (fst o') !! snd o' = Some kind ->
  openings_linked fp s -> openings_linked fp (check_adjacencies fp kind o' r' s).
Proof.
  intros Hkind Hl. unfold check_adjacencies.
  destruct (Qltb _ _); [|done].
  intros o r. destruct (Hl o r) as [Hd Hw].
  assert (Hrooms : r ∈ (<[o' := opening_rooms s !!! o' ++ [r']]> (opening_rooms s)) !!! o
                   <-> r ∈ opening_rooms s !!! o \/ (o = o' /\ r = r')).
  { rewrite lookup_total_insert. case_decide as Ho.
    - subst o'. rewrite elem_of_app, list_elem_of_singleton. tauto.
    - split; [tauto|]. intros [?|[? _]]; [done|congruence]. }
  assert (Hset : forall m : gmap nat (gset Opening),
             o ∈ (<[r' := m !!! r' ∪ {[o']}]> m) !!! r
             <-> o ∈ m !!! r \/ (o = o' /\ r = r')).
  { intros m. rewrite lookup_total_insert. case_decide as Hr.
    - subst r'. rewrite elem_of_union, elem_of_singleton. tauto.
    - split; [tauto|]. intros [?|[_ ?]]; [done|congruence]. }
  unfold Opening_add_adjacency. destruct kind; simpl.
  - rewrite Hrooms, Hset, Hd, Hw. split.
    + split; [intros [[? ?]|[-> ->]]; tauto|tauto].
    + split; [tauto|]. intros [Hk [?|[-> ->]]]; [tauto|congruence].
  - rewrite Hrooms, Hset, Hd, Hw. split.
    + split; [tauto|]. intros [Hk [?|[-> ->]]]; [tauto|congruence].
    + split; [intros [[? ?]|[-> ->]]; tauto|tauto].
Qed.

Lemma check_openings_linked (wall : nat) (kinds : list OpeningKind) (r : nat) :
  forall (k : nat) (s : AdjState),
    (forall j kind, kinds !! j = Some kind ->
                    wall_openings fp wall !! (k + j) = Some kind) ->
    openings_linked fp s ->
    openings_linked fp (check_openings fp wall k kinds r s).
Proof.
  induction kinds as [|kind rest IH]; intros k s Hkinds Hl; simpl; [done|].
  apply IH.
  - intros j kind' Hj. replace (S k + j) with (k + S j) by lia.
    by apply Hkinds.
  - apply check_adjacencies_linked; [|done]. simpl.
    rewrite <- (Nat.add_0_r k). by apply Hkinds.
Qed.

Lemma add_adjacency_linked (self object : Entity) (info : Fact) (s : AdjState) :
  openings_linked fp s -> openings_linked fp (add_adjacency fp self object info s).
Proof.
  intros Hl. unfold add_adjacency.
  destruct self as [i|w|i], object as [r|j|j]; try exact Hl.
  apply check_openings_linked; [|exact Hl].
  intros j kind Hj. exact Hj.
Qed.

Lemma find_adjacencies_linked (self : Entity) (others : list Entity) :
  forall s : AdjState,
    openings_linked fp s ->
    openings_linked fp (snd (find_adjacencies fp self others s)).
Proof.
  induction others as [|other rest IH]; intros s Hl;
    cbn [find_adjacencies]; [done|].
  destruct (intersection (polygon_of fp self) (polygon_of fp other));
    try (by apply IH; do 2 apply add_adjacency_linked);
    (destruct (_is_close (polygon_of fp self) (polygon_of fp other)) as [[|]|];
     [by apply IH; do 2 apply add_adjacency_linked | by apply IH | done]).
Qed.

Lemma rooms_loop_linked (room_indexes : list nat) :
  forall s : AdjState,
    openings_linked fp s ->
    openings_linked fp (snd (rooms_loop fp room_indexes s)).
Proof.
  induction room_indexes as [|r rest IH]; intros s Hl; simpl; [done|].
  assert (H1 : openings_linked fp (snd (room_adjacencies fp r s))).
  { unfold room_adjacencies.
    pose proof (find_adjacencies_linked (ERoom r) (walls_of fp) s Hl) as Hw.
    destruct (find_adjacencies fp (ERoom r) (walls_of fp) s) as [[e|] s1];
      [exact Hw|]. simpl in Hw.
    pose proof (find_adjacencies_linked (ERoom r) (railings_of fp) s1 Hw) as Hr.
    destruct (find_adjacencies fp (ERoom r) (railings_of fp) s1) as [[e|] s2];
      [exact Hr|]. simpl in Hr.
    by apply find_adjacencies_linked. }
  destruct (room_adjacencies fp r s) as [[e|] s1]; [exact H1|].
  by apply IH.
Qed.

Lemma initial_linked : openings_linked fp initial_AdjState.
Proof.
  intros o r. simpl. rewrite !lookup_total_empty.
  split; (split; [intros Hin; by apply not_elem_of_empty in Hin|]);
    intros [_ Hin]; by apply not_elem_of_nil in Hin.
Qed.

(** X23: in the state the adjacency pass of a floor reaches from a fresh
    one, also when an exception ended it, the door set of a room holds
    exactly the Door openings, and its window set exactly the Window
    openings, whose room list holds the room.  When the pass ran to its
    end, the room list of an opening is the rooms of the floor, in floor
    order and each once, that its wall gained an adjacency fact with and
    that lie within the tolerance of the opening. *)
Theorem openings_after_pass (o : Opening) :
  let out := Floor_find_adjacencies fp initial_AdjState in
  openings_linked fp (snd out)
  /\ (fst out = None ->
      opening_rooms (snd out) !!! o
      = List.filter (gained fp o) (seq 0 (n_rooms fp))).
Proof.
  simpl. split.
  - apply rooms_loop_linked, initial_linked.
  - intros Hend.
    destruct (Floor_find_adjacencies fp initial_AdjState) as [e s'] eqn:Hpass.
    simpl in Hend. subst e. simpl.
    unfold Floor_find_adjacencies in Hpass.
    rewrite (rooms_loop_rooms fp o _ _ _ Hpass). simpl.
    by rewrite lookup_total_empty.
Qed.

End OpeningsLinkedFacts.

Lemma openings_after_pass_witness :
  opening_rooms (snd (@Floor_find_adjacencies rooms_shapely window_floor
                        initial_AdjState)) !!! (0, 1)
  = List.filter (@gained rooms_shapely window_floor (0, 1)) (seq 0 2).
Proof.
  apply (proj2 (@openings_after_pass rooms_shapely window_floor (0, 1))).
  vm_compute. reflexivity.
Defined.

(* ===================================================================== *)
(* Shape reconstruction and closeness, in full                            *)
(* ===================================================================== *)

Section RepairFacts.
Context `{Shapely}.









End RepairFacts.

Section TwoChecksFacts.
Context `{Shapely}.




End TwoChecksFacts.



Section IdempotenceFacts.
Context `{Shapely}.

(* Only three points or more give a polygon. *)
Lemma polygon_from_points_polygon (points : list Coord) (p : Polygon) :
  polygon_from_points points = GPolygon p -> 3 <= length points.
Proof.
  destruct points as [|a [|b [|c rest]]]; try discriminate. simpl. lia.
Qed.

(* The polygon built from the ring of a polygon built from points is that
   polygon. *)
Lemma Polygon_exterior (points : list Coord) :
  3 <= length points -> Polygon_ (exterior (Polygon_ points)) = Polygon_ points.
Proof.
  intros Hlen. unfold Polygon_. simpl. by rewrite close_ring_closed.
Qed.

(** C10, as amended: let polygon_from_points return a polygon for a point
    list.  If it is the polygon built from the points, which the library
    found valid, the reconstruction from its exterior ring returns the
    same polygon.  For any returned polygon whose exterior ring has three
    coordinates or more and which the library finds valid when built from
    that ring, the reconstruction from the ring returns the same polygon
    exactly when the polygon has no hole and its ring is closed; and for
    the empty polygon, returned when a repair produces none, it returns
    the empty point. *)
Theorem reconstruction_idempotent (points : list Coord) (p : Polygon) :
  polygon_from_points points = GPolygon p ->
  (is_valid (Polygon_ points) = true ->
   polygon_from_points (exterior p) = GPolygon p)
  /\ (3 <= length (exterior p) ->
      is_valid (Polygon_ (exterior p)) = true ->
      (polygon_from_points (exterior p) = GPolygon p
       <-> interiors p = [] /\ close_ring (exterior p) = exterior p))
  /\ (p = empty_polygon -> polygon_from_points (exterior p) = GPoint None).
Proof.
  intros Hrun. pose proof (polygon_from_points_polygon _ _ Hrun) as Hlen.
  split; [|split].
  - intros Hvalid.
    rewrite (polygon_from_points_valid points Hlen Hvalid) in Hrun.
    injection Hrun as <-.
    pose proof (Polygon_exterior points Hlen) as Hsame.
    rewrite polygon_from_points_valid.
    + by rewrite Hsame.
    + simpl. pose proof (close_ring_length points). lia.
    + by rewrite Hsame.
  - intros Hring Hvalid.
    rewrite (polygon_from_points_valid _ Hring Hvalid).
    destruct p as [ext ints]. unfold Polygon_. simpl. split.
    + intros [= Hext Hints]. by rewrite Hext.
    + intros [-> ->]. reflexivity.
  - intros ->. reflexivity.
Qed.

End IdempotenceFacts.

Lemma reconstruction_idempotent_witness :
  @polygon_from_points triangle_shapely
    (exterior (@Polygon_ triangle_points))
  = GPolygon (Polygon_ triangle_points).
Proof.
  apply (proj1 (@reconstruction_idempotent triangle_shapely triangle_points
                  (Polygon_ triangle_points) eq_refl)).
  reflexivity.
Defined.

(** C10, counterexample: the ring that runs round the square and then
    round the kite inside it is not valid, and its repair succeeds: of
    the two polygons its eight edges enclose the larger one, the square
    with the kite as a hole, of area 94, is returned, a polygon the
    library finds valid.  Its exterior ring is the ring of the square, and
    the reconstruction from that ring returns the whole square, of area
    100, which is not the polygon with the hole. *)
Lemma reconstruction_not_idempotent :
  @polygon_from_points keyhole_shapely keyhole_points = GPolygon square_with_hole
  /\ @is_valid keyhole_shapely square_with_hole = true
  /\ (@area keyhole_shapely square_with_hole == 94)%Q
  /\ @polygon_from_points keyhole_shapely (exterior square_with_hole)
     = GPolygon (Polygon_ (rect 0 0 10 10))
  /\ (@area keyhole_shapely (Polygon_ (rect 0 0 10 10)) == 100)%Q
  /\ @equals keyhole_shapely (GPolygon (Polygon_ (rect 0 0 10 10)))
       (GPolygon square_with_hole) = false
  /\ ~ (forall p : Polygon,
         @polygon_from_points keyhole_shapely keyhole_points = GPolygon p ->
         @polygon_from_points keyhole_shapely (exterior p) = GPolygon p).
Proof.
  split; [vm_compute; reflexivity|].
  split; [vm_compute; reflexivity|].
  split; [vm_compute; reflexivity|].
  split; [vm_compute; reflexivity|].
  split; [vm_compute; reflexivity|].
  split; [vm_compute; reflexivity|].
  intros Hclaim. specialize (Hclaim square_with_hole).
  assert (Hrun : @polygon_from_points keyhole_shapely keyhole_points
                 = GPolygon square_with_hole) by (vm_compute; reflexivity).
  specialize (Hclaim Hrun).
  assert (Hagain : @polygon_from_points keyhole_shapely (exterior square_with_hole)
                   = GPolygon (Polygon_ (rect 0 0 10 10))) by (vm_compute; reflexivity).
  rewrite Hagain in Hclaim. discriminate Hclaim.
Qed.
